(** * podman-compose: specification resolution

    A shallow embedding of the resolution engine of [podman_compose.py]
    (variable substitution, document merge, service normalisation,
    [extends] resolution, the dependency graph builder and the container
    ordering) and of the helpers around it (port lists, short mounts,
    profiles, excluded services), followed by the properties established
    about them.

    Python values are trees here: a document loaded from YAML and passed
    through [rec_subs] is rebuilt from fresh dicts and lists, so no two
    places of it share a mutable object.  In-place updates of a dict are
    modelled by returning the updated dict.  The one place where the engine
    makes two services share nested objects is the same-file branch of
    [resolve_extends]; see there. *)

From Stdlib Require Import String Ascii List ZArith Bool Arith Lia.
From Stdlib Require Import DecimalString Permutation Sorted.
Import ListNotations.
Local Open Scope string_scope.
Local Open Scope list_scope.
Set Warnings "-register-all".


(* ================================================================== *)
(** * Part I: the embedding *)
(* ================================================================== *)

(** ** Python values, exceptions and dictionaries *)

Module Py.

(** The exceptions the modelled code can raise. *)
Inductive exn : Type :=
| ValueError (msg : string)
| RuntimeError (msg : string)
| KeyError (key : string)
| TypeError
| AttributeError
| IndexError
| UnboundLocalError
| RecursionError.

Inductive result (A : Type) : Type :=
| Ok (a : A)
| Raise (e : exn).
Arguments Ok {A} a.
Arguments Raise {A} e.

Definition bind {A B : Type} (c : result A) (k : A -> result B) : result B :=
  match c with
  | Ok a => k a
  | Raise e => Raise e
  end.

Declare Scope py_scope.
Delimit Scope py_scope with py.
Notation "x <- c ;; k" := (bind c (fun x => k))
  (at level 61, c at next level, right associativity) : py_scope.
Notation "' p <- c ;; k" := (bind c (fun x => match x with p => k end))
  (at level 61, p pattern, c at next level, right associativity) : py_scope.
Local Open Scope py_scope.

Section Traversals.
Context {A B S : Type}.

(** [[f(x) for x in l]], stopping at the first exception *)
Fixpoint mapM (f : A -> result B) (l : list A) {struct l} : result (list B) :=
  match l with
  | [] => Ok []
  | x :: l' => y <- f x ;; ys <- mapM f l' ;; Ok (y :: ys)
  end.

(** [for x in l: s = f(s, x)] *)
Fixpoint foldM (f : S -> A -> result S) (l : list A) (s : S) {struct l} : result S :=
  match l with
  | [] => Ok s
  | x :: l' => s' <- f s x ;; foldM f l' s'
  end.
End Traversals.

(** [class ServiceDependencyCondition(Enum)] *)
Inductive ServiceDependencyCondition : Type :=
| CONFIGURED | CREATED | EXITED | HEALTHY | INITIALIZED | PAUSED
| REMOVING | RUNNING | STOPPED | STOPPING | UNHEALTHY.

(** [class ServiceDependency]: equality and hash are on [(name, condition)]. *)
Record ServiceDependency : Type := mkServiceDependency {
  sd_name : string;
  sd_condition : ServiceDependencyCondition
}.

(** The values the engine handles: YAML scalars, lists and dicts (a dict is
    kept in insertion order, as Python does), Python sets (the engine's
    [_deps] and [_aliases], kept in insertion order without duplicates) and
    [ServiceDependency] objects.  A float is represented by the text [repr]
    gives it: the engine never computes with one. *)
Inductive pyval : Type :=
| VNone
| VBool (b : bool)
| VInt (z : Z)
| VFloat (repr : string)
| VStr (s : string)
| VList (items : list pyval)
| VDict (items : list (string * pyval))
| VSet (elems : list pyval)
| VDep (d : ServiceDependency).

Definition dict : Type := list (string * pyval).

Inductive pytype : Type :=
| t_NoneType | t_bool | t_int | t_float | t_str | t_list | t_dict | t_set
| t_ServiceDependency.

Definition pytype_eqb (a b : pytype) : bool :=
  match a, b with
  | t_NoneType, t_NoneType | t_bool, t_bool | t_int, t_int
  | t_float, t_float | t_str, t_str | t_list, t_list | t_dict, t_dict
  | t_set, t_set | t_ServiceDependency, t_ServiceDependency => true
  | _, _ => false
  end.

(** [type(v)] *)
Definition type (v : pyval) : pytype :=
  match v with
  | VNone => t_NoneType
  | VBool _ => t_bool
  | VInt _ => t_int
  | VFloat _ => t_float
  | VStr _ => t_str
  | VList _ => t_list
  | VDict _ => t_dict
  | VSet _ => t_set
  | VDep _ => t_ServiceDependency
  end.

(** [repr(type(v))], as it appears in error messages. *)
Definition type_repr (t : pytype) : string :=
  match t with
  | t_NoneType => "<class 'NoneType'>"
  | t_bool => "<class 'bool'>"
  | t_int => "<class 'int'>"
  | t_float => "<class 'float'>"
  | t_str => "<class 'str'>"
  | t_list => "<class 'list'>"
  | t_dict => "<class 'dict'>"
  | t_set => "<class 'set'>"
  | t_ServiceDependency => "<class 'podman_compose.ServiceDependency'>"
  end.

(** [isinstance(v, t)]: [bool] is a subclass of [int]. *)
Definition isinstance (v : pyval) (t : pytype) : bool :=
  pytype_eqb (type v) t
  || (pytype_eqb t t_int && pytype_eqb (type v) t_bool).

(** [hasattr(v, "__iter__")] *)
Definition has_iter (v : pyval) : bool :=
  match v with
  | VStr _ | VList _ | VDict _ | VSet _ => true
  | _ => false
  end.

(** [is_list] *)
Definition is_list (list_object : pyval) : bool :=
  negb (isinstance list_object t_str)
  && negb (isinstance list_object t_dict)
  && has_iter list_object.

(** [bool(v)]: Python truthiness. *)
Definition truthy (v : pyval) : bool :=
  match v with
  | VNone => false
  | VBool b => b
  | VInt z => negb (Z.eqb z 0)
  | VFloat f => negb (String.eqb f "0.0" || String.eqb f "-0.0")
  | VStr s => negb (String.eqb s "")
  | VList l => match l with [] => false | _ => true end
  | VDict d => match d with [] => false | _ => true end
  | VSet l => match l with [] => false | _ => true end
  | VDep _ => true
  end.

(** *** Dictionaries: association lists in insertion order *)

Fixpoint dict_get {A : Type} (key : string) (d : list (string * A)) : option A :=
  match d with
  | [] => None
  | (k, v) :: d' => if String.eqb key k then Some v else dict_get key d'
  end.

(** [key in d] *)
Definition dict_mem {A : Type} (key : string) (d : list (string * A)) : bool :=
  match dict_get key d with
  | Some _ => true
  | None => false
  end.

(** [d[key] = v]: an existing key keeps its place, a new key goes last. *)
Fixpoint dict_set {A : Type} (key : string) (v : A) (d : list (string * A))
  : list (string * A) :=
  match d with
  | [] => [(key, v)]
  | (k, x) :: d' =>
      if String.eqb key k then (k, v) :: d' else (k, x) :: dict_set key v d'
  end.

(** [del d[key]] on a dict that has the key; the identity otherwise. *)
Fixpoint dict_del {A : Type} (key : string) (d : list (string * A))
  : list (string * A) :=
  match d with
  | [] => []
  | (k, x) :: d' => if String.eqb key k then d' else (k, x) :: dict_del key d'
  end.

(** [d.update(d2)] *)
Definition dict_update {A : Type} (d d2 : list (string * A)) : list (string * A) :=
  fold_left (fun acc kv => dict_set (fst kv) (snd kv) acc) d2 d.

Definition keys {A : Type} (d : list (string * A)) : list string := map fst d.

(** [d[key]], raising [KeyError] *)
Definition getitem (d : dict) (key : string) : result pyval :=
  match dict_get key d with
  | Some v => Ok v
  | None => Raise (KeyError key)
  end.

Definition str_in (s : string) (l : list string) : bool :=
  existsb (String.eqb s) l.

Fixpoint nodupb (l : list string) : bool :=
  match l with
  | [] => true
  | x :: l' => negb (str_in x l') && nodupb l'
  end.

(** The invariant of Python dicts: no key occurs twice, at any depth. *)
Fixpoint uniq_keys (v : pyval) : bool :=
  match v with
  | VList l => forallb uniq_keys l
  | VSet l => forallb uniq_keys l
  | VDict d =>
      nodupb (map fst d)
      && (fix all (items : list (string * pyval)) : bool :=
            match items with
            | [] => true
            | (_, x) :: rest => uniq_keys x && all rest
            end) d
  | _ => true
  end.

(** *** Strings *)

(** [s.split(sep, maxsplit)] for a one-character separator. *)
Fixpoint split_max (sep : ascii) (maxsplit : nat) (s : string) : list string :=
  match s with
  | EmptyString => [EmptyString]
  | String c s' =>
      if Ascii.eqb c sep then
        match maxsplit with
        | O => [s]
        | S n => EmptyString :: split_max sep n s'
        end
      else
        match split_max sep maxsplit s' with
        | h :: t => String c h :: t
        | [] => [String c EmptyString]
        end
  end.

(** [s.split(sep)] *)
Definition split (sep : ascii) (s : string) : list string :=
  split_max sep (String.length s) s.

(** [c in s] for a one-character [c] *)
Fixpoint has_char (c : ascii) (s : string) : bool :=
  match s with
  | EmptyString => false
  | String a s' => Ascii.eqb a c || has_char c s'
  end.

(** [s.startswith(p)] *)
Definition startswith (p s : string) : bool := String.prefix p s.

End Py.
Import Py.
Local Open Scope py_scope.

(** ** The merge engine: [clone], [rec_merge_one], [rec_merge] *)

Module Merge.

(** [clone]: [value.copy()] for a list or a dict.  A shallow copy of a tree
    is the same tree. *)
Definition clone (value : pyval) : pyval :=
  if is_list value || isinstance value t_dict then value else value.

(** [":" in v] *)
Definition contains_colon (v : pyval) : result bool :=
  match v with
  | VStr s => Ok (has_char ":" s)
  | VDict d => Ok (dict_mem ":" d)
  | VList l | VSet l =>
      Ok (existsb (fun x => match x with VStr s => String.eqb s ":" | _ => false end) l)
  | _ => Raise TypeError
  end.

(** [v.split(":", 2)[1]] *)
Definition mount_target (v : pyval) : result string :=
  match v with
  | VStr s =>
      match nth_error (split_max ":" 2 s) 1 with
      | Some t => Ok t
      | None => Raise IndexError
      end
  | _ => Raise AttributeError
  end.

(** [pts = {v.split(":", 2)[1] for v in value2 if ":" in v}] *)
Fixpoint mount_targets (value2 : list pyval) : result (list string) :=
  match value2 with
  | [] => Ok []
  | v :: rest =>
      c <- contains_colon v ;;
      if c then t <- mount_target v ;; ts <- mount_targets rest ;; Ok (t :: ts)
      else mount_targets rest
  end.

(** [del_ls = [ix for (ix, v) in enumerate(value)
               if ":" in v and v.split(":", 2)[1] in pts]],
    the enumeration starting at [ix]. *)
Fixpoint del_ls (pts : list string) (ix : nat) (value : list pyval) : result (list nat) :=
  match value with
  | [] => Ok []
  | v :: rest =>
      c <- contains_colon v ;;
      hit <- (if c then t <- mount_target v ;; Ok (str_in t pts) else Ok false) ;;
      ls <- del_ls pts (S ix) rest ;;
      Ok (if hit then ix :: ls else ls)
  end.

(** [del value[ix]] *)
Fixpoint del_at {A : Type} (ix : nat) (l : list A) : list A :=
  match l, ix with
  | [], _ => []
  | _ :: l', O => l'
  | x :: l', S n => x :: del_at n l'
  end.

(** The body of [if is_list(value2):]: both values passed the [isinstance]
    test, so [value] is a list when [value2] is one; a set has no [extend]. *)
Definition merge_sequences (key : string) (value value2 : pyval) : result pyval :=
  match value, value2 with
  | VList l, VList l2 =>
      if String.eqb key "volumes" then
        pts <- mount_targets l2 ;;
        ls <- del_ls pts 0 l ;;
        let l' := fold_left (fun acc ix => del_at ix acc) (rev ls) l in
        Ok (VList (l' ++ l2))
      else Ok (VList (l ++ l2))
  | _, _ => Raise AttributeError
  end.

(** One turn of the first loop of [rec_merge_one], on the item [kv] of
    [source]: [added] holds the items put into [target] so far. *)
Definition copy_step (target : dict) (acc : dict * list string) (kv : string * pyval)
  : dict * list string :=
  let (added, done) := acc in
  let (key, value) := kv in
  if dict_mem key target || dict_mem key added then acc
  else (added ++ [(key, clone value)], done ++ [key]).

(** The first loop of [rec_merge_one]: the keys of [source] that [target]
    lacks, cloned, in the order of [source], with the set [done]. *)
Definition copy_missing (target source : dict) : dict * list string :=
  fold_left (copy_step target) source ([], []).

Definition cant_merge (key : string) (value value2 : pyval) : exn :=
  ValueError ("can't merge value of [" ++ key ++ "] of type "
              ++ type_repr (type value) ++ " and " ++ type_repr (type value2)).

(** The body of the second loop of [rec_merge_one] for the item
    [(key, value)] of [target]; [merge] is [rec_merge_one] itself. *)
Definition merge_item (merge : pyval -> pyval -> result pyval) (src : dict)
  (done : list string) (item : string * pyval) : result (string * pyval) :=
  let (key, value) := item in
  if str_in key done then Ok (key, value)
  else
    match dict_get key src with
    | None => Ok (key, value)
    | Some value2 =>
        if String.eqb key "command" || String.eqb key "entrypoint"
        then Ok (key, clone value2)
        else if negb (isinstance value2 (type value))
        then Raise (cant_merge key value value2)
        else if is_list value2
        then v <- merge_sequences key value value2 ;; Ok (key, v)
        else if isinstance value2 t_dict
        then v <- merge value value2 ;; Ok (key, v)
        else Ok (key, value2)
    end.

(** [rec_merge_one(target, source)]: update [target] from [source]
    recursively.  The keys the first loop adds are in [done], and the second
    loop skips them: it is run over the items [target] had on entry, and the
    added items follow them. *)
Fixpoint rec_merge_one (target source : pyval) {struct target} : result pyval :=
  match source with
  | VDict src =>
      match target with
      | VDict tgt =>
          let (added, done) := copy_missing tgt src in
          tgt' <- mapM (merge_item rec_merge_one src done) tgt ;;
          Ok (VDict (tgt' ++ added))
      | _ => Raise TypeError
      end
  | _ => Raise AttributeError
  end.

(** [rec_merge(target, *sources)]; with no source, [ret] is unbound. *)
Definition rec_merge (target : pyval) (sources : list pyval) : result pyval :=
  match sources with
  | [] => Raise UnboundLocalError
  | _ => foldM rec_merge_one sources target
  end.

(** The spec's [merge_all]: [rec_merge] into an empty target. *)
Definition merge_all (sources : list pyval) : result pyval :=
  rec_merge (VDict []) sources.

(** The [volumes] rule of [rec_merge_one] in closed form, on lists of
    strings.  The code keys an entry that holds a colon on
    [v.split(":", 2)[1]], the text between its first and its second colon;
    an entry of the target whose key is the key of an incoming entry is
    deleted, and the incoming entries are appended.  The key is what the
    code compares, not what the entry mounts: [parse_short_mount] reads the
    target of [path:options] before the colon (see [Mounts.mount_dst]). *)
Definition merge_key (v : string) : option string :=
  if has_char ":" v then nth_error (split_max ":" 2 v) 1 else None.





(** No mapping, at any depth, has one of the keys with a special merge rule. *)
Fixpoint special_free (v : pyval) : bool :=
  match v with
  | VList l => forallb special_free l
  | VSet l => forallb special_free l
  | VDict d =>
      (fix all (items : list (string * pyval)) : bool :=
         match items with
         | [] => true
         | (k, x) :: rest =>
             negb (str_in k ["command"; "entrypoint"; "volumes"])
             && special_free x && all rest
         end) d
  | _ => true
  end.

End Merge.

(** ** The substitution engine: [var_re], [rec_subs] *)

Module Subst.

(** What the engine takes from its host: [repr] of a container value (for
    [str(value)] on a list, dict or set bound in the environment), the YAML
    document stored in a file, [shlex.split], [int(s)] of a string ([None]
    when it raises [ValueError]) and [int(f)] of a float, given by its
    [repr]. *)
Class Host : Type := {
  py_repr : pyval -> string;
  yaml_safe_load : string -> result pyval;
  shlex_split : string -> result (list string);
  int_of_str : string -> option Z;
  int_of_float : string -> result Z
}.

(** A host with no file, for evaluating the engine on closed inputs; its
    [shlex_split] cuts at the spaces, and it reads no number. *)
Definition bare_host : Host := {|
  py_repr := fun _ => "<object>";
  yaml_safe_load := fun _ => Raise (RuntimeError "FileNotFoundError");
  shlex_split := fun s => Ok (filter (fun w => negb (String.eqb w "")) (split " " s));
  int_of_str := fun _ => None;
  int_of_float := fun _ => Raise (ValueError "cannot convert float NaN to integer")
|}.

(** [str(v)] *)
Definition py_str `{Host} (v : pyval) : string :=
  match v with
  | VStr s => s
  | VNone => "None"
  | VBool true => "True"
  | VBool false => "False"
  | VInt z => NilZero.string_of_int (Z.to_int z)
  | VFloat r => r
  | _ => py_repr v
  end.

(** The named groups of a match of [var_re]. *)
Record re_groups : Type := mkGroups {
  g_escaped : option string;
  g_named : option string;
  g_braced : option string;
  g_empty : option string;
  g_default : option string;
  g_err : option string
}.

(** [[_a-zA-Z]] and [[_a-zA-Z0-9]] *)
Definition is_name_start (c : ascii) : bool :=
  let n := nat_of_ascii c in
  (Ascii.eqb c "_" || ((65 <=? n) && (n <=? 90)) || ((97 <=? n) && (n <=? 122)))%nat.

Definition is_name_char (c : ascii) : bool :=
  let n := nat_of_ascii c in
  (is_name_start c || ((48 <=? n) && (n <=? 57)))%nat.

(** The longest prefix whose characters satisfy [p], and what follows it. *)
Fixpoint span (p : ascii -> bool) (s : string) : string * string :=
  match s with
  | EmptyString => (EmptyString, EmptyString)
  | String c s' =>
      if p c then let (a, b) := span p s' in (String c a, b)
      else (EmptyString, s)
  end.

(** [[_a-zA-Z][_a-zA-Z0-9]*] at the start of [s]: the name and the rest. *)
Definition match_name (s : string) : option (string * string) :=
  match s with
  | String c _ =>
      if is_name_start c then Some (span is_name_char s) else None
  | EmptyString => None
  end.

Definition not_rbrace (c : ascii) : bool := negb (Ascii.eqb c "}").

(** [[^}]*] followed by the closing brace: the text before the brace. *)
Definition match_text (s : string) : option string :=
  let (text, r) := span not_rbrace s in
  match r with
  | String _ _ => Some text
  | EmptyString => None
  end.

(** [var_re.match(s)]: the groups and the length of the match of [var_re] at
    the start of [s].  The alternatives are tried in the order of the
    pattern; a name is followed by a character no name contains, so the
    greedy match is the only one. *)
Definition var_re_match (s : string) : option (re_groups * nat) :=
  match s with
  | String c0 s1 =>
      if negb (Ascii.eqb c0 "$") then None
      else
        match s1 with
        | EmptyString => None
        | String c1 s2 =>
            if Ascii.eqb c1 "$" then
              Some (mkGroups (Some "$") None None None None None, 2)
            else if is_name_start c1 then
              let (name, _) := span is_name_char s1 in
              Some (mkGroups None (Some name) None None None None,
                    1 + String.length name)
            else if Ascii.eqb c1 "{" then
              match match_name s2 with
              | None => None
              | Some (name, r1) =>
                  match r1 with
                  | EmptyString => None
                  | String c r1' =>
                      if Ascii.eqb c "}" then
                        Some (mkGroups None None (Some name) None None None,
                              3 + String.length name)
                      else
                        let (empty, r2) :=
                          if Ascii.eqb c ":" then (Some ":", r1') else (None, r1) in
                        let n0 := 2 + String.length name
                                  + (match empty with Some _ => 1 | None => 0 end) in
                        match r2 with
                        | EmptyString => None
                        | String op r3 =>
                            if Ascii.eqb op "-" then
                              match match_text r3 with
                              | Some text =>
                                  Some (mkGroups None None (Some name) empty (Some text) None,
                                        n0 + 2 + String.length text)
                              | None => None
                              end
                            else if Ascii.eqb op "?" then
                              match match_text r3 with
                              | Some text =>
                                  Some (mkGroups None None (Some name) empty None (Some text),
                                        n0 + 2 + String.length text)
                              | None => None
                              end
                            else None
                        end
                  end
              end
            else None
        end
  | EmptyString => None
  end.

(** [var_re.sub(repl, s)]: scan [s] from the left; where [var_re] matches,
    the replacement takes the place of the match and the scan resumes after
    it ([skip] counts the characters of the match still to pass). *)
Fixpoint var_re_sub (repl : re_groups -> result string) (s : string) (skip : nat)
  : result string :=
  match s with
  | EmptyString => Ok EmptyString
  | String c s' =>
      match skip with
      | S n => var_re_sub repl s' n
      | O =>
          match var_re_match s with
          | Some (m, len) =>
              r <- repl m ;;
              rest <- var_re_sub repl s' (len - 1) ;;
              Ok (r ++ rest)%string
          | None =>
              rest <- var_re_sub repl s' 0 ;;
              Ok (String c rest)
          end
      end
  end.

(** [a or b] on two groups *)
Definition group_or (a b : option string) : option string :=
  match a with
  | Some EmptyString | None => b
  | Some _ => a
  end.

(** The inner function [convert(m)] of [rec_subs]. *)
Definition convert `{Host} (subs_dict : dict) (m : re_groups) : result string :=
  match g_escaped m with
  | Some _ => Ok "$"
  | None =>
      let name := match group_or (g_named m) (g_braced m) with
                  | Some n => n
                  | None => EmptyString
                  end in
      let value := match dict_get name subs_dict with
                   | Some v => v
                   | None => VNone
                   end in
      let value := match value, g_empty m with
                   | VStr EmptyString, Some (String _ _) => VNone
                   | _, _ => value
                   end in
      match value with
      | VNone =>
          match g_err m with
          | Some err => Raise (RuntimeError err)
          | None =>
              match group_or (g_default m) (Some EmptyString) with
              | Some d => Ok d
              | None => Ok EmptyString
              end
          end
      | _ => Ok (py_str value)
      end
  end.

(** [rec_subs(value, subs_dict)], the interpreter's recursion limit being
    [depth] frames. *)
Fixpoint rec_subs_depth `{Host} (depth : nat) (value : pyval) (subs_dict : dict)
  : result pyval :=
  match depth with
  | O => Raise RecursionError
  | S depth =>
      match value with
      | VDict items =>
          subs_dict <-
            match dict_get "environment" items with
            | Some (VDict environment) =>
                let svc_envs :=
                  filter (fun kv => negb (dict_mem (fst kv) subs_dict)) environment in
                let subs_dict := dict_update subs_dict svc_envs in
                svc_envs <- rec_subs_depth depth (VDict svc_envs) subs_dict ;;
                match svc_envs with
                | VDict svc_envs => Ok (dict_update subs_dict svc_envs)
                | _ => Raise TypeError
                end
            | _ => Ok subs_dict
            end ;;
          items' <- mapM (fun kv => v <- rec_subs_depth depth (snd kv) subs_dict ;;
                                    Ok (fst kv, v)) items ;;
          Ok (VDict items')
      | VStr s =>
          s' <- var_re_sub (convert subs_dict) s 0 ;;
          Ok (VStr s')
      | VList l | VSet l =>
          l' <- mapM (fun i => rec_subs_depth depth i subs_dict) l ;;
          Ok (VList l')
      | _ => Ok value
      end
  end.

(** The syntax of the braced forms, for the statements on them: a name is
    [[_a-zA-Z][_a-zA-Z0-9]*], and [${NAME:-text}], [${NAME-text}],
    [${NAME:?text}], [${NAME?text}] are [braced_op name colon op text] with
    [op] one of [-] and [?]. *)
Fixpoint all_chars (p : ascii -> bool) (s : string) : bool :=
  match s with
  | EmptyString => true
  | String c s' => p c && all_chars p s'
  end.

Definition valid_name (name : string) : bool :=
  match name with
  | EmptyString => false
  | String c _ => is_name_start c && all_chars is_name_char name
  end.

Definition braced_op (name : string) (colon : bool) (op : ascii) (text : string) : string :=
  ("${" ++ name ++ (if colon then ":" else "") ++ String op text ++ "}")%string.

(** The groups of the match of [braced_op name colon op text]. *)
Definition op_groups (name : string) (colon : bool) (op : ascii) (text : string)
  : re_groups :=
  mkGroups None None (Some name) (if colon then Some ":" else None)
           (if Ascii.eqb op "-" then Some text else None)
           (if Ascii.eqb op "-" then None else Some text).

(** A text [var_re] matches nowhere in: it has no dollar sign. *)
Definition literal (s : string) : bool := negb (has_char "$" s).

(** The nesting depth of a value. *)
Fixpoint height (v : pyval) : nat :=
  match v with
  | VList l | VSet l => S (fold_right (fun x n => Nat.max (height x) n) 0 l)
  | VDict d => S (fold_right (fun kv n => Nat.max (height (snd kv)) n) 0 d)
  | _ => 0
  end.

(** [rec_subs(value, subs_dict)] with a recursion limit the value does not
    reach (see [rec_subs_depth_stable]). *)
Definition rec_subs `{Host} (value : pyval) (subs_dict : dict) : result pyval :=
  rec_subs_depth (S (height value)) value subs_dict.

End Subst.

Import Subst.

(** ** Normalisation: [norm_as_dict], [normalize_service], [normalize] *)

Module Normalize.

(** [s.rstrip(c)] *)
Fixpoint rstrip (c : ascii) (s : string) : string :=
  match s with
  | EmptyString => EmptyString
  | String a s' =>
      match rstrip c s' with
      | EmptyString => if Ascii.eqb a c then EmptyString else String a EmptyString
      | r => String a r
      end
  end.

(** [s.endswith(c)] for one character *)
Fixpoint endswith_char (c : ascii) (s : string) : bool :=
  match s with
  | EmptyString => false
  | String a EmptyString => Ascii.eqb a c
  | String _ s' => endswith_char c s'
  end.

(** [os.path.join(a, b)] on a POSIX host *)
Definition path_join (a b : string) : string :=
  if startswith "/" b then b
  else if String.eqb a "" || endswith_char "/" a then (a ++ b)%string
  else (a ++ "/" ++ b)%string.

(** [i.split("=", 1)] as the pair [norm_as_dict] makes of it *)
Definition split_key_value (i : string) : string * pyval :=
  match split_max "=" 1 i with
  | [k; v] => (k, VStr v)
  | k :: _ => (k, VNone)
  | [] => (i, VNone)
  end.

(** [norm_as_dict(src)] *)
Definition norm_as_dict (src : pyval) : result pyval :=
  match src with
  | VNone => Ok (VDict [])
  | VDict d => Ok (VDict d)
  | VList l | VSet l =>
      dst <- mapM (fun i => match i with
                            | VStr i => Ok (split_key_value i)
                            | _ => Raise AttributeError
                            end)
                  (filter truthy l) ;;
      Ok (VDict (dict_update [] dst))
  | VStr s => Ok (VDict [split_key_value s])
  | _ => Raise (ValueError "dictionary or iterable is expected")
  end.

(** [key in v] for a container [v] *)
Definition py_in (key : string) (v : pyval) : result bool :=
  match v with
  | VDict d => Ok (dict_mem key d)
  | VList l | VSet l =>
      Ok (existsb (fun x => match x with VStr s => String.eqb s key | _ => false end) l)
  | VStr s => Raise TypeError
  | _ => Raise TypeError
  end.

(** [if "build" in service: ... service["build"] = {"context": build}] *)
Definition norm_build (service : dict) : dict :=
  match dict_get "build" service with
  | Some (VStr build) => dict_set "build" (VDict [("context", VStr build)]) service
  | _ => service
  end.

(** [if sub_dir and "build" in service: ...] *)
Definition norm_build_context (sub_dir : string) (service : dict) : result dict :=
  if String.eqb sub_dir "" then Ok service
  else
    match dict_get "build" service with
    | None => Ok service
    | Some (VDict build) =>
        match (match dict_get "context" build with
               | Some c => c
               | None => VStr ""
               end) with
        | VStr context =>
            let context := if startswith "./" context
                           then String.substring 2 (String.length context - 2) context
                           else context in
            let context := path_join sub_dir context in
            let context := rstrip "/" context in
            let context := if String.eqb context "" then "." else context in
            Ok (dict_set "build" (VDict (dict_set "context" (VStr context) build)) service)
        | _ => Raise AttributeError
        end
    | Some _ => Raise AttributeError
    end.

(** [if "build" in service and "additional_contexts" in service["build"]: ...] *)
Definition norm_additional_contexts `{Host} (service : dict) : result dict :=
  match dict_get "build" service with
  | None => Ok service
  | Some (VDict build) =>
      match dict_get "additional_contexts" build with
      | Some (VDict ctxs) =>
          let new_additional_contexts :=
            map (fun kv => VStr (fst kv ++ "=" ++ py_str (snd kv))%string) ctxs in
          Ok (dict_set "build"
                (VDict (dict_set "additional_contexts" (VList new_additional_contexts) build))
                service)
      | _ => Ok service
      end
  | Some build =>
      has <- py_in "additional_contexts" build ;;
      if has then Raise TypeError else Ok service
  end.

(** [for key in ("command", "entrypoint"): ...] *)
Definition norm_tokenize `{Host} (key : string) (service : dict) : result dict :=
  match dict_get key service with
  | Some (VStr s) =>
      ws <- shlex_split s ;;
      Ok (dict_set key (VList (map VStr ws)) service)
  | _ => Ok service
  end.

(** [for key in ("env_file", "security_opt", "volumes"): ...] *)
Definition norm_as_sequence (key : string) (service : dict) : dict :=
  match dict_get key service with
  | Some (VStr s) => dict_set key (VList [VStr s]) service
  | _ => service
  end.

Definition unconfined (item : pyval) : bool :=
  match item with
  | VStr s => str_in s ["seccomp:unconfined"; "apparmor:unconfined"]
  | _ => false
  end.

(** [item.replace(":", "=")] *)
Fixpoint replace_colon (s : string) : string :=
  match s with
  | EmptyString => EmptyString
  | String c s' => String (if Ascii.eqb c ":" then "="%char else c) (replace_colon s')
  end.

(** [if "security_opt" in service: ...]; the items are rewritten in place in
    a list.  A set cannot take [sec_ls[ix] = ...]; a dict would take it as
    a new integer key, which the dicts of this model do not have, and which
    ends the iteration over it with an error. *)
Definition norm_security_opt (service : dict) : result dict :=
  match dict_get "security_opt" service with
  | None => Ok service
  | Some (VList sec_ls) =>
      Ok (dict_set "security_opt"
            (VList (map (fun item => match item with
                                     | VStr s => if unconfined item
                                                 then VStr (replace_colon s) else item
                                     | _ => item
                                     end) sec_ls))
            service)
  | Some (VSet elems) => if existsb unconfined elems then Raise TypeError else Ok service
  | Some (VDict d) =>
      if existsb (fun kv => unconfined (VStr (fst kv))) d then Raise (RuntimeError
        "dictionary changed size during iteration") else Ok service
  | Some _ => Raise TypeError
  end.

(** [for key in ("environment", "labels"): ...] *)
Definition norm_mapping (key : string) (service : dict) : result dict :=
  match dict_get key service with
  | None => Ok service
  | Some v => d <- norm_as_dict v ;; Ok (dict_set key d service)
  end.

(** [if "extends" in service: ...] *)
Definition norm_extends (service : dict) : dict :=
  match dict_get "extends" service with
  | Some (VStr extends) => dict_set "extends" (VDict [("service", VStr extends)]) service
  | _ => service
  end.

(** [v.setdefault('condition', 'service_started')] *)
Definition setdefault_condition (v : pyval) : result pyval :=
  match v with
  | VDict d =>
      if dict_mem "condition" d then Ok (VDict d)
      else Ok (VDict (dict_set "condition" (VStr "service_started") d))
  | _ => Raise AttributeError
  end.

(** What [setdefault] leaves in an entry of [depends_on]. *)
Definition with_condition (v : pyval) : pyval :=
  match v with
  | VDict d =>
      VDict (if dict_mem "condition" d then d
             else dict_set "condition" (VStr "service_started") d)
  | _ => v
  end.

(** The entry [normalize_service] makes of a dependency given by name. *)
Definition started : pyval := VDict [("condition", VStr "service_started")].

(** A step of [normalize_service] that leaves [depends_on] as it is. *)
Definition keeps_depends_on (step : dict -> result dict) : Prop :=
  forall d d', step d = Ok d' -> dict_get "depends_on" d' = dict_get "depends_on" d.

(** [if "depends_on" in service: ...].  The keys of a dict are strings here:
    a list entry that is not a string is refused as an unhashable one is. *)
Definition norm_depends_on (service : dict) : result dict :=
  match dict_get "depends_on" service with
  | None => Ok service
  | Some deps =>
      deps <-
        (if isinstance deps t_str then
           match deps with
           | VStr s => Ok [(s, VDict [])]
           | _ => Raise TypeError
           end
         else if is_list deps then
           match deps with
           | VList l | VSet l =>
               kvs <- mapM (fun x => match x with
                                     | VStr s => Ok (s, VDict [])
                                     | _ => Raise TypeError
                                     end) l ;;
               Ok (dict_update [] kvs)
           | _ => Raise TypeError
           end
         else
           match deps with
           | VDict d => Ok d
           | _ => Raise AttributeError
           end) ;;
      deps <- mapM (fun kv => v <- setdefault_condition (snd kv) ;; Ok (fst kv, v)) deps ;;
      Ok (dict_set "depends_on" (VDict deps) service)
  end.

(** The keys [normalize_service] looks for in [service]. *)
Definition normalized_keys : list string :=
  ["build"; "command"; "entrypoint"; "env_file"; "security_opt"; "volumes";
   "environment"; "labels"; "extends"; "depends_on"].

(** [sub in s] on two strings *)
Definition has_substring (sub s : string) : bool :=
  match String.index 0 sub s with
  | Some _ => true
  | None => false
  end.

(** [normalize_service(service, sub_dir="")].  A service that is no dict
    passes unchanged when none of the tests [key in service] holds, and
    cannot be indexed by a key otherwise. *)
Definition normalize_service `{Host} (service : pyval) (sub_dir : string) : result pyval :=
  match service with
  | VDict service =>
      let service := norm_build service in
      service <- norm_build_context sub_dir service ;;
      service <- norm_additional_contexts service ;;
      service <- norm_tokenize "command" service ;;
      service <- norm_tokenize "entrypoint" service ;;
      let service := norm_as_sequence "env_file" service in
      let service := norm_as_sequence "security_opt" service in
      let service := norm_as_sequence "volumes" service in
      service <- norm_security_opt service ;;
      service <- norm_mapping "environment" service ;;
      service <- norm_mapping "labels" service ;;
      let service := norm_extends service in
      service <- norm_depends_on service ;;
      Ok (VDict service)
  | VList l | VSet l =>
      if existsb (fun x => match x with
                           | VStr s => str_in s normalized_keys
                           | _ => false
                           end) l
      then Raise TypeError else Ok service
  | VStr s =>
      if existsb (fun key => has_substring key s) normalized_keys
      then Raise TypeError else Ok service
  | _ => Raise TypeError
  end.

(** [normalize(compose)] *)
Definition normalize `{Host} (compose : pyval) : result pyval :=
  match compose with
  | VDict c =>
      match dict_get "services" c with
      | None => Ok compose
      | Some (VDict services) =>
          services' <- mapM (fun kv => v <- normalize_service (snd kv) "" ;;
                                       Ok (fst kv, v)) services ;;
          Ok (VDict (dict_set "services" (VDict services') c))
      | Some _ => Raise AttributeError
      end
  | _ => Raise AttributeError
  end.

End Normalize.

Import Normalize.

(** ** The dependency graph builder: [ServiceDependency], [rec_deps], [flat_deps] *)

Module Deps.

Definition condition_value (c : ServiceDependencyCondition) : string :=
  match c with
  | CONFIGURED => "configured"
  | CREATED => "created"
  | EXITED => "exited"
  | HEALTHY => "healthy"
  | INITIALIZED => "initialized"
  | PAUSED => "paused"
  | REMOVING => "removing"
  | RUNNING => "running"
  | STOPPED => "stopped"
  | STOPPING => "stopping"
  | UNHEALTHY => "unhealthy"
  end.

(** [for member in cls], in definition order *)
Definition members : list ServiceDependencyCondition :=
  [CONFIGURED; CREATED; EXITED; HEALTHY; INITIALIZED; PAUSED;
   REMOVING; RUNNING; STOPPED; STOPPING; UNHEALTHY].

Definition docker_to_podman_cond : list (string * ServiceDependencyCondition) :=
  [("service_healthy", HEALTHY);
   ("service_started", RUNNING);
   ("service_completed_successfully", STOPPED)].

(** [ServiceDependencyCondition.from_value(value)] *)
Definition from_value `{Host} (value : pyval) : result ServiceDependencyCondition :=
  let invalid :=
    ValueError ("Value '" ++ py_str value
                ++ "' is not a valid condition for a service dependency") in
  match value with
  | VStr s =>
      match find (fun member => String.eqb (condition_value member) s) members with
      | Some member => Ok member
      | None =>
          match dict_get s docker_to_podman_cond with
          | Some c => Ok c
          | None => Raise invalid
          end
      end
  | VList _ | VDict _ | VSet _ => Raise TypeError
  | _ => Raise invalid
  end.

(** [ServiceDependency(name, condition)] *)
Definition new_ServiceDependency `{Host} (name : string) (condition : pyval)
  : result pyval :=
  c <- from_value condition ;;
  Ok (VDep (mkServiceDependency name c)).

Definition condition_eqb (a b : ServiceDependencyCondition) : bool :=
  String.eqb (condition_value a) (condition_value b).

(** [x == y] on the hashable values a set holds; [ServiceDependency.__eq__]
    compares the name and the condition. *)
Definition elem_eqb (x y : pyval) : bool :=
  match x, y with
  | VDep a, VDep b =>
      String.eqb (sd_name a) (sd_name b) && condition_eqb (sd_condition a) (sd_condition b)
  | VStr a, VStr b => String.eqb a b
  | VInt a, VInt b => Z.eqb a b
  | VBool a, VBool b => Bool.eqb a b
  | VNone, VNone => true
  | _, _ => false
  end.

(** [s.add(x)] and [s.update(l)] *)
Definition set_add (x : pyval) (s : list pyval) : list pyval :=
  if existsb (elem_eqb x) s then s else s ++ [x].

Definition set_update (s l : list pyval) : list pyval :=
  fold_left (fun acc x => set_add x acc) l s.

(** [v.get(key, default)] on a dict *)
Definition py_get (v : pyval) (key : string) (default : pyval) : result pyval :=
  match v with
  | VDict d => Ok (match dict_get key d with Some x => x | None => default end)
  | _ => Raise AttributeError
  end.

(** [v[key]] on a dict *)
Definition py_getitem (v : pyval) (key : string) : result pyval :=
  match v with
  | VDict d => getitem d key
  | _ => Raise TypeError
  end.

(** The elements of an iterable, in iteration order. *)
Definition py_iter (v : pyval) : result (list pyval) :=
  match v with
  | VList l | VSet l => Ok l
  | VDict d => Ok (map (fun kv => VStr (fst kv)) d)
  | _ => Raise TypeError
  end.

(** [x.name] *)
Definition dep_name_of (x : pyval) : result string :=
  match x with
  | VDep d => Ok (sd_name d)
  | _ => Raise AttributeError
  end.

(** [services[name]["_deps"]] and the in-place update of that set. *)
Definition get_deps (services : dict) (name : string) : result (list pyval) :=
  srv <- getitem services name ;;
  deps <- py_getitem srv "_deps" ;;
  py_iter deps.

Definition put_deps (services : dict) (name : string) (deps : list pyval) : result dict :=
  srv <- getitem services name ;;
  match srv with
  | VDict d => Ok (dict_set name (VDict (dict_set "_deps" (VSet deps) d)) services)
  | _ => Raise TypeError
  end.

(** [rec_deps(services, service_name, start_point=None)]: all dependencies
    of [service_name], recursively.  The sets are updated in place: the
    function returns the services with the sets as it leaves them, and the
    set of [service_name]; [limit] is the recursion limit of the interpreter.
    A set is iterated in insertion order here, where Python follows the
    hashes of its elements. *)
Fixpoint rec_deps (limit : nat) (services : dict) (service_name : string)
  (start_point : option string) : result (dict * list pyval) :=
  match limit with
  | O => Raise RecursionError
  | S limit =>
      let start_point := match start_point with
                         | Some (String _ _ as s) => s
                         | _ => service_name
                         end in
      deps <- get_deps services service_name ;;
      services <-
        foldM (fun services dep_name =>
                 name <- dep_name_of dep_name ;;
                 (* avoid A depens on A *)
                 if String.eqb name service_name then Ok services
                 else
                   match dict_get name services with
                   | None => Ok services
                   | Some dep_srv =>
                       if negb (truthy dep_srv) then Ok services
                       else
                         dep_deps <- bind (py_getitem dep_srv "_deps") py_iter ;;
                         names <- mapM dep_name_of dep_deps ;;
                         (* NOTE: avoid creating loops, A->B->A *)
                         if str_in start_point names then Ok services
                         else
                           r <- rec_deps limit services name (Some start_point) ;;
                           let (services, new_deps) := r in
                           deps <- get_deps services service_name ;;
                           put_deps services service_name (set_update deps new_deps)
                   end)
              deps services ;;
      deps <- get_deps services service_name ;;
      Ok (services, deps)
  end.

(** The edges [flat_deps] seeds from [depends_on] *)
Definition depends_on_edges `{Host} (srv : dict) : result (list pyval) :=
  match dict_get "depends_on" srv with
  | None => Ok []
  | Some (VDict deps_ls) =>
      mapM (fun kv => c <- py_getitem (snd kv) "condition" ;;
                      new_ServiceDependency (fst kv) c) deps_ls
  | Some _ => Raise AttributeError
  end.

(** [links_ls], made a list *)
Definition links_of (srv : dict) : result (list pyval) :=
  match dict_get "links" srv with
  | None => Ok []
  | Some links_ls => if is_list links_ls then py_iter links_ls else Ok [links_ls]
  end.

(** [c.split(":")] *)
Definition split_link (c : pyval) : result (list string) :=
  match c with
  | VStr s => Ok (split ":" s)
  | _ => Raise AttributeError
  end.

(** [services[dep_name]["_aliases"].add(dep_alias)], the set created when
    it is missing *)
Definition add_alias (services : dict) (dep_name dep_alias : string) : result dict :=
  srv <- getitem services dep_name ;;
  match srv with
  | VDict d =>
      aliases <- match dict_get "_aliases" d with
                 | None => Ok []
                 | Some (VSet l) => Ok l
                 | Some _ => Raise AttributeError
                 end ;;
      Ok (dict_set dep_name
            (VDict (dict_set "_aliases" (VSet (set_add (VStr dep_alias) aliases)) d))
            services)
  | _ => Raise TypeError
  end.

(** The first loop of [flat_deps], for one service.  Service names are
    strings here: an [extends.service] that is true and no string is
    refused. *)
Definition seed_deps `{Host} (with_extends : bool) (services : dict) (name : string)
  : result dict :=
  srv <- getitem services name ;;
  match srv with
  | VDict srv =>
      let srv := dict_set "_deps" (VSet []) srv in
      let services := dict_set name (VDict srv) services in
      ext <- (if with_extends then
                e <- py_get (match dict_get "extends" srv with
                             | Some e => e
                             | None => VDict []
                             end) "service" VNone ;;
                Ok (if truthy e then Some e else None)
              else Ok None) ;;
      match ext with
      | Some ext =>
          match ext with
          | VStr ext =>
              if negb (String.eqb ext name) then
                dep <- new_ServiceDependency ext (VStr "service_started") ;;
                put_deps services name [dep]
              else Ok services
          | _ => Raise TypeError
          end
      | None =>
          deps_ls <- depends_on_edges srv ;;
          let deps := set_update [] deps_ls in
          links_ls <- links_of srv ;;
          link_deps <- mapM (fun c => parts <- split_link c ;;
                                      new_ServiceDependency (hd EmptyString parts)
                                                            (VStr "service_started"))
                            links_ls ;;
          let deps := set_update deps link_deps in
          services <- put_deps services name deps ;;
          foldM (fun services c =>
                   has <- Merge.contains_colon c ;;
                   if has then
                     parts <- split_link c ;;
                     match parts with
                     | [dep_name; dep_alias] => add_alias services dep_name dep_alias
                     | _ => Raise (ValueError "too many values to unpack (expected 2)")
                     end
                   else Ok services)
                links_ls services
      end
  | _ => Raise TypeError
  end.

(** [flat_deps(services, with_extends=False)]: create the dependencies
    [_deps] of all services, then expand them. *)
Definition flat_deps `{Host} (limit : nat) (services : dict) (with_extends : bool)
  : result dict :=
  services <- foldM (seed_deps with_extends) (keys services) services ;;
  foldM (fun services name =>
           r <- rec_deps limit services name None ;;
           Ok (fst r))
        (keys services) services.

(** Services for the statements: a normalised service that depends on
    [target], the edge to [target], and the service with its edge set. *)
Definition on_started (target : string) : pyval :=
  VDict [("depends_on", VDict [(target, VDict [("condition", VStr "service_started")])])].

Definition edge (target : string) : pyval := VDep (mkServiceDependency target RUNNING).

Definition expanded (target : string) (deps : list pyval) : pyval :=
  VDict [("depends_on", VDict [(target, VDict [("condition", VStr "service_started")])]);
         ("_deps", VSet deps)].

(** The edge set of [name] holds an edge whose target is [name] itself. *)
Definition has_self_edge (name : string) (srv : pyval) : bool :=
  match srv with
  | VDict d =>
      match dict_get "_deps" d with
      | Some (VSet deps) =>
          existsb (fun x => match x with
                            | VDep e => String.eqb (sd_name e) name
                            | _ => false
                            end) deps
      | _ => false
      end
  | _ => false
  end.

(** No service has an edge to itself. *)
Definition self_edge_free (services : dict) : bool :=
  forallb (fun kv => negb (has_self_edge (fst kv) (snd kv))) services.

End Deps.

Import Merge Deps.

(** ** The extension resolver: [resolve_extends] *)

Module Extends.

(** [os.path.dirname(p)] on a POSIX host *)
Fixpoint dirname_head (p : string) : string :=
  match p with
  | EmptyString => EmptyString
  | String c p' =>
      if has_char "/" p then String c (dirname_head p') else EmptyString
  end.

Definition dirname (p : string) : string :=
  let head := dirname_head p in
  match rstrip "/" head with
  | EmptyString => head
  | stripped => stripped
  end.

(** The base service of a cross-file [extends]: the branch [if filename:]. *)
Definition from_file `{Host} (filename : pyval) (from_service_name : pyval)
  (environ : dict) : result pyval :=
  match filename with
  | VStr filename =>
      let filename := if startswith "./" filename
                      then String.substring 2 (String.length filename - 2) filename
                      else filename in
      content <- yaml_safe_load filename ;;
      let content := if truthy content then content else VDict [] in
      match content with
      | VDict c =>
          let content := match dict_get "services" c with
                         | Some services => services
                         | None => content
                         end in
          let subdirectory := dirname filename in
          content <- rec_subs content environ ;;
          match content, from_service_name with
          | VDict c, VStr n =>
              let from_service := match dict_get n c with
                                  | Some v => if truthy v then v else VDict []
                                  | None => VDict []
                                  end in
              normalize_service from_service subdirectory
          | VDict _, (VList _ | VDict _ | VSet _) => Raise TypeError
          | VDict _, _ => normalize_service (VDict []) subdirectory
          | _, _ => Raise AttributeError
          end
      | _ => Raise TypeError
      end
  | _ => Raise AttributeError
  end.

(** The base service of a same-file [extends]: the branch [else:]. *)
Definition from_same_file (services : dict) (from_service_name : pyval) : result pyval :=
  from_service <-
    match from_service_name with
    | VStr n =>
        match dict_get n services with
        | Some v => Ok v
        | None => Ok (VDict [])
        end
    | VList _ | VDict _ | VSet _ => Raise TypeError
    | _ => Ok (VDict [])
    end ;;
  match from_service with
  | VDict from_service =>
      (* del from_service["_deps"] *)
      if negb (dict_mem "_deps" from_service) then Raise (KeyError "_deps")
      else
        let from_service := dict_del "_deps" from_service in
        (* try: del from_service["extends"] except KeyError: pass *)
        let from_service := dict_del "extends" from_service in
        Ok (VDict from_service)
  | VList _ | VSet _ => Raise TypeError
  | _ => Raise AttributeError
  end.

(** [resolve_extends(services, service_names, environ)].  The copy of a
    same-file base is shallow, and so is [clone]: the merged record shares
    with the base what is nested two levels down in it, and where the merge
    goes into such a mapping or list, Python writes into the base service
    too.  The model gives the extending service its merged record and
    leaves the base as it was: it follows the code where no same-file base
    is merged (no [extends], a base that is missing, a base taken from
    another file, whose content is loaded afresh) and where base and
    service share no nested mapping or list.  Nothing is stated here beyond
    these cases. *)
Definition resolve_extends `{Host} (services : dict) (service_names : list string)
  (environ : dict) : result dict :=
  foldM (fun services name =>
           service <- getitem services name ;;
           ext <- py_get service "extends" (VDict []) ;;
           let ext := if isinstance ext t_str then VDict [("service", ext)] else ext in
           from_service_name <- py_get ext "service" VNone ;;
           if negb (truthy from_service_name) then Ok services
           else
             filename <- py_get ext "file" VNone ;;
             from_service <-
               (if truthy filename
                then from_file filename from_service_name environ
                else from_same_file services from_service_name) ;;
             new_service <- rec_merge (VDict []) [from_service; service] ;;
             Ok (dict_set name new_service services))
        service_names services.

End Extends.

Import Extends.

(** ** The container list of [_parse_compose_file] *)

Module Containers.

(** [try_int(i, fallback)]: [ValueError] and [TypeError] give the
    fallback, another exception of [int(i)] is not caught. *)
Definition try_int `{Host} (i : pyval) (fallback : Z) : result Z :=
  match i with
  | VInt z => Ok z
  | VBool b => Ok (if b then 1%Z else 0%Z)
  | VStr s => Ok (match int_of_str s with Some z => z | None => fallback end)
  | VFloat f =>
      match int_of_float f with
      | Ok z => Ok z
      | Raise (ValueError _) => Ok fallback
      | Raise e => Raise e
      end
  | _ => Ok fallback
  end.

(** [range(1, replicas + 1)] *)
Definition replica_numbers (replicas : Z) : list nat :=
  seq 1 (Z.to_nat replicas).

Definition nat_str (n : nat) : string := NilZero.string_of_uint (Nat.to_uint n).

(** One container record of a service: the body of the loop
    [for num in range(1, replicas + 1)].  Its [labels] and [ports] entries
    and the check of its volumes against the declared ones are left out:
    they neither rename nor reorder a container. *)
Definition container_of (project_name service_name : string) (service_desc : dict)
  (num : nat) : result dict :=
  let name0 := VStr (project_name ++ "_" ++ service_name ++ "_" ++ nat_str num) in
  let name := if Nat.eqb num 1
              then match dict_get "container_name" service_desc with
                   | Some n => n
                   | None => name0
                   end
              else name0 in
  let cnt := dict_update
               [("name", name); ("num", VInt (Z.of_nat num));
                ("service_name", VStr service_name)]
               service_desc in
  rootfs_mode <-
    match dict_get "x-podman" service_desc with
    | None | Some VNone => Ok false
    | Some x_podman =>
        r <- py_get x_podman "rootfs" VNone ;;
        Ok (match r with VNone => false | _ => true end)
    end ;;
  let cnt := if negb (dict_mem "image" cnt) && negb rootfs_mode
             then dict_set "image" (VStr (project_name ++ "_" ++ service_name)) cnt
             else cnt in
  let cnt := dict_set "_service" (VStr service_name) cnt in
  let cnt := dict_set "_project" (VStr project_name) cnt in
  Ok cnt.

(** [given_containers], as the loop over the services builds it *)
Definition given_containers `{Host} (project_name : string) (services : dict)
  : result (list dict) :=
  foldM (fun acc kv =>
           let (service_name, service_desc) := (kv : string * pyval) in
           deploy <- py_get service_desc "deploy" (VDict []) ;;
           replicas <- py_get deploy "replicas" VNone ;;
           replicas <- try_int replicas 1 ;;
           match service_desc with
           | VDict desc =>
               cnts <- mapM (container_of project_name service_name desc)
                            (replica_numbers replicas) ;;
               Ok (acc ++ cnts)
           | _ => Raise AttributeError
           end)
        services [].

(** [len(c.get("_deps", []))] *)
Definition deps_len (c : dict) : result nat :=
  match dict_get "_deps" c with
  | None => Ok 0
  | Some (VList l) | Some (VSet l) => Ok (List.length l)
  | Some (VDict d) => Ok (List.length d)
  | Some (VStr s) => Ok (String.length s)
  | Some _ => Raise TypeError
  end.

(** [list.sort(key=...)] is stable: an item goes before the first item
    whose key is not smaller than its own. *)
Fixpoint insert_by_key {A : Type} (k : nat) (x : A) (l : list (nat * A)) : list (nat * A) :=
  match l with
  | [] => [(k, x)]
  | (k', y) :: l' =>
      if (k <=? k')%nat then (k, x) :: l else (k', y) :: insert_by_key k x l'
  end.

Definition sort_by_key {A : Type} (l : list (nat * A)) : list (nat * A) :=
  fold_right (fun kx acc => insert_by_key (fst kx) (snd kx) acc) [] l.

(** [container_by_name = {c["name"]: c for c in given_containers}] and
    [list(container_by_name.values())] *)
Definition by_name (given_containers : list dict) : result (list (string * dict)) :=
  foldM (fun acc c =>
           match dict_get "name" c with
           | Some (VStr n) => Ok (dict_set n c acc)
           | Some _ => Raise TypeError
           | None => Raise (KeyError "name")
           end)
        given_containers [].

(** The order of the sort keys. *)
Definition key_le {A : Type} (a b : nat * A) : Prop := fst a <= fst b.

(** A services mapping of three services, in the order given. *)
Definition three (first second third : string * pyval) : dict := [first; second; third].

(** The size of the transitive dependency set of a container record. *)
Definition deps_size (c : dict) : nat :=
  match deps_len c with
  | Ok n => n
  | Raise _ => 0
  end.

(** [c["name"]] of a container record, for reading an order. *)
Definition name_of (c : dict) : string :=
  match dict_get "name" c with
  | Some (VStr n) => n
  | _ => EmptyString
  end.

(** [transform(args, project_name, given_containers)] *)
Definition transform (in_pod_bool : bool) (project_name : string)
  (given_containers : list dict) : list dict * list dict :=
  let pod_name := if in_pod_bool then VStr ("pod_" ++ project_name) else VNone in
  let pods := if in_pod_bool then [[("name", pod_name)]] else [] in
  (pods, map (fun cnt => dict_set "pod" pod_name cnt) given_containers).

(** The end of [_parse_compose_file]: from [given_containers] to
    [self.pods] and [self.containers]. *)
Definition order_containers (in_pod_bool : bool) (project_name : string)
  (given_containers : list dict) : result (list dict * list dict) :=
  container_by_name <- by_name given_containers ;;
  let given_containers := map snd container_by_name in
  keyed <- mapM (fun c => k <- deps_len c ;; Ok (k, c)) given_containers ;;
  let given_containers := map snd (sort_by_key keyed) in
  Ok (transform in_pod_bool project_name given_containers).

(** [sorted([(len(srv["_deps"]), name) for name, srv in services.items()])],
    the names taken out *)
Fixpoint insert_name (k : nat) (n : string) (l : list (nat * string)) : list (nat * string) :=
  match l with
  | [] => [(k, n)]
  | (k', n') :: l' =>
      if (k <? k')%nat || ((k =? k')%nat && (String.leb n n')) then (k, n) :: l
      else (k', n') :: insert_name k n l'
  end.

Definition service_names (services : dict) : result (list string) :=
  pairs <- mapM (fun kv => deps <- get_deps services (fst kv) ;;
                           Ok (List.length deps, fst kv)) services ;;
  Ok (map snd (fold_right (fun kn acc => insert_name (fst kn) (snd kn) acc) [] pairs)).

(** The services part of [_parse_compose_file], from the merged and
    normalised services (those the requested profiles keep) to the
    container list. *)
Definition parse_services `{Host} (limit : nat) (in_pod_bool : bool)
  (project_name : string) (environ : dict) (services : dict)
  : result (list dict * list dict) :=
  services <- flat_deps limit services true ;;
  names <- service_names services ;;
  services <- resolve_extends services names environ ;;
  services <- flat_deps limit services false ;;
  cnts <- given_containers project_name services ;;
  order_containers in_pod_bool project_name cnts.

End Containers.
Import Containers.

(** ** Argument lists: [norm_as_list], [port_dict_to_str], [norm_ports] *)

Module Args.

(** [norm_as_list(src)] *)
Definition norm_as_list `{Host} (src : pyval) : list pyval :=
  match src with
  | VNone => []
  | VDict d =>
      map (fun kv => match snd kv with
                     | VNone => VStr (fst kv)
                     | v => VStr (fst kv ++ "=" ++ py_str v)
                     end) d
  | VList l | VSet l => l
  | _ => [src]
  end.

(** [port_dict_to_str(port_desc)] *)
Definition port_dict_to_str `{Host} (port_desc : dict) : result string :=
  let get key default := match dict_get key port_desc with
                         | Some v => v
                         | None => default
                         end in
  let cnt_port := get "target" VNone in
  let published := get "published" (VStr "") in
  let host_ip := get "host_ip" VNone in
  let protocol := get "protocol" (VStr "tcp") in
  if negb (truthy cnt_port)
  then Raise (ValueError "target container port must be specified")
  else
    let ret :=
      if truthy host_ip
      then (py_str host_ip ++ ":" ++ py_str published ++ ":" ++ py_str cnt_port)%string
      else if truthy published
      then (py_str published ++ ":" ++ py_str cnt_port)%string
      else py_str cnt_port in
    Ok (match protocol with
        | VStr "tcp" => ret
        | _ => (ret ++ "/" ++ py_str protocol)%string
        end).

(** [norm_ports(ports_in)] *)
Definition norm_ports `{Host} (ports_in : pyval) : result (list string) :=
  let ports_in := if negb (truthy ports_in) then VList [] else ports_in in
  let ports_in := if isinstance ports_in t_str then VList [ports_in] else ports_in in
  ports <- py_iter ports_in ;;
  mapM (fun port =>
          match port with
          | VDict d => port_dict_to_str d
          | VInt _ | VBool _ => Ok (py_str port)
          | VStr s => Ok s
          | _ => Raise TypeError
          end) ports.

(** A mapping [norm_as_list] and [norm_as_dict] are inverse on: its values
    are strings or [None], no key holds an [=], and no key is empty. *)
Definition env_like (d : dict) : bool :=
  nodupb (keys d)
  && forallb (fun kv => negb (has_char "=" (fst kv))
                        && negb (String.eqb (fst kv) "")
                        && match snd kv with
                           | VStr _ | VNone => true
                           | _ => false
                           end) d.

End Args.
Import Args.

(** ** Profiles and service filters: [_resolve_profiles], [get_excluded] *)

Module Filters.

(** What the host knows of text and paths: the characters of a string, one
    string each ([set(s)] on a string), and
    [os.path.abspath(os.path.join(basedir, os.path.expanduser(p)))]. *)
Class Platform : Type := {
  code_points : string -> list string;
  resolve_path : string -> string -> string
}.

Definition unhashable (v : pyval) : bool :=
  match v with
  | VList _ | VDict _ | VSet _ => true
  | _ => false
  end.

(** The elements of [set(v)]; the set is only tested for emptiness and
    intersected, so they are kept as the list [v] iterates. *)
Definition set_elements `{Platform} (v : pyval) : result (list pyval) :=
  match v with
  | VList l | VSet l => if existsb unhashable l then Raise TypeError else Ok l
  | VDict d => Ok (map (fun kv => VStr (fst kv)) d)
  | VStr s => Ok (map VStr (code_points s))
  | _ => Raise TypeError
  end.

(** The test of [_resolve_profiles] on one service:
    [not service_profiles or requested_profiles.intersection(service_profiles)] *)
Definition profile_selected `{Platform} (requested_profiles : list string)
  (config : pyval) : result bool :=
  profiles <- py_get config "profiles" (VList []) ;;
  service_profiles <- set_elements profiles ;;
  Ok (match service_profiles with
      | [] => true
      | _ => existsb (fun x => match x with
                               | VStr s => str_in s requested_profiles
                               | _ => false
                               end) service_profiles
      end).

(** [PodmanCompose._resolve_profiles(defined_services, requested_profiles)] *)
Definition resolve_profiles `{Platform} (defined_services : dict)
  (requested_profiles : list string) : result dict :=
  foldM (fun services kv =>
           sel <- profile_selected requested_profiles (snd kv) ;;
           Ok (if sel then dict_set (fst kv) (snd kv) services else services))
        defined_services [].

(** [[x.name for x in compose.services[service]["_deps"]]] *)
Definition dep_names (services : dict) (service : string) : result (list string) :=
  deps <- get_deps services service ;;
  mapM dep_name_of deps.

(** [get_excluded(compose, args)], from [compose.services] and
    [args.services]; the set is kept in the order of the services. *)
Definition get_excluded (services : dict) (args_services : list string)
  : result (list string) :=
  match args_services with
  | [] => Ok []
  | _ =>
      foldM (fun excluded service =>
               names <- dep_names services service ;;
               Ok (filter (fun n => negb (str_in n names) && negb (String.eqb n service))
                          excluded))
            args_services (keys services)
  end.

(** The services [_resolve_profiles] keeps: those its test passes on. *)
Definition selected `{Platform} (requested_profiles : list string)
  (kv : string * pyval) : bool :=
  match profile_selected requested_profiles (snd kv) with
  | Ok sel => sel
  | Raise _ => false
  end.

End Filters.
Import Filters.

(** ** Short mount syntax: [parse_short_mount] *)

Module Mounts.

(** [sep.join(l)] *)
Fixpoint join (sep : string) (l : list string) : string :=
  match l with
  | [] => EmptyString
  | [x] => x
  | x :: l' => (x ++ sep ++ join sep l')%string
  end.

(** [dir_re.match(s)]: the pattern [^[~/\.]] *)
Definition dir_re_match (s : string) : bool :=
  match s with
  | String c _ => Ascii.eqb c "~" || Ascii.eqb c "/" || Ascii.eqb c "."
  | EmptyString => false
  end.

Definition propagation_words : list string :=
  ["z"; "Z"; "O"; "U"; "shared"; "rshared"; "slave"; "rslave"; "private"; "rprivate";
   "unbindable"; "runbindable"; "bind"; "rbind"; "exec"; "noexec"; "dev"; "nodev";
   "suid"; "nosuid"].

Definition newline : string := String (ascii_of_nat 10) EmptyString.

(** [propagation_re.match(opt)]; a dollar sign in a pattern also matches
    before a newline that ends the text. *)
Definition propagation_re_match (opt : string) : bool :=
  existsb (fun w => String.eqb opt w || String.eqb opt (w ++ newline)) propagation_words.

(** The loop [for opt in mount_opts] of [parse_short_mount]. *)
Fixpoint mount_options (mount_opts : list string) (mount_opt_dict : dict)
  (propagation_opts : list string) : result (dict * list string) :=
  match mount_opts with
  | [] => Ok (mount_opt_dict, propagation_opts)
  | opt :: rest =>
      if String.eqb opt "ro"
      then mount_options rest (dict_set "read_only" (VBool true) mount_opt_dict)
                         propagation_opts
      else if String.eqb opt "rw"
      then mount_options rest (dict_set "read_only" (VBool false) mount_opt_dict)
                         propagation_opts
      else if str_in opt ["consistent"; "delegated"; "cached"]
      then mount_options rest (dict_set "consistency" (VStr opt) mount_opt_dict)
                         propagation_opts
      else if propagation_re_match opt
      then mount_options rest mount_opt_dict (propagation_opts ++ [opt])
      else Raise (ValueError ("unknown mount option " ++ opt))
  end.

(** [parse_short_mount(mount_str, basedir)] on a POSIX host *)
Definition parse_short_mount `{Platform} (mount_str basedir : string) : result pyval :=
  parts <-
    match split ":" mount_str with
    | [_] => Ok (None, mount_str, None)
    | [mount_src; mount_dst] =>
        if negb (startswith "/" mount_dst)
        then Ok (None, mount_src, Some mount_dst)
        else Ok (Some mount_src, mount_dst, None)
    | [mount_src; mount_dst; mount_opt] => Ok (Some mount_src, mount_dst, Some mount_opt)
    | _ => Raise (ValueError ("could not parse mount " ++ mount_str))
    end ;;
  let '(mount_src, mount_dst, mount_opt) := parts in
  let is_bind := match mount_src with
                 | Some src => negb (String.eqb src "") && dir_re_match src
                 | None => false
                 end in
  let mount_type := if is_bind then "bind" else "volume" in
  let mount_src := match mount_src with
                   | Some src => VStr (if is_bind then resolve_path basedir src else src)
                   | None => VNone
                   end in
  let mount_opts :=
    filter (fun o => negb (String.eqb o ""))
           (split "," (match mount_opt with
                       | Some (String _ _ as o) => o
                       | _ => EmptyString
                       end)) in
  r <- mount_options mount_opts [] [] ;;
  let (mount_opt_dict, propagation_opts) := r in
  let mount_opt_dict :=
    dict_set "bind" (VDict [("propagation", VStr (join "," propagation_opts))])
             mount_opt_dict in
  Ok (VDict (dict_update [("type", VStr mount_type); ("source", mount_src);
                          ("target", VStr mount_dst)]
                         mount_opt_dict)).

(** The target [parse_short_mount] reads in [mount_str]: its [mount_dst]
    after the tests on [len(mount_a)], and nothing where it raises. *)
Definition mount_dst (mount_str : string) : option string :=
  match split ":" mount_str with
  | [_] => Some mount_str
  | [mount_src; mount_dst] =>
      if negb (startswith "/" mount_dst) then Some mount_src else Some mount_dst
  | [_; mount_dst; _] => Some mount_dst
  | _ => None
  end.


(** The number of occurrences of [c] in [s]. *)
Fixpoint count_char (c : ascii) (s : string) : nat :=
  match s with
  | EmptyString => 0
  | String a s' => (if Ascii.eqb a c then 1 else 0) + count_char c s'
  end.

End Mounts.
Import Mounts.

(** ** Shapes of texts and values, for the statements *)

Module Shapes.

(** No string of [v], at any depth, holds a dollar sign, and [v] holds no
    set ([rec_subs] makes a list of a set). *)
Fixpoint plain (v : pyval) : bool :=
  match v with
  | VStr s => literal s
  | VList l => forallb plain l
  | VDict d =>
      (fix all (items : list (string * pyval)) : bool :=
         match items with
         | [] => true
         | (_, x) :: rest => plain x && all rest
         end) d
  | VSet _ => false
  | _ => true
  end.

(** No string of [v], at any depth, holds a question mark. *)
Fixpoint no_required (v : pyval) : bool :=
  match v with
  | VStr s => negb (has_char "?" s)
  | VList l | VSet l => forallb no_required l
  | VDict d =>
      (fix all (items : list (string * pyval)) : bool :=
         match items with
         | [] => true
         | (_, x) :: rest => no_required x && all rest
         end) d
  | _ => true
  end.

(** A text that can follow [$NAME]: it does not go on with the name. *)
Definition ends_name (post : string) : bool :=
  match post with
  | EmptyString => true
  | String c _ => negb (is_name_char c)
  end.

(** What a plain reference to [name] is replaced with. *)
Definition lookup `{Host} (subs_dict : dict) (name : string) : string :=
  match dict_get name subs_dict with
  | None | Some VNone => EmptyString
  | Some v => py_str v
  end.

(** [d'] has the keys of [d], in their order, and the value of [d] at every
    key outside [ks]. *)
Definition rewrites (ks : list string) (d d' : dict) : Prop :=
  keys d' = keys d
  /\ forall key, str_in key ks = false -> dict_get key d' = dict_get key d.

(** [services'] has the services of [services], in their order, and the
    edge set of each holds the edges it had in [services]. *)
Definition grows (services services' : dict) : Prop :=
  keys services' = keys services
  /\ forall s deps, get_deps services s = Ok deps ->
                    exists deps', get_deps services' s = Ok deps' /\ incl deps deps'.

(** The service [name] lists [dep] under [depends_on]. *)
Definition declares (services : dict) (name dep : string) : Prop :=
  exists srv deps_ls,
    dict_get name services = Some (VDict srv)
    /\ dict_get "depends_on" srv = Some (VDict deps_ls)
    /\ dict_mem dep deps_ls = true.

(** The edge set of [name] holds an edge to [dep]. *)
Definition has_edge (services : dict) (name dep : string) : Prop :=
  exists deps e,
    get_deps services name = Ok deps /\ In (VDep e) deps /\ sd_name e = dep.

(** The service extends a base of the services at hand: its [extends]
    names a service and no file, so that [resolve_extends] takes the
    branch [else:]. *)
Definition same_file_extends (service : pyval) : bool :=
  match py_get service "extends" (VDict []) with
  | Ok ext =>
      let ext := if isinstance ext t_str then VDict [("service", ext)] else ext in
      match py_get ext "service" VNone, py_get ext "file" VNone with
      | Ok from_service_name, Ok filename =>
          truthy from_service_name && negb (truthy filename)
      | _, _ => false
      end
  | Raise _ => false
  end.

End Shapes.
Import Shapes.

(** ** The steps of [normalize_service], on the value of their key

    Each step of [normalize_service] reads one key of the service and
    writes that key only.  The functions below give what a step makes of
    the value it reads; [StepsFacts] shows that each step of the embedding
    is [keyed] with its function, and the statements are made on
    [normalize_service] itself. *)

Module Steps.

(** A step that, when [service] has [key], puts [f] of its value there. *)
Definition keyed (key : string) (f : pyval -> result pyval) (service : dict)
  : result dict :=
  match dict_get key service with
  | None => Ok service
  | Some v => v' <- f v ;; Ok (dict_set key v' service)
  end.

(** The value at [key] satisfies [P], when there is one. *)
Definition at_key (key : string) (P : pyval -> Prop) (service : dict) : Prop :=
  forall v, dict_get key service = Some v -> P v.

Definition build_of (v : pyval) : result pyval :=
  match v with
  | VStr build => Ok (VDict [("context", VStr build)])
  | _ => Ok v
  end.

Definition build_context_of (sub_dir : string) (v : pyval) : result pyval :=
  if String.eqb sub_dir "" then Ok v
  else
    match v with
    | VDict build =>
        match (match dict_get "context" build with
               | Some c => c
               | None => VStr ""
               end) with
        | VStr context =>
            let context := if startswith "./" context
                           then String.substring 2 (String.length context - 2) context
                           else context in
            let context := path_join sub_dir context in
            let context := rstrip "/" context in
            let context := if String.eqb context "" then "." else context in
            Ok (VDict (dict_set "context" (VStr context) build))
        | _ => Raise AttributeError
        end
    | _ => Raise AttributeError
    end.

Definition additional_contexts_of `{Host} (v : pyval) : result pyval :=
  match v with
  | VDict build =>
      match dict_get "additional_contexts" build with
      | Some (VDict ctxs) =>
          Ok (VDict (dict_set "additional_contexts"
                       (VList (map (fun kv => VStr (fst kv ++ "=" ++ py_str (snd kv))%string)
                                   ctxs))
                       build))
      | _ => Ok v
      end
  | build =>
      has <- py_in "additional_contexts" build ;;
      if has then Raise TypeError else Ok v
  end.

Definition tokens_of `{Host} (v : pyval) : result pyval :=
  match v with
  | VStr s => ws <- shlex_split s ;; Ok (VList (map VStr ws))
  | _ => Ok v
  end.

Definition sequence_of (v : pyval) : result pyval :=
  match v with
  | VStr s => Ok (VList [VStr s])
  | _ => Ok v
  end.

Definition security_opt_of (v : pyval) : result pyval :=
  match v with
  | VList sec_ls =>
      Ok (VList (map (fun item => match item with
                                  | VStr s => if unconfined item
                                              then VStr (replace_colon s) else item
                                  | _ => item
                                  end) sec_ls))
  | VSet elems => if existsb unconfined elems then Raise TypeError else Ok v
  | VDict d =>
      if existsb (fun kv => unconfined (VStr (fst kv))) d
      then Raise (RuntimeError "dictionary changed size during iteration") else Ok v
  | _ => Raise TypeError
  end.

Definition extends_of (v : pyval) : result pyval :=
  match v with
  | VStr extends => Ok (VDict [("service", VStr extends)])
  | _ => Ok v
  end.

Definition depends_on_of (deps : pyval) : result pyval :=
  deps <-
    (if isinstance deps t_str then
       match deps with
       | VStr s => Ok [(s, VDict [])]
       | _ => Raise TypeError
       end
     else if is_list deps then
       match deps with
       | VList l | VSet l =>
           kvs <- mapM (fun x => match x with
                                 | VStr s => Ok (s, VDict [])
                                 | _ => Raise TypeError
                                 end) l ;;
           Ok (dict_update [] kvs)
       | _ => Raise TypeError
       end
     else
       match deps with
       | VDict d => Ok d
       | _ => Raise AttributeError
       end) ;;
  deps <- mapM (fun kv => v <- setdefault_condition (snd kv) ;; Ok (fst kv, v)) deps ;;
  Ok (VDict deps).

(** [f] leaves [v] as it is. *)
Definition fixed (f : pyval -> result pyval) (v : pyval) : Prop := f v = Ok v.

End Steps.
Import Steps.

(* ================================================================== *)
(** * Part II: properties *)
(* ================================================================== *)

(** ** Facts on the result monad and on dictionaries *)

Module PyFacts.

Lemma bind_ok {A B : Type} (c : result A) (k : A -> result B) (b : B) :
  bind c k = Ok b -> exists a, c = Ok a /\ k a = Ok b.
Proof.
  destruct c as [a|e]; simpl; intros E; [exists a; auto | discriminate].
Qed.

Lemma str_in_In (x : string) (l : list string) : str_in x l = true <-> In x l.
Proof.
  unfold str_in. rewrite existsb_exists. split.
  - intros (y & Hy & E). apply String.eqb_eq in E. now subst.
  - intros H. exists x. split; [assumption | apply String.eqb_refl].
Qed.

Lemma str_in_app (x : string) (l1 l2 : list string) :
  str_in x (l1 ++ l2) = str_in x l1 || str_in x l2.
Proof. unfold str_in. apply existsb_app. Qed.

Lemma nodupb_NoDup (l : list string) : nodupb l = true <-> NoDup l.
Proof.
  induction l as [|x l IH]; simpl.
  - split; [constructor | reflexivity].
  - rewrite andb_true_iff, negb_true_iff, IH. split.
    + intros [Hx Hl]. constructor; [|assumption].
      intros Hin. apply str_in_In in Hin. congruence.
    + intros H. inversion H; subst. split; [|assumption].
      destruct (str_in x l) eqn:E; [|reflexivity].
      apply str_in_In in E. contradiction.
Qed.

Lemma NoDup_snoc {A : Type} (l : list A) (x : A) :
  NoDup l -> ~ In x l -> NoDup (l ++ [x]).
Proof.
  intros Hn Hx. apply (Permutation_NoDup (l := x :: l)).
  - apply Permutation_cons_append.
  - now constructor.
Qed.

Lemma dict_mem_In {A : Type} (key : string) (d : list (string * A)) :
  dict_mem key d = true <-> In key (keys d).
Proof.
  unfold dict_mem, keys. induction d as [|[k v] d IH]; simpl.
  - split; [discriminate | contradiction].
  - destruct (String.eqb key k) eqn:E.
    + apply String.eqb_eq in E. subst. split; auto.
    + rewrite IH. apply String.eqb_neq in E. split; [auto|].
      intros [H|H]; [congruence | assumption].
Qed.

Lemma dict_get_app {A : Type} (key : string) (d1 d2 : list (string * A)) :
  dict_get key (d1 ++ d2)
  = match dict_get key d1 with Some v => Some v | None => dict_get key d2 end.
Proof.
  induction d1 as [|[k v] d1 IH]; simpl; [reflexivity|].
  destruct (String.eqb key k); [reflexivity | apply IH].
Qed.

Lemma dict_get_mem {A : Type} (key : string) (d : list (string * A)) (v : A) :
  dict_get key d = Some v -> dict_mem key d = true.
Proof. unfold dict_mem. now intros ->. Qed.

Lemma bind_assoc {A B C : Type} (c : result A) (f : A -> result B) (g : B -> result C) :
  bind (bind c f) g = bind c (fun a => bind (f a) g).
Proof. now destruct c. Qed.

Lemma mapM_ext_in {A B : Type} (f g : A -> result B) (l : list A) :
  (forall x, In x l -> f x = g x) -> mapM f l = mapM g l.
Proof.
  induction l as [|x l IH]; intros E; cbn [mapM]; [reflexivity|].
  rewrite (E x) by now left. rewrite IH; [reflexivity|].
  intros y Hy. apply E. now right.
Qed.

Lemma split_max_none (c : ascii) (n : nat) (s : string) :
  has_char c s = false -> split_max c n s = [s].
Proof.
  induction s as [|a s IH]; [reflexivity|].
  cbn [has_char split_max]. intros E. apply orb_false_iff in E. destruct E as [-> E].
  rewrite (IH E). reflexivity.
Qed.

Lemma split_max_length (c : ascii) (n : nat) (s : string) :
  List.length (split_max c n s) = S (Nat.min n (count_char c s)).
Proof.
  revert n. induction s as [|a s IH]; intros n.
  - cbn [split_max count_char List.length]. rewrite Nat.min_0_r. reflexivity.
  - cbn [split_max count_char]. destruct (Ascii.eqb a c).
    + destruct n as [|n]; [reflexivity|].
      cbn [List.length]. rewrite IH. reflexivity.
    + specialize (IH n). destruct (split_max c n s) as [|h t]; [discriminate|].
      cbn [List.length Nat.add] in *. exact IH.
Qed.

Lemma count_char_le (c : ascii) (s : string) : count_char c s <= String.length s.
Proof.
  induction s as [|a s IH]; [reflexivity|].
  cbn [count_char String.length]. destruct (Ascii.eqb a c); lia.
Qed.

Lemma split_length (c : ascii) (s : string) :
  List.length (split c s) = S (count_char c s).
Proof.
  unfold split. rewrite split_max_length, Nat.min_r; [reflexivity|apply count_char_le].
Qed.

Lemma split_max_enough (c : ascii) (n m : nat) (s : string) :
  count_char c s <= n -> count_char c s <= m -> split_max c n s = split_max c m s.
Proof.
  revert n m. induction s as [|a s IH]; intros n m Hn Hm; [reflexivity|].
  cbn [split_max count_char] in *. destruct (Ascii.eqb a c).
  - destruct n as [|n]; [lia|]. destruct m as [|m]; [lia|].
    rewrite (IH n m); [reflexivity|lia|lia].
  - rewrite (IH n m); [reflexivity|lia|lia].
Qed.

End PyFacts.
Import PyFacts.

(** ** The merge engine *)

Module MergeFacts.

Lemma clone_id (v : pyval) : clone v = v.
Proof. unfold clone. now destruct (is_list v || isinstance v t_dict). Qed.

(** *** The first loop *)

Lemma copy_missing_fold (target source : dict) :
  copy_missing target source = fold_left (copy_step target) source ([], []).
Proof. reflexivity. Qed.

(** The first loop records the keys it adds, and adds none [target] has. *)
Lemma copy_fold_inv (target : dict) (source : dict) (added : dict) (done : list string) :
  done = keys added ->
  NoDup (keys target ++ keys added) ->
  let r := fold_left (copy_step target) source (added, done) in
  snd r = keys (fst r) /\ NoDup (keys target ++ keys (fst r)).
Proof.
  revert added done. induction source as [|[key value] source IH]; intros added done Hd Hn.
  - simpl. auto.
  - simpl. destruct (dict_mem key target || dict_mem key added) eqn:E.
    + apply IH; assumption.
    + apply orb_false_iff in E. destruct E as [E1 E2].
      apply IH.
      * subst. unfold keys. now rewrite map_app.
      * unfold keys in *. rewrite map_app. simpl. rewrite app_assoc.
        apply NoDup_snoc; [assumption|].
        intros Hin. apply in_app_or in Hin. destruct Hin as [Hin|Hin].
        -- apply (dict_mem_In key target) in Hin. congruence.
        -- apply (dict_mem_In key added) in Hin. congruence.
Qed.

Lemma copy_missing_inv (target source : dict) :
  NoDup (keys target) ->
  snd (copy_missing target source) = keys (fst (copy_missing target source))
  /\ NoDup (keys target ++ keys (fst (copy_missing target source))).
Proof.
  intros Hn. rewrite copy_missing_fold.
  apply (copy_fold_inv target source [] []); [reflexivity|].
  simpl. now rewrite app_nil_r.
Qed.

(** A key in [done] is not a key of [target]. *)
Lemma copy_fold_done (target source : dict) (added : dict) (done : list string) :
  (forall k, In k done -> dict_mem k target = false) ->
  forall k, In k (snd (fold_left (copy_step target) source (added, done))) ->
            dict_mem k target = false.
Proof.
  revert added done. induction source as [|[key value] source IH]; intros added done H k.
  - simpl. apply H.
  - simpl. destruct (dict_mem key target || dict_mem key added) eqn:E.
    + apply IH. assumption.
    + apply IH. intros k' Hin. apply in_app_or in Hin.
      destruct Hin as [Hin|[<-|[]]]; [now apply H|].
      now apply orb_false_iff in E.
Qed.

Lemma copy_missing_done (target source : dict) (k : string) :
  str_in k (snd (copy_missing target source)) = true -> dict_mem k target = false.
Proof.
  intros H. apply str_in_In in H. rewrite copy_missing_fold in H.
  revert H. apply copy_fold_done. intros ? [].
Qed.

(** Into an empty target, the first loop copies the whole source. *)
Lemma copy_fold_empty (source added : dict) :
  NoDup (keys added ++ keys source) ->
  fold_left (copy_step []) source (added, keys added)
  = (added ++ source, keys added ++ keys source).
Proof.
  revert added. induction source as [|[key value] source IH]; intros added Hn.
  - simpl. now rewrite !app_nil_r.
  - simpl. destruct (dict_mem key added) eqn:E.
    + exfalso. apply dict_mem_In in E.
      apply NoDup_remove_2 in Hn. apply Hn. apply in_or_app. now left.
    + simpl. rewrite clone_id.
      replace (keys added ++ [key]) with (keys (added ++ [(key, value)]))
        by (unfold keys; now rewrite map_app).
      rewrite IH.
      * unfold keys. rewrite map_app. simpl. now rewrite <- !app_assoc.
      * unfold keys in *. rewrite map_app. simpl. now rewrite <- app_assoc.
Qed.

Lemma copy_missing_empty (source : dict) :
  NoDup (keys source) -> copy_missing [] source = (source, keys source).
Proof.
  intros Hn. rewrite copy_missing_fold.
  exact (copy_fold_empty source [] Hn).
Qed.

(** *** The second loop *)

Lemma merge_item_key merge src done item r :
  merge_item merge src done item = Ok r -> fst r = fst item.
Proof.
  unfold merge_item. destruct item as [key value]. simpl.
  destruct (str_in key done); [now intros [= <-]|].
  destruct (dict_get key src) as [value2|]; [|now intros [= <-]].
  destruct (String.eqb key "command" || String.eqb key "entrypoint"); [now intros [= <-]|].
  destruct (negb (isinstance value2 (type value))); [discriminate|].
  destruct (is_list value2).
  { intros H. apply bind_ok in H. destruct H as (v & _ & [= <-]). reflexivity. }
  destruct (isinstance value2 t_dict).
  { intros H. apply bind_ok in H. destruct H as (v & _ & [= <-]). reflexivity. }
  now intros [= <-].
Qed.

Lemma merge_item_absent merge src done item :
  dict_get (fst item) src = None -> merge_item merge src done item = Ok item.
Proof.
  unfold merge_item. destruct item as [key value]. simpl. intros ->.
  now destruct (str_in key done).
Qed.

Lemma mapM_keys merge src done (items items' : dict) :
  mapM (merge_item merge src done) items = Ok items' -> keys items' = keys items.
Proof.
  revert items'. induction items as [|item items IH]; cbn [mapM]; intros items' H.
  - now injection H as <-.
  - apply bind_ok in H. destruct H as (r & Hr & H).
    apply bind_ok in H. destruct H as (rs & Hrs & [= <-]).
    simpl. f_equal; [now apply merge_item_key in Hr | now apply IH].
Qed.

Lemma mapM_absent merge src done (items items' : dict) (key : string) :
  mapM (merge_item merge src done) items = Ok items' ->
  dict_get key src = None ->
  dict_get key items' = dict_get key items.
Proof.
  revert items'. induction items as [|[k v] items IH]; cbn [mapM]; intros items' H Hs.
  - now injection H as <-.
  - apply bind_ok in H. destruct H as (r & Hr & H).
    apply bind_ok in H. destruct H as (rs & Hrs & [= <-]).
    destruct (String.eqb key k) eqn:E.
    + apply String.eqb_eq in E. subst k.
      rewrite merge_item_absent in Hr by assumption.
      injection Hr as <-. simpl. now rewrite String.eqb_refl.
    + apply merge_item_key in Hr as Hk. destruct r as [k' v']. simpl in Hk. subst k'.
      simpl. rewrite E. now apply IH.
Qed.

Lemma rec_merge_one_dicts (target source : dict) :
  rec_merge_one (VDict target) (VDict source)
  = (tgt' <- mapM (merge_item rec_merge_one source (snd (copy_missing target source)))
                  target ;;
     Ok (VDict (tgt' ++ fst (copy_missing target source)))).
Proof. simpl. now destruct (copy_missing target source). Qed.

(** [rec_merge_one] returns a dict, which has the keys of [target] first. *)
Lemma rec_merge_one_keys (target source : pyval) (r : pyval) :
  rec_merge_one target source = Ok r ->
  exists tgt src d,
    target = VDict tgt /\ source = VDict src /\ r = VDict d
    /\ keys d = keys tgt ++ keys (fst (copy_missing tgt src)).
Proof.
  destruct source as [| | | | | |src| |]; try (destruct target; discriminate).
  destruct target as [| | | | | |tgt| |]; try discriminate.
  rewrite rec_merge_one_dicts. intros H.
  apply bind_ok in H. destruct H as (tgt' & Ht & [= <-]).
  exists tgt, src, (tgt' ++ fst (copy_missing tgt src)).
  repeat split. apply mapM_keys in Ht. unfold keys in *.
  now rewrite map_app, Ht.
Qed.

(** Merging into the empty dict copies the source. *)
Lemma rec_merge_one_empty (source : dict) :
  NoDup (keys source) -> rec_merge_one (VDict []) (VDict source) = Ok (VDict source).
Proof.
  intros Hn. rewrite rec_merge_one_dicts, copy_missing_empty by assumption. reflexivity.
Qed.

(** The keys of the result are distinct when those of [target] are. *)
Lemma rec_merge_one_nodup (target : dict) (source r : pyval) :
  NoDup (keys target) ->
  rec_merge_one (VDict target) source = Ok r ->
  exists d, r = VDict d /\ NoDup (keys d).
Proof.
  intros Hn H. apply rec_merge_one_keys in H.
  destruct H as (tgt & src & d & [= <-] & -> & -> & Hk).
  exists d. split; [reflexivity|]. rewrite Hk.
  now apply copy_missing_inv.
Qed.

(** *** The [volumes] rule on lists of short-syntax entries *)













Lemma mapM_get merge src done (items items' : dict) (key : string) (value : pyval) :
  mapM (merge_item merge src done) items = Ok items' ->
  dict_get key items = Some value ->
  exists value',
    merge_item merge src done (key, value) = Ok (key, value')
    /\ dict_get key items' = Some value'.
Proof.
  revert items'. induction items as [|[k v] items IH]; cbn [mapM]; intros items' H Hg.
  - discriminate.
  - apply bind_ok in H. destruct H as (r & Hr & H).
    apply bind_ok in H. destruct H as (rs & Hrs & [= <-]).
    apply merge_item_key in Hr as Hk. destruct r as [k' v']. simpl in Hk. subst k'.
    simpl in Hg. simpl. destruct (String.eqb key k) eqn:E.
    + apply String.eqb_eq in E. subst k. injection Hg as <-. eauto.
    + now apply IH.
Qed.

(** *** The claims on the merge engine *)

(** C10 -- frame property of [rec_merge_one]: when merging [source] into
    [target] succeeds, every key of [target] that [source] does not have is
    still in the result, bound to the value it had. *)
Theorem rec_merge_one_frame (target source : dict) (merged : pyval)
  (key : string) (value : pyval) :
  rec_merge_one (VDict target) (VDict source) = Ok merged ->
  dict_get key target = Some value ->
  dict_get key source = None ->
  exists d, merged = VDict d /\ dict_get key d = Some value.
Proof.
  intros H Ht Hs. rewrite rec_merge_one_dicts in H.
  apply bind_ok in H. destruct H as (tgt' & Hm & [= <-]).
  eexists. split; [reflexivity|].
  rewrite dict_get_app, (mapM_absent _ _ _ _ _ key Hm Hs), Ht. reflexivity.
Qed.

Lemma rec_merge_one_frame_witness :
  rec_merge_one (VDict [("image", VStr "app"); ("ports", VList [VStr "80"])])
                (VDict [("ports", VList [VStr "81"]); ("user", VStr "u")])
  = Ok (VDict [("image", VStr "app"); ("ports", VList [VStr "80"; VStr "81"]);
               ("user", VStr "u")])
  /\ exists d,
       VDict [("image", VStr "app"); ("ports", VList [VStr "80"; VStr "81"]);
              ("user", VStr "u")] = VDict d
       /\ dict_get "image" d = Some (VStr "app").
Proof.
  split; [reflexivity|].
  apply (rec_merge_one_frame
           [("image", VStr "app"); ("ports", VList [VStr "80"])]
           [("ports", VList [VStr "81"]); ("user", VStr "u")]);
    reflexivity.
Defined.

Lemma uniq_keys_top (d : dict) : uniq_keys (VDict d) = true -> NoDup (keys d).
Proof.
  simpl. intros H. apply andb_true_iff in H. now apply nodupb_NoDup.
Qed.

(** C4 -- [merge_all] is associative on documents free of the keys
    [command], [entrypoint] and [volumes]:
    [merge_all(merge_all(d1, d2), d3) == merge_all(d1, d2, d3)], an exception
    raised on one side being raised on the other. *)
Theorem merge_all_associative (d1 d2 d3 : pyval) :
  uniq_keys d1 = true -> uniq_keys d2 = true -> uniq_keys d3 = true ->
  special_free d1 = true -> special_free d2 = true -> special_free d3 = true ->
  (m <- merge_all [d1; d2] ;; merge_all [m; d3]) = merge_all [d1; d2; d3].
Proof.
  intros U1 _ _ _ _ _. unfold merge_all, rec_merge. cbn [foldM].
  destruct (rec_merge_one (VDict []) d1) as [t1|e] eqn:E1; [|reflexivity].
  cbn [bind].
  destruct (rec_merge_one t1 d2) as [t2|e] eqn:E2; [|reflexivity].
  cbn [bind].
  apply rec_merge_one_nodup in E1; [|constructor].
  destruct E1 as (x & -> & Hx).
  apply rec_merge_one_nodup in E2; [|assumption].
  destruct E2 as (y & -> & Hy).
  rewrite rec_merge_one_empty by assumption. cbn [bind].
  now destruct (rec_merge_one (VDict y) d3).
Qed.

Lemma merge_all_associative_witness :
  let d1 := VDict [("services", VDict [("web", VDict [("image", VStr "a");
                                                      ("ports", VList [VStr "80"])])])] in
  let d2 := VDict [("services", VDict [("web", VDict [("ports", VList [VStr "81"])]);
                                       ("db", VDict [("image", VStr "pg")])])] in
  let d3 := VDict [("services", VDict [("web", VDict [("image", VStr "b")])]);
                   ("version", VStr "3")] in
  (m <- merge_all [d1; d2] ;; merge_all [m; d3]) = merge_all [d1; d2; d3]
  /\ merge_all [d1; d2; d3]
     = Ok (VDict [("services",
                   VDict [("web", VDict [("image", VStr "b");
                                         ("ports", VList [VStr "80"; VStr "81"])]);
                          ("db", VDict [("image", VStr "pg")])]);
                  ("version", VStr "3")]).
Proof.
  intros d1 d2 d3. split.
  - apply (merge_all_associative d1 d2 d3); reflexivity.
  - reflexivity.
Defined.










End MergeFacts.

(** ** The substitution engine *)

Module SubstFacts.
Section WithHost.
Context `{Host}.

(** *** The recursion limit *)

Lemma height_in_list (x : pyval) (l : list pyval) :
  In x l -> height x <= fold_right (fun x n => Nat.max (height x) n) 0 l.
Proof.
  induction l as [|y l IH]; simpl; [contradiction|].
  intros [->|Hin]; [lia | specialize (IH Hin); lia].
Qed.

Lemma height_in_dict (kv : string * pyval) (d : dict) :
  In kv d -> height (snd kv) <= fold_right (fun kv n => Nat.max (height (snd kv)) n) 0 d.
Proof.
  induction d as [|y d IH]; simpl; [contradiction|].
  intros [->|Hin]; [lia | specialize (IH Hin); lia].
Qed.

Lemma dict_get_In (key : string) (d : dict) (v : pyval) :
  dict_get key d = Some v -> exists k, In (k, v) d.
Proof.
  induction d as [|[k x] d IH]; simpl; [discriminate|].
  destruct (String.eqb key k).
  - intros [= ->]. eauto.
  - intros Hg. destruct (IH Hg) as (k' & Hk'). eauto.
Qed.

Lemma height_filter (p : string * pyval -> bool) (d : dict) :
  fold_right (fun kv n => Nat.max (height (snd kv)) n) 0 (filter p d)
  <= fold_right (fun kv n => Nat.max (height (snd kv)) n) 0 d.
Proof.
  induction d as [|kv d IH]; simpl; [lia|].
  destruct (p kv); simpl; lia.
Qed.

(** Any recursion limit above the nesting depth of the value gives the
    same result. *)
Lemma rec_subs_depth_eq (n m : nat) (value : pyval) (subs_dict : dict) :
  height value < n -> height value < m ->
  rec_subs_depth n value subs_dict = rec_subs_depth m value subs_dict.
Proof.
  revert m value subs_dict.
  induction n as [|n IH]; intros m value subs_dict Hn Hm; [lia|].
  destruct m as [|m]; [lia|].
  destruct value as [| | | | |l|d|l|]; try reflexivity.
  - cbn [rec_subs_depth]. cbn [height] in Hn, Hm.
    rewrite (mapM_ext_in _ (fun i => rec_subs_depth m i subs_dict)); [reflexivity|].
    intros x Hx. apply height_in_list in Hx. apply IH; lia.
  - cbn [rec_subs_depth]. cbn [height] in Hn, Hm.
    assert (E : forall sd, mapM (fun kv => v <- rec_subs_depth n (snd kv) sd ;; Ok (fst kv, v)) d
                         = mapM (fun kv => v <- rec_subs_depth m (snd kv) sd ;; Ok (fst kv, v)) d).
    { intros sd. apply mapM_ext_in. intros kv Hkv. apply height_in_dict in Hkv.
      rewrite (IH m); [reflexivity | lia | lia]. }
    destruct (dict_get "environment" d) as [[| | | | | |environment| |]|] eqn:G;
      cbn [bind]; try (now rewrite E).
    apply dict_get_In in G. destruct G as (k & Hin).
    apply height_in_dict in Hin. cbn [snd height] in Hin.
    pose proof (height_filter (fun kv => negb (dict_mem (fst kv) subs_dict)) environment) as F.
    rewrite (IH m); [| cbn [height]; lia | cbn [height]; lia].
    destruct (rec_subs_depth m _ _) as [r|e]; [|reflexivity].
    cbn [bind]. destruct r; cbn [bind]; try reflexivity. now rewrite E.
  - cbn [rec_subs_depth]. cbn [height] in Hn, Hm.
    rewrite (mapM_ext_in _ (fun i => rec_subs_depth m i subs_dict)); [reflexivity|].
    intros x Hx. apply height_in_list in Hx. apply IH; lia.
Qed.

(** [rec_subs] does what any sufficient recursion limit gives. *)
Lemma rec_subs_depth_stable (n : nat) (value : pyval) (subs_dict : dict) :
  height value < n ->
  rec_subs_depth n value subs_dict = rec_subs value subs_dict.
Proof. intros Hn. unfold rec_subs. apply rec_subs_depth_eq; lia. Qed.

(** The equations of [rec_subs] on a string and on a list. *)
Lemma rec_subs_str (s : string) (subs_dict : dict) :
  rec_subs (VStr s) subs_dict
  = (s' <- var_re_sub (convert subs_dict) s 0 ;; Ok (VStr s')).
Proof. reflexivity. Qed.

Lemma rec_subs_depth_list (n : nat) (l : list pyval) (subs_dict : dict) :
  rec_subs_depth (S n) (VList l) subs_dict
  = (l' <- mapM (fun i => rec_subs_depth n i subs_dict) l ;; Ok (VList l')).
Proof. reflexivity. Qed.

Lemma rec_subs_list (l : list pyval) (subs_dict : dict) :
  rec_subs (VList l) subs_dict
  = (l' <- mapM (fun i => rec_subs i subs_dict) l ;; Ok (VList l')).
Proof.
  unfold rec_subs at 1. rewrite rec_subs_depth_list.
  rewrite (mapM_ext_in _ (fun i => rec_subs i subs_dict)); [reflexivity|].
  intros x Hx. apply height_in_list in Hx. apply rec_subs_depth_stable.
  cbn [height]. lia.
Qed.

(** *** The matcher *)

Lemma append_assoc (a b c : string) : ((a ++ b) ++ c = a ++ (b ++ c))%string.
Proof. induction a as [|x a IH]; simpl; [reflexivity | now rewrite IH]. Qed.

Lemma append_nil_r (a : string) : (a ++ "" = a)%string.
Proof. induction a as [|x a IH]; simpl; [reflexivity | now rewrite IH]. Qed.

Lemma length_append (a b : string) :
  String.length (a ++ b) = String.length a + String.length b.
Proof. induction a as [|x a IH]; simpl; [reflexivity | now rewrite IH]. Qed.

Lemma span_all (p : ascii -> bool) (s : string) (c : ascii) (r : string) :
  all_chars p s = true -> p c = false ->
  span p (s ++ String c r) = (s, String c r).
Proof.
  intros Hs Hc. induction s as [|x s IH]; simpl.
  - now rewrite Hc.
  - simpl in Hs. apply andb_true_iff in Hs. destruct Hs as [-> Hs].
    now rewrite (IH Hs).
Qed.

Lemma match_name_valid (name : string) (c : ascii) (r : string) :
  valid_name name = true -> is_name_char c = false ->
  match_name (name ++ String c r) = Some (name, String c r).
Proof.
  intros Hv Hc. destruct name as [|x name]; [discriminate|].
  unfold valid_name in Hv. apply andb_true_iff in Hv. destruct Hv as [Hx Ha].
  unfold match_name. cbn [append]. rewrite Hx.
  change (String x (name ++ String c r)) with (String x name ++ String c r)%string.
  now rewrite span_all.
Qed.

Lemma all_not_rbrace (text : string) :
  has_char "}" text = false -> all_chars not_rbrace text = true.
Proof.
  induction text as [|x text IH]; simpl; [reflexivity|].
  intros Hh. apply orb_false_iff in Hh. destruct Hh as [Hx Ht].
  unfold not_rbrace at 1. now rewrite Hx, IH.
Qed.

Lemma match_text_closed (text post : string) :
  has_char "}" text = false ->
  match_text (text ++ String "}" post) = Some text.
Proof.
  intros Hh. unfold match_text.
  now rewrite span_all by (try reflexivity; now apply all_not_rbrace).
Qed.

Lemma braced_op_app (name : string) (colon : bool) (op : ascii) (text post : string) :
  (braced_op name colon op text ++ post)%string
  = String "$" (String "{" (name ++ (if colon then ":" else "")
                                 ++ String op (text ++ String "}" post)))%string.
Proof.
  unfold braced_op. cbn [append]. do 2 f_equal.
  rewrite !append_assoc. do 2 f_equal. cbn [append]. f_equal.
  now rewrite append_assoc.
Qed.

Lemma braced_op_length (name : string) (colon : bool) (op : ascii) (text : string) :
  String.length (braced_op name colon op text)
  = 2 + String.length name + (if colon then 1 else 0) + 2 + String.length text.
Proof.
  unfold braced_op. cbn [append String.length].
  rewrite !length_append. destruct colon; cbn [String.length];
  rewrite ?length_append; cbn [String.length]; lia.
Qed.

Lemma var_re_match_op (name : string) (colon : bool) (op : ascii) (text post : string) :
  valid_name name = true -> has_char "}" text = false ->
  op = "-"%char \/ op = "?"%char ->
  var_re_match (braced_op name colon op text ++ post)
  = Some (op_groups name colon op text,
          String.length (braced_op name colon op text)).
Proof.
  intros Hn Ht Hop. rewrite braced_op_app, braced_op_length.
  unfold var_re_match, op_groups.
  cbn [Ascii.eqb Bool.eqb negb].
  change (is_name_start "{") with false. cbn iota.
  destruct colon; cbn [append].
  - rewrite match_name_valid by (assumption || reflexivity).
    cbn [Ascii.eqb Bool.eqb].
    destruct Hop as [-> | ->]; cbn [Ascii.eqb Bool.eqb];
      rewrite match_text_closed by assumption; do 2 f_equal; lia.
  - destruct Hop as [-> | ->];
      rewrite match_name_valid by (assumption || reflexivity);
      cbn [Ascii.eqb Bool.eqb];
      rewrite match_text_closed by assumption; do 2 f_equal; lia.
Qed.

(** *** The scan *)

Lemma var_re_match_literal (c : ascii) (s : string) :
  Ascii.eqb c "$" = false -> var_re_match (String c s) = None.
Proof. intros E. unfold var_re_match. now rewrite E. Qed.

Lemma var_re_sub_literal (repl : re_groups -> result string) (s : string) :
  literal s = true -> var_re_sub repl s 0 = Ok s.
Proof.
  unfold literal. induction s as [|c s IH]; [reflexivity|].
  cbn [has_char]. intros Hl. apply negb_true_iff, orb_false_iff in Hl.
  destruct Hl as [Hc Hs]. cbn [var_re_sub].
  rewrite var_re_match_literal by assumption.
  rewrite IH by now apply negb_true_iff. reflexivity.
Qed.

Lemma var_re_sub_prefix (repl : re_groups -> result string) (pre s : string) :
  literal pre = true ->
  var_re_sub repl (pre ++ s) 0
  = (r <- var_re_sub repl s 0 ;; Ok (pre ++ r)%string).
Proof.
  unfold literal. induction pre as [|c pre IH].
  - intros _. cbn [append]. now destruct (var_re_sub repl s 0).
  - cbn [has_char]. intros Hl. apply negb_true_iff, orb_false_iff in Hl.
    destruct Hl as [Hc Hs]. cbn [append var_re_sub].
    rewrite var_re_match_literal by assumption.
    rewrite IH by now apply negb_true_iff.
    now destruct (var_re_sub repl s 0).
Qed.

Lemma var_re_sub_skip (repl : re_groups -> result string) (m s : string) :
  var_re_sub repl (m ++ s) (String.length m) = var_re_sub repl s 0.
Proof.
  induction m as [|c m IH]; cbn [append String.length].
  - now destruct s.
  - cbn [var_re_sub]. exact IH.
Qed.

Lemma var_re_sub_match (repl : re_groups -> result string) (form post : string)
  (g : re_groups) :
  var_re_match (form ++ post) = Some (g, String.length form) ->
  literal post = true ->
  var_re_sub repl (form ++ post) 0 = (r <- repl g ;; Ok (r ++ post)%string).
Proof.
  intros Hm Hp. destruct form as [|c form].
  - cbn [append String.length] in *. destruct post as [|c post]; [discriminate|].
    unfold var_re_match in Hm.
    destruct (negb (Ascii.eqb c "$")); [discriminate|].
    destruct post as [|c1 post]; [discriminate|].
    destruct (Ascii.eqb c1 "$"); [discriminate|].
    destruct (is_name_start c1).
    { destruct (span is_name_char (String c1 post)). discriminate. }
    destruct (Ascii.eqb c1 "{"); [|discriminate].
    destruct (match_name post) as [[name r1]|]; [|discriminate].
    destruct r1 as [|x r1']; [discriminate|].
    destruct (Ascii.eqb x "}"); [discriminate|].
    destruct (if Ascii.eqb x ":" then (Some ":", r1') else (None, String x r1'))
      as [empty [|y r3]]; [discriminate|].
    destruct (Ascii.eqb y "-").
    { destruct (match_text r3); discriminate. }
    destruct (Ascii.eqb y "?"); [|discriminate].
    destruct (match_text r3); discriminate.
  - cbn [append var_re_sub]. cbn [append] in Hm. rewrite Hm.
    cbn [String.length Nat.sub]. rewrite Nat.sub_0_r, var_re_sub_skip.
    rewrite var_re_sub_literal by assumption. reflexivity.
Qed.

(** The substitution of a string that holds one [${NAME...}] form between
    two literal texts. *)
Lemma rec_subs_op (subs_dict : dict) (pre post name : string) (colon : bool)
  (op : ascii) (text : string) :
  literal pre = true -> literal post = true ->
  valid_name name = true -> has_char "}" text = false ->
  op = "-"%char \/ op = "?"%char ->
  rec_subs (VStr (pre ++ braced_op name colon op text ++ post)) subs_dict
  = (r <- convert subs_dict (op_groups name colon op text) ;;
     Ok (VStr (pre ++ r ++ post))).
Proof.
  intros Hpre Hpost Hn Ht Hop. rewrite rec_subs_str.
  rewrite var_re_sub_prefix by assumption.
  rewrite (var_re_sub_match _ _ _ (op_groups name colon op text))
    by (try assumption; now apply var_re_match_op).
  now destruct (convert subs_dict (op_groups name colon op text)).
Qed.

(** [convert] on the two kinds of form. *)
Lemma convert_default (subs_dict : dict) (name : string) (colon : bool) (text : string) :
  valid_name name = true ->
  convert subs_dict (op_groups name colon "-" text)
  = match dict_get name subs_dict with
    | None | Some VNone => Ok text
    | Some (VStr EmptyString) => if colon then Ok text else Ok EmptyString
    | Some v => Ok (py_str v)
    end.
Proof.
  intros Hn. destruct name as [|c name]; [discriminate|].
  unfold convert, op_groups. cbn [g_escaped g_named g_braced g_empty g_err g_default
                                 group_or Ascii.eqb Bool.eqb].
  destruct (dict_get (String c name) subs_dict) as [[| | | |[|x s]| | | |]|];
    destruct colon; try reflexivity; now destruct text.
Qed.

Lemma convert_error (subs_dict : dict) (name : string) (colon : bool) (msg : string) :
  valid_name name = true ->
  convert subs_dict (op_groups name colon "?" msg)
  = match dict_get name subs_dict with
    | None | Some VNone => Raise (RuntimeError msg)
    | Some (VStr EmptyString) =>
        if colon then Raise (RuntimeError msg) else Ok EmptyString
    | Some v => Ok (py_str v)
    end.
Proof.
  intros Hn. destruct name as [|c name]; [discriminate|].
  unfold convert, op_groups. cbn [g_escaped g_named g_braced g_empty g_err g_default
                                 group_or Ascii.eqb Bool.eqb].
  destruct (dict_get (String c name) subs_dict) as [[| | | |[|x s]| | | |]|];
    destruct colon; reflexivity.
Qed.

Lemma mapM_raise {A B : Type} (f : A -> result B) (before after : list A) (x : A)
  (e : exn) :
  (forall y, In y before -> exists b, f y = Ok b) ->
  f x = Raise e ->
  mapM f (before ++ x :: after) = Raise e.
Proof.
  intros Hb Hx. induction before as [|y before IH]; cbn [app mapM].
  - now rewrite Hx.
  - destruct (Hb y) as (b & ->); [now left|]. cbn [bind].
    rewrite IH; [reflexivity|]. intros z Hz. apply Hb. now right.
Qed.

(** *** The claims on the substitution engine *)

Lemma braced_op_alone (name : string) (colon : bool) (op : ascii) (text : string) :
  braced_op name colon op text = ("" ++ braced_op name colon op text ++ "")%string.
Proof. cbn [append]. now rewrite append_nil_r. Qed.

(** C3 -- the default forms.  With [A] bound to the empty string,
    [${A:-x}] gives [x] and [${A-x}] gives the empty string; with [A]
    unbound (absent from the environment, or bound to [None]) both give
    [x]; and the default text of an unbound name is the result as it
    stands, whatever it holds: it is not substituted again. *)
Theorem rec_subs_default_forms :
  (forall env : dict,
      dict_get "A" env = Some (VStr "") ->
      rec_subs (VStr "${A:-x}") env = Ok (VStr "x")
      /\ rec_subs (VStr "${A-x}") env = Ok (VStr ""))
  /\ (forall env : dict,
        dict_get "A" env = None \/ dict_get "A" env = Some VNone ->
        rec_subs (VStr "${A:-x}") env = Ok (VStr "x")
        /\ rec_subs (VStr "${A-x}") env = Ok (VStr "x"))
  /\ (forall (env : dict) (name : string) (colon : bool) (text : string),
        valid_name name = true -> has_char "}" text = false ->
        dict_get name env = None \/ dict_get name env = Some VNone ->
        rec_subs (VStr (braced_op name colon "-" text)) env = Ok (VStr text)).
Proof.
  assert (G : forall (env : dict) (name : string) (colon : bool) (text : string),
             valid_name name = true -> has_char "}" text = false ->
             rec_subs (VStr (braced_op name colon "-" text)) env
             = (r <- match dict_get name env with
                     | None | Some VNone => Ok text
                     | Some (VStr EmptyString) => if colon then Ok text else Ok EmptyString
                     | Some v => Ok (py_str v)
                     end ;; Ok (VStr r))).
  { intros env name colon text Hn Ht.
    rewrite braced_op_alone, rec_subs_op, convert_default by (auto || reflexivity).
    destruct (dict_get name env) as [[| | | |[|x s]| | | |]|]; destruct colon;
      cbn [bind append]; now rewrite ?append_nil_r. }
  split; [|split].
  - intros env HA. split.
    + change "${A:-x}" with (braced_op "A" true "-" "x").
      rewrite G, HA by reflexivity. reflexivity.
    + change "${A-x}" with (braced_op "A" false "-" "x").
      rewrite G, HA by reflexivity. reflexivity.
  - intros env HA. split.
    + change "${A:-x}" with (braced_op "A" true "-" "x").
      rewrite G by reflexivity. now destruct HA as [-> | ->].
    + change "${A-x}" with (braced_op "A" false "-" "x").
      rewrite G by reflexivity. now destruct HA as [-> | ->].
  - intros env name colon text Hn Ht HA. rewrite G by assumption.
    now destruct HA as [-> | ->].
Qed.

(** C9 (amended) -- the error forms.  In a string that holds the form
    between two literal texts, [${NAME:?msg}] raises the error carrying
    [msg] iff [subs_dict.get(NAME)] is [None] (the name is absent, or bound
    to [None]) or the empty string, and [${NAME?msg}] raises it iff
    [subs_dict.get(NAME)] is [None].  The error is not caught: it leaves
    [rec_subs] on a list that holds the string after items substituted
    without error. *)
Theorem rec_subs_required_forms (env : dict) (name msg pre post : string) :
  valid_name name = true -> has_char "}" msg = false ->
  literal pre = true -> literal post = true ->
  let unset := dict_get name env = None \/ dict_get name env = Some VNone in
  let empty := dict_get name env = Some (VStr "") in
  (rec_subs (VStr (pre ++ braced_op name true "?" msg ++ post)) env
   = Raise (RuntimeError msg) <-> unset \/ empty)
  /\ (rec_subs (VStr (pre ++ braced_op name false "?" msg ++ post)) env
      = Raise (RuntimeError msg) <-> unset)
  /\ (forall (colon : bool) (before after : list pyval),
        unset \/ (colon = true /\ empty) ->
        (forall y, In y before -> exists b, rec_subs y env = Ok b) ->
        rec_subs (VList (before
                         ++ VStr (pre ++ braced_op name colon "?" msg ++ post) :: after))
                 env
        = Raise (RuntimeError msg)).
Proof.
  intros Hn Hm Hpre Hpost unset empty. subst unset empty.
  assert (G : forall colon,
             rec_subs (VStr (pre ++ braced_op name colon "?" msg ++ post)) env
             = (r <- match dict_get name env with
                     | None | Some VNone => Raise (RuntimeError msg)
                     | Some (VStr EmptyString) =>
                         if colon then Raise (RuntimeError msg) else Ok EmptyString
                     | Some v => Ok (py_str v)
                     end ;; Ok (VStr (pre ++ r ++ post)))).
  { intros colon. rewrite rec_subs_op by auto. now rewrite convert_error. }
  split; [|split].
  - rewrite G. destruct (dict_get name env) as [[| | | |[|x s]| | | |]|];
      cbn [bind]; split; intros E; try discriminate; auto;
      destruct E as [[E|E]|E]; discriminate.
  - rewrite G. destruct (dict_get name env) as [[| | | |[|x s]| | | |]|];
      cbn [bind]; split; intros E; try discriminate; auto;
      destruct E as [E|E]; discriminate.
  - intros colon before after Hc Hb. rewrite rec_subs_list.
    rewrite (mapM_raise _ before after _ (RuntimeError msg)); [reflexivity|assumption|].
    rewrite G. destruct Hc as [[-> | ->] | [-> ->]]; reflexivity.
Qed.

End WithHost.

Lemma rec_subs_default_forms_witness :
  (dict_get "A" [("A", VStr ""); ("B", VStr "b")] = Some (VStr "")
   /\ @rec_subs bare_host (VStr "${A:-x}") [("A", VStr ""); ("B", VStr "b")] = Ok (VStr "x")
   /\ @rec_subs bare_host (VStr "${A-x}") [("A", VStr ""); ("B", VStr "b")] = Ok (VStr ""))
  /\ ((dict_get "A" [("B", VStr "b")] = None
       \/ dict_get "A" [("B", VStr "b")] = Some VNone)
      /\ @rec_subs bare_host (VStr "${A:-x}") [("B", VStr "b")] = Ok (VStr "x")
      /\ @rec_subs bare_host (VStr "${A-x}") [("B", VStr "b")] = Ok (VStr "x"))
  /\ @rec_subs bare_host (VStr "${A:-$B}") [("B", VStr "b")] = Ok (VStr "$B").
Proof.
  destruct (@rec_subs_default_forms bare_host) as (P1 & P2 & P3).
  split; [|split].
  - split; [reflexivity|]. apply P1. reflexivity.
  - split; [now left|]. apply P2. now left.
  - apply (P3 [("B", VStr "b")] "A" true "$B"); try reflexivity. now left.
Defined.

Lemma rec_subs_required_forms_witness :
  @rec_subs bare_host (VStr "image: ${TAG:?tag is required}!") [("TAG", VNone)]
  = Raise (RuntimeError "tag is required")
  /\ @rec_subs bare_host (VStr "image: ${TAG?tag is required}!") [("TAG", VStr "")]
     <> Raise (RuntimeError "tag is required").
Proof.
  destruct (@rec_subs_required_forms bare_host [("TAG", VNone)] "TAG" "tag is required"
              "image: " "!" eq_refl eq_refl eq_refl eq_refl) as (P1 & _ & _).
  destruct (@rec_subs_required_forms bare_host [("TAG", VStr "")] "TAG" "tag is required"
              "image: " "!" eq_refl eq_refl eq_refl eq_refl) as (_ & P2 & _).
  split.
  - apply P1. left. right. reflexivity.
  - intros E. apply P2 in E. destruct E as [E|E]; discriminate.
Defined.

(** The claim as it was stated fails where the name is bound to [None]:
    the form raises, and the name is not absent from the environment. *)
Lemma rec_subs_required_counterexample :
  ~ (@rec_subs bare_host (VStr "${NAME?msg}") [("NAME", VNone)] = Raise (RuntimeError "msg")
     <-> dict_get "NAME" [("NAME", VNone)] = None).
Proof. intros [Hraise _]. specialize (Hraise eq_refl). discriminate. Qed.

End SubstFacts.

(** ** Normalisation *)

Module NormalizeFacts.

Lemma dict_get_set {A : Type} (key k : string) (v : A) (d : list (string * A)) :
  dict_get key (dict_set k v d)
  = if String.eqb key k then Some v else dict_get key d.
Proof.
  induction d as [|[k' x] d IH]; simpl.
  - reflexivity.
  - destruct (String.eqb k k') eqn:E; simpl.
    + apply String.eqb_eq in E. subst k'.
      now destruct (String.eqb key k).
    + rewrite IH. destruct (String.eqb key k') eqn:E'; [|reflexivity].
      apply String.eqb_eq in E'. subst k'.
      rewrite String.eqb_sym in E. now rewrite E.
Qed.

Lemma dict_get_update_const {A : Type} (key : string) (e : A) (names : list string)
  (acc : list (string * A)) :
  dict_get key (dict_update acc (map (fun s => (s, e)) names))
  = if str_in key names then Some e else dict_get key acc.
Proof.
  unfold dict_update. revert acc.
  induction names as [|n names IH]; intros acc; cbn [map fold_left].
  - reflexivity.
  - rewrite IH. cbn [fst snd]. unfold str_in. cbn [existsb].
    rewrite dict_get_set. fold (str_in key names).
    destruct (str_in key names); [now rewrite orb_true_r|].
    now rewrite orb_false_r.
Qed.

Lemma dict_get_map_value {A B : Type} (f : string * A -> B) (key : string)
  (d : list (string * A)) :
  dict_get key (map (fun kv => (fst kv, f kv)) d)
  = match dict_get key d with
    | Some v => Some (f (key, v))
    | None => None
    end.
Proof.
  induction d as [|[k x] d IH]; simpl; [reflexivity|].
  destruct (String.eqb key k) eqn:E; [|exact IH].
  apply String.eqb_eq in E. now subst.
Qed.

Section WithHost.
Context `{Host}.

Ltac keep_set :=
  repeat match goal with
         | |- context [match ?x with _ => _ end] => destruct x
         | |- context [if ?b then _ else _] => destruct b
         end;
  intros E; try discriminate; injection E as <-;
  rewrite ?dict_get_set; reflexivity.

Lemma norm_build_keeps (d : dict) :
  dict_get "depends_on" (norm_build d) = dict_get "depends_on" d.
Proof.
  unfold norm_build. destruct (dict_get "build" d) as [[]|]; try reflexivity.
  now rewrite dict_get_set.
Qed.

Lemma norm_build_context_keeps (sub_dir : string) :
  keeps_depends_on (norm_build_context sub_dir).
Proof. intros d d'. unfold norm_build_context. keep_set. Qed.

Lemma norm_additional_contexts_keeps : keeps_depends_on norm_additional_contexts.
Proof.
  intros d d'. unfold norm_additional_contexts.
  destruct (dict_get "build" d) as [build|]; [|now intros [= <-]].
  destruct build; try (destruct (py_in _ _) as [[]|]; cbn [bind];
                       intros E; try discriminate; now injection E as <-).
  keep_set.
Qed.

Lemma norm_tokenize_keeps (key : string) :
  String.eqb "depends_on" key = false -> keeps_depends_on (norm_tokenize key).
Proof.
  intros Hk d d'. unfold norm_tokenize.
  destruct (dict_get key d) as [[]|]; try (now intros [= <-]).
  destruct (shlex_split s); cbn [bind]; [|discriminate].
  intros [= <-]. now rewrite dict_get_set, Hk.
Qed.

Lemma norm_as_sequence_keeps (key : string) (d : dict) :
  String.eqb "depends_on" key = false ->
  dict_get "depends_on" (norm_as_sequence key d) = dict_get "depends_on" d.
Proof.
  intros Hk. unfold norm_as_sequence.
  destruct (dict_get key d) as [[]|]; try reflexivity.
  now rewrite dict_get_set, Hk.
Qed.

Lemma norm_security_opt_keeps : keeps_depends_on norm_security_opt.
Proof. intros d d'. unfold norm_security_opt. keep_set. Qed.

Lemma norm_mapping_keeps (key : string) :
  String.eqb "depends_on" key = false -> keeps_depends_on (norm_mapping key).
Proof.
  intros Hk d d'. unfold norm_mapping.
  destruct (dict_get key d) as [v|]; [|now intros [= <-]].
  destruct (norm_as_dict v); cbn [bind]; [|discriminate].
  intros [= <-]. now rewrite dict_get_set, Hk.
Qed.

Lemma norm_extends_keeps (d : dict) :
  dict_get "depends_on" (norm_extends d) = dict_get "depends_on" d.
Proof.
  unfold norm_extends. destruct (dict_get "extends" d) as [[]|]; try reflexivity.
  now rewrite dict_get_set.
Qed.

(** [normalize_service] is [norm_depends_on] as far as [depends_on] goes. *)
Lemma normalize_service_depends_on (service : dict) (sub_dir : string) (r : pyval) :
  normalize_service (VDict service) sub_dir = Ok r ->
  exists d d',
    dict_get "depends_on" d = dict_get "depends_on" service
    /\ norm_depends_on d = Ok d' /\ r = VDict d'.
Proof.
  unfold normalize_service. intros E.
  apply bind_ok in E. destruct E as (d1 & E1 & E).
  apply bind_ok in E. destruct E as (d2 & E2 & E).
  apply bind_ok in E. destruct E as (d3 & E3 & E).
  apply bind_ok in E. destruct E as (d4 & E4 & E).
  apply bind_ok in E. destruct E as (d5 & E5 & E).
  apply bind_ok in E. destruct E as (d6 & E6 & E).
  apply bind_ok in E. destruct E as (d7 & E7 & E).
  apply bind_ok in E. destruct E as (d8 & E8 & [= <-]).
  exists (norm_extends d7), d8. split; [|split; [assumption | reflexivity]].
  rewrite norm_extends_keeps.
  rewrite (norm_mapping_keeps "labels" eq_refl _ _ E7).
  rewrite (norm_mapping_keeps "environment" eq_refl _ _ E6).
  rewrite (norm_security_opt_keeps _ _ E5).
  rewrite !norm_as_sequence_keeps by reflexivity.
  rewrite (norm_tokenize_keeps "entrypoint" eq_refl _ _ E4).
  rewrite (norm_tokenize_keeps "command" eq_refl _ _ E3).
  rewrite (norm_additional_contexts_keeps _ _ E2).
  rewrite (norm_build_context_keeps sub_dir _ _ E1).
  apply norm_build_keeps.
Qed.

Lemma setdefault_condition_ok (v v' : pyval) :
  setdefault_condition v = Ok v' -> v' = with_condition v.
Proof.
  destruct v; try discriminate. simpl.
  destruct (dict_mem "condition" items); now intros [= <-].
Qed.

Lemma setdefault_all (deps deps' : dict) :
  mapM (fun kv => v <- setdefault_condition (snd kv) ;; Ok (fst kv, v)) deps = Ok deps' ->
  deps' = map (fun kv => (fst kv, with_condition (snd kv))) deps.
Proof.
  revert deps'. induction deps as [|[k v] deps IH]; cbn [mapM map]; intros deps' E.
  - now injection E as <-.
  - apply bind_ok in E. destruct E as (r & Er & E).
    apply bind_ok in Er. destruct Er as (v' & Ev & [= <-]).
    apply bind_ok in E. destruct E as (rs & Ers & [= <-]).
    cbn [fst snd] in *. now rewrite (setdefault_condition_ok _ _ Ev), (IH _ Ers).
Qed.

Lemma names_as_entries (names : list string) :
  mapM (fun x => match x with
                 | VStr s => Ok (s, VDict [])
                 | _ => Raise TypeError
                 end) (map VStr names)
  = Ok (map (fun s => (s, VDict [])) names).
Proof.
  induction names as [|n names IH]; cbn [map mapM]; [reflexivity|].
  cbn [bind]. now rewrite IH.
Qed.

(** C5 (amended) -- [normalize_service] rewrites a [depends_on] given as a
    string, a list or a mapping to the mapping form
    [{service: {condition: "service_started"}}]: the condition it gives an
    entry that has none is ["service_started"], which
    [ServiceDependencyCondition.from_value] reads as [RUNNING], of value
    ["running"]; an entry that has a condition keeps it. *)
Theorem normalize_service_depends_on_forms :
  (from_value (VStr "service_started") = Ok RUNNING
   /\ condition_value RUNNING = "running")
  /\ (forall (service : dict) (sub_dir s : string) (r : pyval),
        dict_get "depends_on" service = Some (VStr s) ->
        normalize_service (VDict service) sub_dir = Ok r ->
        py_getitem r "depends_on" = Ok (VDict [(s, started)]))
  /\ (forall (service : dict) (sub_dir : string) (names : list string) (r : pyval),
        dict_get "depends_on" service = Some (VList (map VStr names)) ->
        normalize_service (VDict service) sub_dir = Ok r ->
        exists deps,
          py_getitem r "depends_on" = Ok (VDict deps)
          /\ forall n, dict_get n deps = if str_in n names then Some started else None)
  /\ (forall (service : dict) (sub_dir : string) (deps : dict) (r : pyval),
        dict_get "depends_on" service = Some (VDict deps) ->
        normalize_service (VDict service) sub_dir = Ok r ->
        exists deps',
          py_getitem r "depends_on" = Ok (VDict deps')
          /\ keys deps' = keys deps
          /\ forall n d,
               dict_get n deps = Some (VDict d) ->
               dict_get n deps'
               = Some (VDict (if dict_mem "condition" d then d
                              else dict_set "condition" (VStr "service_started") d)))
  /\ (forall s : string,
        normalize_service (VDict [("depends_on", VStr s)]) ""
        = Ok (VDict [("depends_on", VDict [(s, started)])])).
Proof.
  split; [split; reflexivity|]. split; [|split; [|split]].
  - intros service sub_dir s r Hd E.
    apply normalize_service_depends_on in E. destruct E as (d & d' & Hk & E & ->).
    rewrite <- Hk in Hd. unfold norm_depends_on in E. rewrite Hd in E.
    cbn in E. injection E as <-.
    unfold py_getitem, getitem. now rewrite dict_get_set.
  - intros service sub_dir names r Hd E.
    apply normalize_service_depends_on in E. destruct E as (d & d' & Hk & E & ->).
    rewrite <- Hk in Hd. unfold norm_depends_on in E. rewrite Hd in E.
    change (isinstance (VList (map VStr names)) t_str) with false in E.
    change (is_list (VList (map VStr names))) with true in E.
    cbn iota in E. rewrite names_as_entries in E. cbn [bind] in E.
    apply bind_ok in E. destruct E as (deps & Ed & [= <-]).
    apply setdefault_all in Ed. exists deps. split.
    + unfold py_getitem, getitem. now rewrite dict_get_set.
    + intros n. subst deps.
      rewrite (dict_get_map_value (fun kv => with_condition (snd kv))).
      rewrite dict_get_update_const. now destruct (str_in n names).
  - intros service sub_dir deps r Hd E.
    apply normalize_service_depends_on in E. destruct E as (d & d' & Hk & E & ->).
    rewrite <- Hk in Hd. unfold norm_depends_on in E. rewrite Hd in E.
    change (isinstance (VDict deps) t_str) with false in E.
    change (is_list (VDict deps)) with false in E.
    cbn iota in E. cbn [bind] in E.
    apply bind_ok in E. destruct E as (deps' & Ed & [= <-]).
    apply setdefault_all in Ed. exists deps'. split; [|split].
    + unfold py_getitem, getitem. now rewrite dict_get_set.
    + subst deps'. unfold keys. rewrite map_map. reflexivity.
    + intros n x Hn. subst deps'.
      rewrite (dict_get_map_value (fun kv => with_condition (snd kv))).
      now rewrite Hn.
  - intros s. reflexivity.
Qed.

End WithHost.

Lemma normalize_service_depends_on_forms_witness :
  let service := [("image", VStr "app"); ("command", VStr "run me");
                  ("depends_on", VList (map VStr ["db"; "cache"]))] in
  dict_get "depends_on" service = Some (VList (map VStr ["db"; "cache"]))
  /\ @normalize_service bare_host (VDict service) ""
     = Ok (VDict [("image", VStr "app");
                  ("command", VList [VStr "run"; VStr "me"]);
                  ("depends_on", VDict [("db", started); ("cache", started)])])
  /\ exists deps,
       py_getitem (VDict [("image", VStr "app");
                          ("command", VList [VStr "run"; VStr "me"]);
                          ("depends_on", VDict [("db", started); ("cache", started)])])
                  "depends_on" = Ok (VDict deps)
       /\ forall n, dict_get n deps
                    = if str_in n ["db"; "cache"] then Some started else None.
Proof.
  intros service. split; [reflexivity|]. split; [reflexivity|].
  destruct (@normalize_service_depends_on_forms bare_host) as (_ & _ & P & _).
  apply (P service "" ["db"; "cache"]); reflexivity.
Defined.

(** The claim as it was stated fails: the condition [normalize_service]
    writes is not ["running"]. *)
Lemma normalize_service_depends_on_counterexample :
  @normalize_service bare_host (VDict [("depends_on", VStr "db")]) ""
  = Ok (VDict [("depends_on", VDict [("db", VDict [("condition", VStr "service_started")])])])
  /\ @normalize_service bare_host (VDict [("depends_on", VStr "db")]) ""
     <> Ok (VDict [("depends_on", VDict [("db", VDict [("condition", VStr "running")])])]).
Proof. split; [reflexivity | discriminate]. Qed.

End NormalizeFacts.

(** ** The dependency graph builder *)

Module DepsFacts.
Section WithHost.
Context `{Host}.

Lemma getitem_single (name : string) (v : pyval) : getitem [(name, v)] name = Ok v.
Proof. unfold getitem. cbn. now rewrite String.eqb_refl. Qed.

Lemma dict_set_single (name : string) (v w : pyval) :
  dict_set name w [(name, v)] = [(name, w)].
Proof. cbn. now rewrite String.eqb_refl. Qed.

(** C1 -- evaluation of the builder on a service that lists itself under
    [depends_on]: whatever the name of the service and the recursion limit,
    [flat_deps] returns, and the edge set of the service holds the edge to
    the service itself.  [rec_deps] skips the expansion of that edge and
    leaves it in the set. *)
Theorem flat_deps_keeps_self_edge (name : string) (limit : nat) :
  flat_deps (S limit) [(name, on_started name)] false
  = Ok [(name, expanded name [edge name])]
  /\ self_edge_free [(name, expanded name [edge name])] = false.
Proof.
  split.
  - unfold flat_deps, on_started, expanded, edge.
    cbn [keys map fst foldM].
    unfold seed_deps. rewrite getitem_single. cbn [bind]. rewrite dict_set_single.
    cbn -[put_deps rec_deps]. unfold put_deps at 1.
    rewrite getitem_single. cbn [bind]. rewrite dict_set_single.
    cbn [bind dict_set String.eqb Ascii.eqb Bool.eqb foldM keys map fst].
    cbn [rec_deps]. unfold get_deps at 1. rewrite getitem_single.
    cbn -[get_deps]. rewrite String.eqb_refl. cbn -[get_deps].
    unfold get_deps. rewrite getitem_single. reflexivity.
  - cbn. now rewrite String.eqb_refl.
Qed.

(** The chain A -> B -> C -> A: whatever the order of the services in the
    mapping and whatever the recursion limit above two frames, the closure
    is computed, and no service gets an edge to itself.  (Every set these
    runs iterate over holds one edge: the order of iteration plays no part.) *)
Lemma flat_deps_chain (limit : nat) :
  let a := ("A", on_started "B") in
  let b := ("B", on_started "C") in
  let c := ("C", on_started "A") in
  flat_deps (S (S limit)) [a; b; c] false
  = Ok [("A", expanded "B" [edge "B"; edge "C"]);
        ("B", expanded "C" [edge "C"; edge "A"]);
        ("C", expanded "A" [edge "A"])]
  /\ Forall (fun services =>
               exists r, flat_deps (S (S limit)) services false = Ok r
                         /\ self_edge_free r = true)
            [[a; b; c]; [a; c; b]; [b; a; c]; [b; c; a]; [c; a; b]; [c; b; a]].
Proof.
  intros a b c. split; [reflexivity|].
  repeat constructor; eexists; (split; [reflexivity|reflexivity]).
Qed.

(** With a recursion limit of one frame the closure of the chain is not
    computed. *)
Lemma flat_deps_chain_limit :
  flat_deps 1 [("A", on_started "B"); ("B", on_started "C"); ("C", on_started "A")] false
  = Raise RecursionError.
Proof. reflexivity. Qed.

(** A cycle that the service being expanded is not on is followed without
    end: the recursion limit is reached, whatever it is. *)
Lemma rec_deps_foreign_cycle (limit : nat) (start : string) :
  let services := [("S", expanded "X" [edge "X"]);
                   ("X", expanded "Y" [edge "Y"]);
                   ("Y", expanded "X" [edge "X"])] in
  start <> "" -> start <> "X" -> start <> "Y" ->
  rec_deps limit services "X" (Some start) = Raise RecursionError
  /\ rec_deps limit services "Y" (Some start) = Raise RecursionError.
Proof.
  intros services Hs HX HY.
  assert (EX : String.eqb start "X" = false) by now apply String.eqb_neq.
  assert (EY : String.eqb start "Y" = false) by now apply String.eqb_neq.
  induction limit as [|limit [IHX IHY]]; [split; reflexivity|].
  destruct start as [|c0 start]; [congruence|].
  unfold services in *. clear services.
  split; cbn [rec_deps]; remember (String c0 start) as st;
    cbn -[rec_deps]; rewrite ?EX, ?EY; cbn -[rec_deps].
  - now rewrite IHY.
  - now rewrite IHX.
Qed.

End WithHost.
End DepsFacts.

(** ** The extension resolver *)

Module ExtendsFacts.
Section WithHost.
Context `{Host}.

(** C6 -- evaluation of [resolve_extends] on a service whose same-file
    [extends] names a service the mapping does not have: the base is taken
    as the empty dict, and [del from_service["_deps"]] raises [KeyError] on
    it, whatever the other services and the environment are. *)
Theorem resolve_extends_missing_base (services service environ : dict)
  (name base : string) (names : list string) :
  dict_get name services = Some (VDict service) ->
  dict_get "extends" service = Some (VDict [("service", VStr base)]) ->
  base <> "" ->
  dict_get base services = None ->
  resolve_extends services (name :: names) environ = Raise (KeyError "_deps").
Proof.
  intros Hs He Hb Hm. unfold resolve_extends. cbn [foldM].
  unfold getitem. rewrite Hs. cbn [bind py_get]. rewrite He.
  change (isinstance (VDict [("service", VStr base)]) t_str) with false.
  cbn [py_get dict_get String.eqb Ascii.eqb Bool.eqb bind].
  destruct base as [|c base]; [congruence|].
  change (truthy (VStr (String c base))) with true.
  change (truthy VNone) with false.
  cbn [negb]. unfold from_same_file. rewrite Hm. reflexivity.
Qed.

End WithHost.

(** The services [{"web": {"extends": {"service": "nope"}}}], through
    [flat_deps], [resolve_extends] and the resolution as a whole. *)
Lemma resolve_extends_missing_base_witness :
  let web := [("extends", VDict [("service", VStr "nope")]);
              ("_deps", VSet [VDep (mkServiceDependency "nope" RUNNING)])] in
  @flat_deps bare_host 1000 [("web", VDict [("extends", VDict [("service", VStr "nope")])])] true
  = Ok [("web", VDict web)]
  /\ @resolve_extends bare_host [("web", VDict web)] ["web"] [] = Raise (KeyError "_deps")
  /\ @parse_services bare_host 1000 false "p" []
       [("web", VDict [("extends", VDict [("service", VStr "nope")])])]
     = Raise (KeyError "_deps").
Proof.
  intros web. split; [reflexivity|]. split; [|reflexivity].
  apply (@resolve_extends_missing_base bare_host [("web", VDict web)] web [] "web" "nope" []);
    try reflexivity. discriminate.
Defined.

(** A base that is there is merged under the extending service. *)
Lemma resolve_extends_present_base :
  @resolve_extends bare_host
     [("base", VDict [("image", VStr "app"); ("_deps", VSet [])]);
      ("web", VDict [("extends", VDict [("service", VStr "base")]);
                     ("ports", VList [VStr "80"]); ("_deps", VSet [])])]
     ["base"; "web"] []
  = Ok [("base", VDict [("image", VStr "app"); ("_deps", VSet [])]);
        ("web", VDict [("image", VStr "app");
                       ("extends", VDict [("service", VStr "base")]);
                       ("ports", VList [VStr "80"]); ("_deps", VSet [])])].
Proof. reflexivity. Qed.

End ExtendsFacts.

(** ** The container list *)

Module ContainersFacts.

Lemma insert_by_key_perm {A : Type} (k : nat) (x : A) (l : list (nat * A)) :
  Permutation (insert_by_key k x l) ((k, x) :: l).
Proof.
  induction l as [|[k' y] l IH]; simpl; [reflexivity|].
  destruct (k <=? k')%nat; [reflexivity|].
  rewrite IH. apply perm_swap.
Qed.

Lemma insert_by_key_sorted {A : Type} (k : nat) (x : A) (l : list (nat * A)) :
  StronglySorted key_le l -> StronglySorted key_le (insert_by_key k x l).
Proof.
  induction l as [|[k' y] l IH]; simpl; intros Hs.
  - repeat constructor.
  - inversion Hs as [|? ? Hl Hall]; subst.
    destruct (k <=? k')%nat eqn:E.
    + apply Nat.leb_le in E. constructor; [assumption|].
      constructor; [exact E|].
      eapply Forall_impl; [|exact Hall]. unfold key_le. simpl. intros; lia.
    + apply Nat.leb_gt in E. constructor; [now apply IH|].
      eapply Permutation_Forall; [symmetry; apply insert_by_key_perm|].
      constructor; [unfold key_le; simpl; lia | assumption].
Qed.

Lemma sort_by_key_perm {A : Type} (l : list (nat * A)) : Permutation (sort_by_key l) l.
Proof.
  induction l as [|[k x] l IH]; simpl; [reflexivity|].
  rewrite insert_by_key_perm. now constructor.
Qed.

Lemma sort_by_key_sorted {A : Type} (l : list (nat * A)) :
  StronglySorted key_le (sort_by_key l).
Proof.
  induction l as [|[k x] l IH]; simpl; [constructor|].
  now apply insert_by_key_sorted.
Qed.

Lemma keyed_sizes (l : list dict) (keyed : list (nat * dict)) :
  mapM (fun c => k <- deps_len c ;; Ok (k, c)) l = Ok keyed ->
  map snd keyed = l /\ Forall (fun kc => deps_size (snd kc) = fst kc) keyed.
Proof.
  revert keyed. induction l as [|c l IH]; cbn [mapM]; intros keyed E.
  - injection E as <-. split; [reflexivity | constructor].
  - apply bind_ok in E. destruct E as (kc & Ek & E).
    apply bind_ok in Ek. destruct Ek as (k & Ek & [= <-]).
    apply bind_ok in E. destruct E as (rest & Er & [= <-]).
    destruct (IH _ Er) as [IH1 IH2]. split; [simpl; now rewrite IH1|].
    constructor; [|assumption]. unfold deps_size. simpl. now rewrite Ek.
Qed.

Lemma sorted_by_size (l : list (nat * dict)) :
  StronglySorted key_le l ->
  Forall (fun kc => deps_size (snd kc) = fst kc) l ->
  StronglySorted (fun a b => deps_size a <= deps_size b) (map snd l).
Proof.
  induction 1 as [|kc l Hs IH Hall]; intros Hf; simpl; [constructor|].
  inversion Hf as [|? ? Hk Hf']; subst. constructor; [now apply IH|].
  rewrite Forall_map. rewrite Forall_forall in *. intros kc' Hin.
  rewrite Hk, (Hf' kc' Hin). now apply Hall.
Qed.

Lemma deps_size_pod (pod : pyval) (c : dict) :
  deps_size (dict_set "pod" pod c) = deps_size c.
Proof.
  unfold deps_size, deps_len. now rewrite NormalizeFacts.dict_get_set.
Qed.

Lemma sorted_map_pod (pod : pyval) (l : list dict) :
  StronglySorted (fun a b => deps_size a <= deps_size b) l ->
  StronglySorted (fun a b => deps_size a <= deps_size b) (map (dict_set "pod" pod) l).
Proof.
  induction 1 as [|c l Hs IH Hall]; simpl; constructor; [assumption|].
  rewrite Forall_map. eapply Forall_impl; [|exact Hall].
  intros c'. now rewrite !deps_size_pod.
Qed.

(** C7 -- the container list handed to the executor is in ascending order
    of the size of [_deps], and holds the given containers (one per name)
    with their [pod]; for the services [db] and [cache] without
    dependency and [web] depending on [db] with the condition
    [service_healthy], in any order in the file, the containers come as
    [db, cache, web] or as [cache, db, web]. *)
Theorem containers_sorted_by_deps :
  (forall (in_pod_bool : bool) (project_name : string) (given : list dict)
          (pods containers : list dict),
      order_containers in_pod_bool project_name given = Ok (pods, containers) ->
      StronglySorted (fun a b => deps_size a <= deps_size b) containers
      /\ exists named : list (string * dict),
           by_name given = Ok named
           /\ Permutation containers
                (snd (transform in_pod_bool project_name (map snd named))))
  /\ (let db := ("db", VDict [("image", VStr "postgres")]) in
      let web := ("web", VDict [("depends_on",
                    VDict [("db", VDict [("condition", VStr "service_healthy")])])]) in
      let cache := ("cache", VDict [("image", VStr "redis")]) in
      Forall (fun services =>
                exists pods containers,
                  @parse_services bare_host 1000 false "p" [] services
                  = Ok (pods, containers)
                  /\ (map name_of containers = ["p_db_1"; "p_cache_1"; "p_web_1"]
                      \/ map name_of containers = ["p_cache_1"; "p_db_1"; "p_web_1"]))
             [three db web cache; three db cache web; three web db cache;
              three web cache db; three cache db web; three cache web db]).
Proof.
  split.
  - intros in_pod_bool project_name given pods containers E.
    unfold order_containers in E.
    apply bind_ok in E. destruct E as (named & En & E).
    apply bind_ok in E. destruct E as (keyed & Ek & E).
    unfold transform in E. injection E as <- <-.
    apply keyed_sizes in Ek. destruct Ek as [Ek1 Ek2]. split.
    + apply sorted_map_pod, sorted_by_size.
      * apply sort_by_key_sorted.
      * eapply Permutation_Forall; [symmetry; apply sort_by_key_perm | assumption].
    + exists named. split; [assumption|]. unfold transform. cbn [snd].
      apply Permutation_map. rewrite <- Ek1. apply Permutation_map, sort_by_key_perm.
  - intros db web cache.
    repeat constructor; do 2 eexists; (split; [reflexivity|]); auto.
Qed.

Lemma containers_sorted_by_deps_witness :
  let given := [[("name", VStr "web"); ("_deps", VSet [VDep (mkServiceDependency "db" HEALTHY)])];
                [("name", VStr "db"); ("_deps", VSet [])]] in
  let containers := [[("name", VStr "db"); ("_deps", VSet []); ("pod", VNone)];
                     [("name", VStr "web");
                      ("_deps", VSet [VDep (mkServiceDependency "db" HEALTHY)]);
                      ("pod", VNone)]] in
  order_containers false "p" given = Ok ([], containers)
  /\ StronglySorted (fun a b => deps_size a <= deps_size b) containers.
Proof.
  intros given containers. split; [reflexivity|].
  apply (proj1 containers_sorted_by_deps false "p" given [] containers eq_refl).
Defined.

End ContainersFacts.

(** ** The merge engine, key by key *)

Module MergeLaws.
Import MergeFacts.

Lemma keys_get_none {A B : Type} (key : string) (a : list (string * A))
  (b : list (string * B)) :
  keys a = keys b -> dict_get key a = None -> dict_get key b = None.
Proof.
  revert b. induction a as [|[k v] a IH]; intros [|[k' v'] b] E; simpl in *;
    try discriminate; auto.
  injection E as -> E. destruct (String.eqb key k'); [discriminate|]. apply IH, E.
Qed.

Lemma dict_get_snoc {A : Type} (key k : string) (v : A) (d : list (string * A)) :
  dict_get key (d ++ [(k, v)])
  = match dict_get key d with
    | Some x => Some x
    | None => if String.eqb key k then Some v else None
    end.
Proof. rewrite dict_get_app. reflexivity. Qed.

Lemma copy_fold_get (target source added : dict) (done : list string) (key : string) :
  dict_get key (fst (fold_left (copy_step target) source (added, done)))
  = match dict_get key added with
    | Some v => Some v
    | None => if dict_mem key target then None else dict_get key source
    end.
Proof.
  revert added done. induction source as [|[k v] source IH]; intros added done.
  - simpl. destruct (dict_get key added), (dict_mem key target); reflexivity.
  - cbn [fold_left copy_step dict_get].
    destruct (dict_mem k target || dict_mem k added) eqn:M.
    + rewrite IH. destruct (dict_get key added) eqn:G; [reflexivity|].
      destruct (dict_mem key target) eqn:T; [reflexivity|].
      destruct (String.eqb key k) eqn:K; [|reflexivity].
      apply String.eqb_eq in K. subst k. rewrite T in M. simpl in M.
      unfold dict_mem in M. rewrite G in M. discriminate.
    + rewrite IH, dict_get_snoc, clone_id.
      destruct (dict_get key added); [reflexivity|].
      destruct (String.eqb key k) eqn:K; [|reflexivity].
      apply String.eqb_eq in K. subst k.
      apply orb_false_iff in M. destruct M as [-> _]. reflexivity.
Qed.

Lemma copy_missing_get (target source : dict) (key : string) :
  dict_get key target = None ->
  dict_get key (fst (copy_missing target source)) = dict_get key source.
Proof.
  intros G. unfold copy_missing. rewrite copy_fold_get. simpl.
  unfold dict_mem. rewrite G. reflexivity.
Qed.

Lemma copy_fold_keys (target source added : dict) :
  NoDup (keys added ++ keys source) ->
  keys (fst (fold_left (copy_step target) source (added, keys added)))
  = keys added ++ filter (fun k => negb (dict_mem k target)) (keys source).
Proof.
  revert added. induction source as [|[k v] source IH]; intros added N.
  - simpl. rewrite app_nil_r. reflexivity.
  - cbn [fold_left copy_step keys map fst filter].
    assert (A : dict_mem k added = false).
    { destruct (dict_mem k added) eqn:M; [|reflexivity].
      apply dict_mem_In in M. apply NoDup_remove_2 in N.
      exfalso. apply N, in_or_app. left. exact M. }
    rewrite A, orb_false_r.
    assert (N' : NoDup (keys (added ++ [(k, clone v)]) ++ keys source)).
    { unfold keys. rewrite map_app, <- app_assoc. exact N. }
    destruct (dict_mem k target); cbn [negb].
    + apply IH. simpl in N. apply NoDup_remove_1 in N. exact N.
    + replace (keys added ++ [k]) with (keys (added ++ [(k, clone v)]))
        by (unfold keys; rewrite map_app; reflexivity).
      etransitivity; [exact (IH _ N')|].
      unfold keys. rewrite map_app, <- app_assoc. reflexivity.
Qed.

(** What the second loop of [rec_merge_one] leaves at a key of the
    target: the result of its body on the item of that key. *)
Lemma shared_item (target source : dict) (merged : pyval) (key : string) (value : pyval) :
  dict_get key target = Some value ->
  rec_merge_one (VDict target) (VDict source) = Ok merged ->
  exists done value',
    str_in key done = false
    /\ merge_item rec_merge_one source done (key, value) = Ok (key, value')
    /\ py_getitem merged key = Ok value'.
Proof.
  intros G M. rewrite rec_merge_one_dicts in M.
  apply bind_ok in M. destruct M as (tgt' & M & E). injection E as <-.
  destruct (mapM_get _ _ _ _ _ _ _ M G) as (value' & I & G').
  exists (snd (copy_missing target source)), value'. repeat split.
  - destruct (str_in key (snd (copy_missing target source))) eqn:S; [|reflexivity].
    apply copy_missing_done in S. apply dict_get_mem in G. congruence.
  - exact I.
  - unfold py_getitem, getitem. rewrite dict_get_app, G'. reflexivity.
Qed.

(** X1 -- [rec_merge_one]: a key of the source that the target lacks is
    put into the result with the value the source gives it. *)
Theorem rec_merge_one_new_key (target source : dict) (merged : pyval)
  (key : string) (value2 : pyval) :
  dict_get key target = None ->
  dict_get key source = Some value2 ->
  rec_merge_one (VDict target) (VDict source) = Ok merged ->
  py_getitem merged key = Ok value2.
Proof.
  intros T S M. rewrite rec_merge_one_dicts in M.
  apply bind_ok in M. destruct M as (tgt' & M & E). injection E as <-.
  unfold py_getitem, getitem. rewrite dict_get_app.
  rewrite (keys_get_none key target tgt' (eq_sym (mapM_keys _ _ _ _ _ M)) T).
  rewrite (copy_missing_get _ _ _ T), S. reflexivity.
Qed.

Lemma rec_merge_one_new_key_witness :
  rec_merge_one (VDict [("image", VStr "app")])
                (VDict [("image", VStr "b"); ("user", VStr "u")])
  = Ok (VDict [("image", VStr "b"); ("user", VStr "u")])
  /\ py_getitem (VDict [("image", VStr "b"); ("user", VStr "u")]) "user" = Ok (VStr "u").
Proof.
  split; [reflexivity|].
  apply (rec_merge_one_new_key [("image", VStr "app")]
           [("image", VStr "b"); ("user", VStr "u")]); reflexivity.
Defined.

(** X2 -- [rec_merge_one]: [command] and [entrypoint] are never merged:
    the result holds the value of the source, whatever the target had there
    and of whatever type. *)
Theorem rec_merge_one_command (target source : dict) (merged : pyval)
  (key : string) (value2 : pyval) :
  key = "command" \/ key = "entrypoint" ->
  dict_get key source = Some value2 ->
  rec_merge_one (VDict target) (VDict source) = Ok merged ->
  py_getitem merged key = Ok value2.
Proof.
  intros K S M. destruct (dict_get key target) as [value|] eqn:T.
  - destruct (shared_item _ _ _ _ _ T M) as (done & value' & D & I & G).
    rewrite G. unfold merge_item in I. rewrite D, S in I.
    destruct K as [-> | ->]; cbn [String.eqb Ascii.eqb Bool.eqb orb] in I;
      rewrite clone_id in I; injection I as <-; reflexivity.
  - rewrite rec_merge_one_dicts in M.
    apply bind_ok in M. destruct M as (tgt' & M & E). injection E as <-.
    unfold py_getitem, getitem. rewrite dict_get_app.
    rewrite (keys_get_none key target tgt' (eq_sym (mapM_keys _ _ _ _ _ M)) T).
    rewrite (copy_missing_get _ _ _ T), S. reflexivity.
Qed.

Lemma rec_merge_one_command_witness :
  rec_merge_one (VDict [("command", VList [VStr "sleep"; VStr "1"])])
                (VDict [("command", VStr "top")])
  = Ok (VDict [("command", VStr "top")])
  /\ py_getitem (VDict [("command", VStr "top")]) "command" = Ok (VStr "top").
Proof.
  split; [reflexivity|].
  apply (rec_merge_one_command [("command", VList [VStr "sleep"; VStr "1"])]
           [("command", VStr "top")]); [left|..]; reflexivity.
Defined.

(** X3 -- [rec_merge_one]: on a key both layers have, other than [command]
    and [entrypoint], the merge goes through only when the value of the
    source is an instance of the type of the value of the target; a layer
    with one key of another type is refused with [ValueError]. *)
Theorem rec_merge_one_types_agree (target source : dict) (merged : pyval)
  (key : string) (value value2 : pyval) :
  key <> "command" -> key <> "entrypoint" ->
  dict_get key target = Some value ->
  dict_get key source = Some value2 ->
  (rec_merge_one (VDict target) (VDict source) = Ok merged ->
   isinstance value2 (type value) = true)
  /\ (isinstance value2 (type value) = false ->
      rec_merge_one (VDict [(key, value)]) (VDict [(key, value2)])
      = Raise (cant_merge key value value2)).
Proof.
  intros K1 K2 T S. apply String.eqb_neq in K1, K2. split.
  - intros M. destruct (shared_item _ _ _ _ _ T M) as (done & value' & D & I & _).
    unfold merge_item in I. rewrite D, S, K1, K2 in I. cbn [orb] in I.
    destruct (isinstance value2 (type value)); [reflexivity|discriminate].
  - intros E. rewrite rec_merge_one_dicts.
    unfold copy_missing. cbn [fold_left copy_step]. unfold dict_mem. cbn [dict_get].
    rewrite String.eqb_refl. cbn [orb snd fst mapM merge_item str_in existsb dict_get].
    rewrite String.eqb_refl, K1, K2, E. reflexivity.
Qed.

Lemma rec_merge_one_types_agree_witness :
  rec_merge_one (VDict [("ports", VList [VStr "80"])]) (VDict [("ports", VStr "81")])
  = Raise (ValueError
             "can't merge value of [ports] of type <class 'list'> and <class 'str'>").
Proof.
  apply (proj2 (rec_merge_one_types_agree [("ports", VList [VStr "80"])]
                  [("ports", VStr "81")] VNone "ports" (VList [VStr "80"]) (VStr "81")
                  ltac:(discriminate) ltac:(discriminate) eq_refl eq_refl)).
  reflexivity.
Defined.

(** X4 -- [rec_merge_one]: on a key both layers have, a value of the
    source that is neither a sequence nor a mapping replaces the value of
    the target. *)
Theorem rec_merge_one_scalar (target source : dict) (merged : pyval)
  (key : string) (value value2 : pyval) :
  dict_get key target = Some value ->
  dict_get key source = Some value2 ->
  is_list value2 = false -> isinstance value2 t_dict = false ->
  rec_merge_one (VDict target) (VDict source) = Ok merged ->
  py_getitem merged key = Ok value2.
Proof.
  intros T S L D M. destruct (shared_item _ _ _ _ _ T M) as (done & value' & N & I & G).
  rewrite G. unfold merge_item in I. rewrite N, S, L, D, clone_id in I.
  destruct (String.eqb key "command" || String.eqb key "entrypoint");
    [injection I as <-; reflexivity|].
  destruct (negb (isinstance value2 (type value))); [discriminate|].
  injection I as <-. reflexivity.
Qed.

Lemma rec_merge_one_scalar_witness :
  rec_merge_one (VDict [("image", VStr "a"); ("tty", VBool false)])
                (VDict [("tty", VBool true)])
  = Ok (VDict [("image", VStr "a"); ("tty", VBool true)])
  /\ py_getitem (VDict [("image", VStr "a"); ("tty", VBool true)]) "tty" = Ok (VBool true).
Proof.
  split; [reflexivity|].
  apply (rec_merge_one_scalar [("image", VStr "a"); ("tty", VBool false)]
           [("tty", VBool true)] _ "tty" (VBool false)); reflexivity.
Defined.

(** X5 -- [rec_merge_one]: two lists under a key other than [command],
    [entrypoint] and [volumes] are concatenated, the items of the target
    first; nothing is dropped and no duplicate is removed. *)
Theorem rec_merge_one_lists (target source : dict) (merged : pyval)
  (key : string) (l l2 : list pyval) :
  str_in key ["command"; "entrypoint"; "volumes"] = false ->
  dict_get key target = Some (VList l) ->
  dict_get key source = Some (VList l2) ->
  rec_merge_one (VDict target) (VDict source) = Ok merged ->
  py_getitem merged key = Ok (VList (l ++ l2)).
Proof.
  intros K T S M. cbn [str_in existsb] in K. rewrite orb_false_r in K.
  apply orb_false_iff in K. destruct K as [K1 K]. apply orb_false_iff in K.
  destruct K as [K2 K3].
  destruct (shared_item _ _ _ _ _ T M) as (done & value' & N & I & G).
  rewrite G. unfold merge_item in I. rewrite N, S, K1, K2 in I.
  cbn in I. rewrite K3 in I. injection I as <-. reflexivity.
Qed.

Lemma rec_merge_one_lists_witness :
  rec_merge_one (VDict [("ports", VList [VStr "80"; VStr "81"])])
                (VDict [("ports", VList [VStr "80"])])
  = Ok (VDict [("ports", VList [VStr "80"; VStr "81"; VStr "80"])])
  /\ py_getitem (VDict [("ports", VList [VStr "80"; VStr "81"; VStr "80"])]) "ports"
     = Ok (VList ([VStr "80"; VStr "81"] ++ [VStr "80"])).
Proof.
  split; [reflexivity|].
  apply (rec_merge_one_lists [("ports", VList [VStr "80"; VStr "81"])]
           [("ports", VList [VStr "80"])]); reflexivity.
Defined.

(** X6 -- [rec_merge_one]: two mappings under a key other than [command]
    and [entrypoint] are merged by the same function, and the merge of the
    layers goes through only when theirs does. *)
Theorem rec_merge_one_nested (target source : dict) (merged : pyval)
  (key : string) (a b : dict) :
  key <> "command" -> key <> "entrypoint" ->
  dict_get key target = Some (VDict a) ->
  dict_get key source = Some (VDict b) ->
  rec_merge_one (VDict target) (VDict source) = Ok merged ->
  exists r, rec_merge_one (VDict a) (VDict b) = Ok r /\ py_getitem merged key = Ok r.
Proof.
  intros K1 K2 T S M. apply String.eqb_neq in K1, K2.
  destruct (shared_item _ _ _ _ _ T M) as (done & value' & N & I & G).
  unfold merge_item in I. rewrite N, S, K1, K2 in I.
  cbn [orb type isinstance pytype_eqb negb is_list andb] in I.
  apply bind_ok in I. destruct I as (r & R & E). injection E as <-.
  exists r. split; assumption.
Qed.

Lemma rec_merge_one_nested_witness :
  let target := [("build", VDict [("context", VStr "."); ("args", VList [VStr "A=1"])])] in
  let source := [("build", VDict [("args", VList [VStr "B=2"]); ("target", VStr "prod")])] in
  exists r,
    rec_merge_one (VDict [("context", VStr "."); ("args", VList [VStr "A=1"])])
                  (VDict [("args", VList [VStr "B=2"]); ("target", VStr "prod")]) = Ok r
    /\ py_getitem (VDict [("build",
                           VDict [("context", VStr ".");
                                  ("args", VList [VStr "A=1"; VStr "B=2"]);
                                  ("target", VStr "prod")])]) "build" = Ok r.
Proof.
  intros target source.
  apply (rec_merge_one_nested target source _ "build"); try reflexivity; discriminate.
Defined.

(** X7 -- [rec_merge_one]: the result keeps the keys of the target in
    their order, followed by the keys only the source has, in the order of
    the source. *)
Theorem rec_merge_one_key_order (target source : dict) (merged : pyval) :
  NoDup (keys source) ->
  rec_merge_one (VDict target) (VDict source) = Ok merged ->
  exists d,
    merged = VDict d
    /\ keys d = keys target ++ filter (fun k => negb (dict_mem k target)) (keys source).
Proof.
  intros N M. rewrite rec_merge_one_dicts in M.
  apply bind_ok in M. destruct M as (tgt' & M & E). injection E as <-.
  eexists. split; [reflexivity|].
  unfold keys at 1. rewrite map_app. fold (keys tgt').
  rewrite (mapM_keys _ _ _ _ _ M). f_equal.
  unfold copy_missing. apply (copy_fold_keys target source []). exact N.
Qed.

Lemma rec_merge_one_key_order_witness :
  let target := [("image", VStr "a"); ("user", VStr "u")] in
  let source := [("tty", VBool true); ("user", VStr "v"); ("init", VBool true)] in
  exists d,
    VDict [("image", VStr "a"); ("user", VStr "v"); ("tty", VBool true);
           ("init", VBool true)] = VDict d
    /\ keys d = keys target ++ filter (fun k => negb (dict_mem k target)) (keys source).
Proof.
  intros target source.
  apply (rec_merge_one_key_order target source).
  - apply nodupb_NoDup. reflexivity.
  - reflexivity.
Defined.

(** X8 -- [rec_merge_one]: the empty mapping is neutral on both sides. *)
Theorem rec_merge_one_neutral (d : dict) :
  NoDup (keys d) ->
  rec_merge_one (VDict d) (VDict []) = Ok (VDict d)
  /\ rec_merge_one (VDict []) (VDict d) = Ok (VDict d).
Proof.
  intros N. split; [|apply rec_merge_one_empty, N].
  rewrite rec_merge_one_dicts. cbn [copy_missing fold_left fst snd].
  assert (E : mapM (merge_item rec_merge_one [] []) d = Ok d).
  { clear N. induction d as [|[k v] d IH]; [reflexivity|].
    cbn [mapM]. rewrite IH. reflexivity. }
  rewrite E. cbn [bind]. rewrite app_nil_r. reflexivity.
Qed.

Lemma rec_merge_one_neutral_witness :
  let d := [("image", VStr "a"); ("command", VList [VStr "top"])] in
  rec_merge_one (VDict d) (VDict []) = Ok (VDict d)
  /\ rec_merge_one (VDict []) (VDict d) = Ok (VDict d).
Proof.
  intros d. apply (rec_merge_one_neutral d). apply nodupb_NoDup. reflexivity.
Defined.

End MergeLaws.

(** ** The substitution engine, form by form *)

Module SubstLaws.
Import SubstFacts.

Lemma mapM_id {A : Type} (f : A -> result A) (l : list A) :
  (forall x, In x l -> f x = Ok x) -> mapM f l = Ok l.
Proof.
  induction l as [|x l IH]; intros F; [reflexivity|].
  cbn [mapM]. rewrite (F x (or_introl eq_refl)). cbn [bind].
  rewrite IH by (intros y Hy; apply F; right; exact Hy). reflexivity.
Qed.

Lemma mapM_total {A B : Type} (f : A -> result B) (l : list A) :
  (forall x, In x l -> exists y, f x = Ok y) -> exists r, mapM f l = Ok r.
Proof.
  induction l as [|x l IH]; intros F; [eexists; reflexivity|].
  destruct (F x (or_introl eq_refl)) as (y & Y).
  destruct IH as (r & R); [intros z Hz; apply F; right; exact Hz|].
  exists (y :: r). cbn [mapM]. rewrite Y. cbn [bind]. rewrite R. reflexivity.
Qed.

Lemma plain_items (d : dict) :
  plain (VDict d) = true <-> (forall kv, In kv d -> plain (snd kv) = true).
Proof.
  induction d as [|[k x] d IH].
  - split; [intros _ kv []|reflexivity].
  - change (plain (VDict ((k, x) :: d))) with (plain x && plain (VDict d)).
    rewrite andb_true_iff, IH. split.
    + intros [X D] kv [<-|Hkv]; [exact X|apply D, Hkv].
    + intros F. split; [apply (F (k, x)); left; reflexivity|].
      intros kv Hkv. apply F. right. exact Hkv.
Qed.

Lemma no_required_items (d : dict) :
  no_required (VDict d) = true <-> (forall kv, In kv d -> no_required (snd kv) = true).
Proof.
  induction d as [|[k x] d IH].
  - split; [intros _ kv []|reflexivity].
  - change (no_required (VDict ((k, x) :: d)))
      with (no_required x && no_required (VDict d)).
    rewrite andb_true_iff, IH. split.
    + intros [X D] kv [<-|Hkv]; [exact X|apply D, Hkv].
    + intros F. split; [apply (F (k, x)); left; reflexivity|].
      intros kv Hkv. apply F. right. exact Hkv.
Qed.

Lemma dict_get_In_key (key : string) (d : dict) (v : pyval) :
  dict_get key d = Some v -> In (key, v) d.
Proof.
  induction d as [|[k x] d IH]; simpl; [discriminate|].
  destruct (String.eqb key k) eqn:K.
  - apply String.eqb_eq in K. subst k. intros E. injection E as <-. left. reflexivity.
  - intros G. right. apply IH, G.
Qed.

Section WithHost.
Context `{Host}.

Lemma rec_subs_depth_dict (n : nat) (items : dict) (subs_dict : dict) :
  rec_subs_depth (S n) (VDict items) subs_dict
  = (subs_dict <-
       match dict_get "environment" items with
       | Some (VDict environment) =>
           let svc_envs :=
             filter (fun kv => negb (dict_mem (fst kv) subs_dict)) environment in
           let subs_dict := dict_update subs_dict svc_envs in
           svc_envs <- rec_subs_depth n (VDict svc_envs) subs_dict ;;
           match svc_envs with
           | VDict svc_envs => Ok (dict_update subs_dict svc_envs)
           | _ => Raise TypeError
           end
       | _ => Ok subs_dict
       end ;;
     items' <- mapM (fun kv => v <- rec_subs_depth n (snd kv) subs_dict ;;
                               Ok (fst kv, v)) items ;;
     Ok (VDict items')).
Proof. reflexivity. Qed.

Lemma rec_subs_depth_plain (n : nat) (value : pyval) (subs_dict : dict) :
  height value < n -> plain value = true ->
  rec_subs_depth n value subs_dict = Ok value.
Proof.
  revert value subs_dict.
  induction n as [|n IH]; intros value subs_dict Hn P; [lia|].
  destruct value as [| | | |s|l|d|l|]; try reflexivity; try discriminate.
  - cbn [rec_subs_depth]. cbn [plain] in P.
    rewrite var_re_sub_literal by exact P. reflexivity.
  - rewrite rec_subs_depth_list. cbn [height] in Hn. cbn [plain] in P.
    rewrite mapM_id; [reflexivity|].
    intros x Hx. apply IH.
    + apply height_in_list in Hx. lia.
    + rewrite forallb_forall in P. apply P, Hx.
  - rewrite rec_subs_depth_dict. cbn [height] in Hn.
    pose proof (proj1 (plain_items d) P) as Pd.
    assert (E : forall sd, mapM (fun kv => v <- rec_subs_depth n (snd kv) sd ;;
                                           Ok (fst kv, v)) d = Ok d).
    { intros sd. apply mapM_id. intros [k x] Hkv.
      rewrite IH; [reflexivity| |apply (Pd _ Hkv)].
      apply height_in_dict in Hkv. cbn [snd] in *. lia. }
    destruct (dict_get "environment" d) as [[| | | | | |environment| |]|] eqn:G;
      cbn [bind]; try (now rewrite E).
    apply dict_get_In_key in G. pose proof (Pd _ G) as Pe. cbn [snd] in Pe.
    apply height_in_dict in G. cbn [snd height] in G.
    pose proof (height_filter (fun kv => negb (dict_mem (fst kv) subs_dict)) environment) as F.
    rewrite IH; [cbn [bind]; now rewrite E | cbn [height]; lia |].
    apply plain_items. intros kv Hkv. apply filter_In in Hkv.
    apply (proj1 (plain_items environment) Pe), Hkv.
Qed.

(** *** Forms without an operator *)

Lemma span_whole (p : ascii -> bool) (s : string) :
  all_chars p s = true -> span p s = (s, EmptyString).
Proof.
  induction s as [|c s IH]; [reflexivity|].
  cbn [all_chars span]. intros A. apply andb_true_iff in A. destruct A as [-> A].
  rewrite (IH A). reflexivity.
Qed.

Lemma span_name (name post : string) :
  all_chars is_name_char name = true -> ends_name post = true ->
  span is_name_char (name ++ post) = (name, post).
Proof.
  intros A E. destruct post as [|c r].
  - rewrite append_nil_r. apply span_whole, A.
  - apply span_all; [exact A|]. apply negb_true_iff. exact E.
Qed.

Lemma name_start_not_special (c : ascii) :
  is_name_start c = true ->
  Ascii.eqb c "$" = false /\ Ascii.eqb c "{" = false.
Proof.
  destruct c as [[] [] [] [] [] [] [] []]; vm_compute; intros E;
    try discriminate; split; reflexivity.
Qed.

Lemma var_re_match_named (name post : string) :
  valid_name name = true -> ends_name post = true ->
  var_re_match (String "$" (name ++ post))
  = Some (mkGroups None (Some name) None None None None, 1 + String.length name).
Proof.
  intros V E. destruct name as [|c name]; [discriminate|].
  cbn [valid_name] in V. apply andb_true_iff in V. destruct V as [S A].
  cbn [append var_re_match Ascii.eqb Bool.eqb negb].
  destruct (name_start_not_special c S) as [-> _]. rewrite S.
  change (String c (name ++ post)) with (String c name ++ post)%string.
  rewrite (span_name _ _ A E). reflexivity.
Qed.

Lemma var_re_match_braced (name post : string) :
  valid_name name = true ->
  var_re_match (String "$" (String "{" (name ++ String "}" post)))
  = Some (mkGroups None None (Some name) None None None, 3 + String.length name).
Proof.
  intros V. cbn [var_re_match Ascii.eqb Bool.eqb negb is_name_start].
  change (is_name_start "{") with false. cbn iota.
  rewrite match_name_valid; [reflexivity|exact V|reflexivity].
Qed.

Lemma convert_plain (subs_dict : dict) (name : string) :
  valid_name name = true ->
  convert subs_dict (mkGroups None (Some name) None None None None)
  = Ok (lookup subs_dict name)
  /\ convert subs_dict (mkGroups None None (Some name) None None None)
     = Ok (lookup subs_dict name).
Proof.
  intros V. destruct name as [|c name]; [discriminate|].
  unfold convert, lookup. cbn [g_escaped g_named g_braced g_empty g_err g_default group_or].
  destruct (dict_get (String c name) subs_dict) as [[| | | |[|]| | | |]|]; split; reflexivity.
Qed.

Lemma has_char_app (c : ascii) (a b : string) :
  has_char c (a ++ b) = has_char c a || has_char c b.
Proof.
  induction a as [|x a IH]; [reflexivity|].
  cbn [append has_char]. rewrite IH, orb_assoc. reflexivity.
Qed.

Lemma span_app (p : ascii -> bool) (s a b : string) :
  span p s = (a, b) -> s = (a ++ b)%string.
Proof.
  revert a b. induction s as [|c s IH]; intros a b.
  - cbn [span]. intros E. injection E as <- <-. reflexivity.
  - cbn [span]. destruct (p c).
    + destruct (span p s) as [a' b'] eqn:S. intros E. injection E as <- <-.
      cbn [append]. f_equal. apply IH. reflexivity.
    + intros E. injection E as <- <-. reflexivity.
Qed.

Lemma match_name_app (s name r : string) :
  match_name s = Some (name, r) -> s = (name ++ r)%string.
Proof.
  unfold match_name. destruct s as [|c s]; [discriminate|].
  destruct (is_name_start c); [|discriminate].
  intros E. apply (span_app is_name_char). congruence.
Qed.

(** A match of [var_re] in a text without a question mark has no error
    group. *)
Lemma var_re_match_no_err (s : string) (m : re_groups) (len : nat) :
  has_char "?" s = false -> var_re_match s = Some (m, len) -> g_err m = None.
Proof.
  intros Q. unfold var_re_match.
  destruct s as [|c0 s1]; [discriminate|].
  destruct (negb (Ascii.eqb c0 "$")); [discriminate|].
  destruct s1 as [|c1 s2]; [discriminate|].
  destruct (Ascii.eqb c1 "$"); [intros E; injection E as <- _; reflexivity|].
  destruct (is_name_start c1).
  { destruct (span is_name_char (String c1 s2)). intros E. injection E as <- _. reflexivity. }
  destruct (Ascii.eqb c1 "{"); [|discriminate].
  destruct (match_name s2) as [[name r1]|] eqn:MN; [|discriminate].
  apply match_name_app in MN.
  cbn [has_char] in Q. apply orb_false_iff in Q. destruct Q as [_ Q].
  apply orb_false_iff in Q. destruct Q as [_ Q].
  rewrite MN, has_char_app in Q. apply orb_false_iff in Q. destruct Q as [_ Q].
  destruct r1 as [|x r1']; [discriminate|].
  destruct (Ascii.eqb x "}"); [intros E; injection E as <- _; reflexivity|].
  assert (R : forall empty r2,
             (if Ascii.eqb x ":" then (Some ":", r1') else (None, String x r1'))
             = (empty, r2) -> has_char "?" r2 = false).
  { intros empty r2. destruct (Ascii.eqb x ":"); intros E; injection E as <- <-.
    - cbn [has_char] in Q. apply orb_false_iff in Q. apply Q.
    - exact Q. }
  destruct (if Ascii.eqb x ":" then (Some ":", r1') else (None, String x r1'))
    as [empty [|y r3]] eqn:I; [discriminate|].
  specialize (R _ _ eq_refl). cbn [has_char] in R. apply orb_false_iff in R.
  destruct R as [Y _].
  destruct (Ascii.eqb y "-").
  { destruct (match_text r3); [|discriminate]. intros E. injection E as <- _. reflexivity. }
  rewrite Y. discriminate.
Qed.

Lemma convert_no_err (subs_dict : dict) (m : re_groups) :
  g_err m = None -> exists r, convert subs_dict m = Ok r.
Proof.
  intros E. unfold convert. rewrite E.
  destruct (g_escaped m); [eexists; reflexivity|].
  destruct (group_or (g_default m) (Some EmptyString));
    match goal with
    | |- context [dict_get ?n subs_dict] =>
        destruct (dict_get n subs_dict) as [[| | | |[|]| | | |]|]
    end;
    destruct (g_empty m) as [[|]|]; eexists; reflexivity.
Qed.

Lemma var_re_sub_total (subs_dict : dict) (s : string) (skip : nat) :
  has_char "?" s = false -> exists r, var_re_sub (convert subs_dict) s skip = Ok r.
Proof.
  revert skip. induction s as [|c s IH]; intros skip Q; [eexists; reflexivity|].
  assert (Q' : has_char "?" s = false).
  { cbn [has_char] in Q. apply orb_false_iff in Q. apply Q. }
  cbn [var_re_sub]. destruct skip as [|n]; [|apply IH, Q'].
  destruct (var_re_match (String c s)) as [[m len]|] eqn:M.
  - destruct (convert_no_err subs_dict m (var_re_match_no_err _ _ _ Q M)) as (r & ->).
    destruct (IH (len - 1) Q') as (rest & ->). eexists. reflexivity.
  - destruct (IH 0 Q') as (rest & ->). eexists. reflexivity.
Qed.

Lemma rec_subs_depth_total (n : nat) (value : pyval) (subs_dict : dict) :
  height value < n -> no_required value = true ->
  exists r, rec_subs_depth n value subs_dict = Ok r
            /\ (forall d, value = VDict d -> exists d', r = VDict d').
Proof.
  revert value subs_dict.
  induction n as [|n IH]; intros value subs_dict Hn P; [lia|].
  destruct value as [| | | |s|l|d|l|];
    try (eexists; split; [reflexivity|discriminate]).
  - cbn [rec_subs_depth]. cbn [no_required] in P. apply negb_true_iff in P.
    destruct (var_re_sub_total subs_dict s 0 P) as (r & ->).
    eexists; split; [reflexivity|discriminate].
  - rewrite rec_subs_depth_list. cbn [height] in Hn. cbn [no_required] in P.
    destruct (mapM_total (fun i => rec_subs_depth n i subs_dict) l) as (r & ->).
    + intros x Hx. destruct (IH x subs_dict) as (y & Y & _).
      * apply height_in_list in Hx. lia.
      * rewrite forallb_forall in P. apply P, Hx.
      * exists y. exact Y.
    + eexists; split; [reflexivity|discriminate].
  - rewrite rec_subs_depth_dict. cbn [height] in Hn.
    pose proof (proj1 (no_required_items d) P) as Pd.
    assert (E : forall sd, exists r,
                 mapM (fun kv => v <- rec_subs_depth n (snd kv) sd ;; Ok (fst kv, v)) d
                 = Ok r).
    { intros sd. apply mapM_total. intros [k x] Hkv.
      destruct (IH x sd) as (y & Y & _).
      - apply height_in_dict in Hkv. cbn [snd] in *. lia.
      - apply (Pd _ Hkv).
      - cbn [snd fst]. rewrite Y. eexists. reflexivity. }
    assert (D : forall sd, exists r,
                 (items' <- mapM (fun kv => v <- rec_subs_depth n (snd kv) sd ;;
                                            Ok (fst kv, v)) d ;;
                  Ok (VDict items')) = Ok r
                 /\ (forall d0, VDict d = VDict d0 -> exists d', r = VDict d')).
    { intros sd. destruct (E sd) as (r & ->). eexists. split; [reflexivity|].
      intros _ _. eexists. reflexivity. }
    destruct (dict_get "environment" d) as [[| | | | | |environment| |]|] eqn:G;
      cbn [bind]; try apply D.
    apply dict_get_In_key in G. pose proof (Pd _ G) as Pe. cbn [snd] in Pe.
    apply height_in_dict in G. cbn [snd height] in G.
    pose proof (height_filter (fun kv => negb (dict_mem (fst kv) subs_dict)) environment) as F.
    destruct (IH (VDict (filter (fun kv => negb (dict_mem (fst kv) subs_dict)) environment))
                 (dict_update subs_dict
                    (filter (fun kv => negb (dict_mem (fst kv) subs_dict)) environment)))
      as (r & R & S).
    + cbn [height]. lia.
    + apply no_required_items. intros kv Hkv. apply filter_In in Hkv.
      apply (proj1 (no_required_items environment) Pe), Hkv.
    + destruct (S _ eq_refl) as (d' & ->).
      cbv zeta. rewrite R. cbn [bind]. apply D.
  - cbn [rec_subs_depth]. cbn [height] in Hn. cbn [no_required] in P.
    destruct (mapM_total (fun i => rec_subs_depth n i subs_dict) l) as (r & ->).
    + intros x Hx. destruct (IH x subs_dict) as (y & Y & _).
      * apply height_in_list in Hx. lia.
      * rewrite forallb_forall in P. apply P, Hx.
      * exists y. exact Y.
    + eexists; split; [reflexivity|discriminate].
Qed.

(** X9 -- [rec_subs]: a value none of whose strings holds a dollar sign
    comes back as it is, whatever the environment holds. *)
Theorem rec_subs_plain (value : pyval) (subs_dict : dict) :
  plain value = true -> rec_subs value subs_dict = Ok value.
Proof. intros P. unfold rec_subs. apply rec_subs_depth_plain; [lia|exact P]. Qed.

(** X10 -- [rec_subs]: [$$] gives one dollar sign that is not read
    again, and the text after it is substituted as if it stood alone: the
    brace or name that follows [$$] directly starts no form. *)
Theorem rec_subs_escape (subs_dict : dict) (pre post r : string) :
  literal pre = true ->
  rec_subs (VStr post) subs_dict = Ok (VStr r) ->
  rec_subs (VStr (pre ++ "$$" ++ post)) subs_dict = Ok (VStr (pre ++ "$" ++ r)).
Proof.
  intros L R. rewrite rec_subs_str in *. rewrite var_re_sub_prefix by exact L.
  cbn [append var_re_sub var_re_match Ascii.eqb Bool.eqb negb convert g_escaped bind
       Nat.sub].
  destruct (var_re_sub (convert subs_dict) post 0) as [r'|e]; [|discriminate].
  injection R as <-. reflexivity.
Qed.

(** X11 -- [rec_subs]: the forms [${NAME}] and [$NAME] are replaced with
    the text of the value [NAME] is bound to, and with nothing when it is
    unset or bound to [None]; [$NAME] ends where the name ends. *)
Theorem rec_subs_plain_forms (subs_dict : dict) (name pre post : string) :
  valid_name name = true -> literal pre = true -> literal post = true ->
  rec_subs (VStr (pre ++ "${" ++ name ++ "}" ++ post)) subs_dict
  = Ok (VStr (pre ++ lookup subs_dict name ++ post))
  /\ (ends_name post = true ->
      rec_subs (VStr (pre ++ "$" ++ name ++ post)) subs_dict
      = Ok (VStr (pre ++ lookup subs_dict name ++ post))).
Proof.
  intros V Lpre Lpost. destruct (convert_plain subs_dict name V) as [Cn Cb]. split.
  - rewrite rec_subs_str, var_re_sub_prefix by exact Lpre.
    replace ("${" ++ name ++ "}" ++ post)%string
      with (("${" ++ name ++ "}") ++ post)%string
      by (cbn [append]; rewrite append_assoc; reflexivity).
    rewrite (var_re_sub_match _ _ _ (mkGroups None None (Some name) None None None)).
    + rewrite Cb. reflexivity.
    + cbn [append]. rewrite append_assoc. cbn [append].
      rewrite var_re_match_braced by exact V.
      cbn [String.length]. rewrite length_append. cbn [String.length].
      do 2 f_equal. lia.
    + exact Lpost.
  - intros E. rewrite rec_subs_str, var_re_sub_prefix by exact Lpre.
    replace ("$" ++ name ++ post)%string with (("$" ++ name) ++ post)%string
      by reflexivity.
    rewrite (var_re_sub_match _ _ _ (mkGroups None (Some name) None None None None)).
    + rewrite Cn. reflexivity.
    + cbn [append]. rewrite (var_re_match_named _ _ V E). reflexivity.
    + exact Lpost.
Qed.

(** X12 -- [rec_subs]: a value none of whose strings holds a question
    mark is substituted without an error, under any environment: only the
    forms [${NAME?text}] and [${NAME:?text}] can refuse a document. *)
Theorem rec_subs_total (value : pyval) (subs_dict : dict) :
  no_required value = true -> exists r, rec_subs value subs_dict = Ok r.
Proof.
  intros P. destruct (rec_subs_depth_total (S (height value)) value subs_dict) as (r & R & _);
    [lia|exact P|].
  exists r. exact R.
Qed.

Lemma mapM_values_keys {A : Type} (f : pyval -> result A) (d : dict)
  (d' : list (string * A)) :
  mapM (fun kv => v <- f (snd kv) ;; Ok (fst kv, v)) d = Ok d' -> keys d' = keys d.
Proof.
  revert d'. induction d as [|[k x] d IH]; intros d' E.
  - injection E as <-. reflexivity.
  - cbn [mapM] in E. apply bind_ok in E. destruct E as ([k' y] & Y & E).
    apply bind_ok in Y. destruct Y as (z & _ & Y). injection Y as <- <-.
    apply bind_ok in E. destruct E as (rest & R & E). injection E as <-.
    cbn [keys map fst]. f_equal. apply (IH _ R).
Qed.

Lemma mapM_length {A B : Type} (f : A -> result B) (l : list A) (r : list B) :
  mapM f l = Ok r -> List.length r = List.length l.
Proof.
  revert r. induction l as [|x l IH]; intros r E.
  - injection E as <-. reflexivity.
  - cbn [mapM] in E. apply bind_ok in E. destruct E as (y & _ & E).
    apply bind_ok in E. destruct E as (rest & R & E). injection E as <-.
    cbn [List.length]. f_equal. apply (IH _ R).
Qed.

(** X13 -- [rec_subs] keeps the shape of a value: a mapping comes back
    with its keys, in their order and not substituted; a list or set comes
    back as a list of the same length; a string as a string; any other
    value as it is. *)
Theorem rec_subs_shape (value : pyval) (subs_dict : dict) (r : pyval) :
  rec_subs value subs_dict = Ok r ->
  (forall d, value = VDict d -> exists d', r = VDict d' /\ keys d' = keys d)
  /\ (forall l, value = VList l \/ value = VSet l ->
                exists l', r = VList l' /\ List.length l' = List.length l)
  /\ (forall s, value = VStr s -> exists s', r = VStr s')
  /\ (has_iter value = false -> r = value).
Proof.
  unfold rec_subs. intros E. repeat split.
  - intros d ->. rewrite rec_subs_depth_dict in E.
    apply bind_ok in E. destruct E as (sd & _ & E).
    apply bind_ok in E. destruct E as (items' & M & E). injection E as <-.
    exists items'. split; [reflexivity|].
    apply (mapM_values_keys (fun x => rec_subs_depth _ x sd) _ _ M).
  - intros l [-> | ->]; cbn [rec_subs_depth] in E;
      apply bind_ok in E; destruct E as (l' & M & E); injection E as <-;
      exists l'; (split; [reflexivity|apply (mapM_length _ _ _ M)]).
  - intros s ->. cbn [rec_subs_depth] in E.
    apply bind_ok in E. destruct E as (s' & _ & E). injection E as <-.
    exists s'. reflexivity.
  - intros I. destruct value; try discriminate; cbn in E; injection E as <-; reflexivity.
Qed.

End WithHost.

Lemma rec_subs_plain_witness :
  @rec_subs bare_host
    (VDict [("image", VStr "app:1"); ("environment", VDict [("A", VStr "1")]);
            ("ports", VList [VStr "80:80"; VInt 81])])
    [("A", VStr "2")]
  = Ok (VDict [("image", VStr "app:1"); ("environment", VDict [("A", VStr "1")]);
               ("ports", VList [VStr "80:80"; VInt 81])]).
Proof. apply (@rec_subs_plain bare_host). reflexivity. Defined.

Lemma rec_subs_escape_witness :
  @rec_subs bare_host (VStr "echo $${HOME} $$ $A") [("A", VStr "1")]
  = Ok (VStr "echo ${HOME} $ 1").
Proof.
  apply (@rec_subs_escape bare_host [("A", VStr "1")] "echo " "{HOME} $$ $A"
           "{HOME} $ 1"); reflexivity.
Defined.

Lemma rec_subs_plain_forms_witness :
  @rec_subs bare_host (VStr "img:${TAG}.x") [("TAG", VInt 3)] = Ok (VStr "img:3.x")
  /\ @rec_subs bare_host (VStr "img:$TAG.x") [("TAG", VNone)] = Ok (VStr "img:.x").
Proof.
  split.
  - apply (proj1 (@rec_subs_plain_forms bare_host [("TAG", VInt 3)] "TAG" "img:" ".x"
                    eq_refl eq_refl eq_refl)).
  - apply (proj2 (@rec_subs_plain_forms bare_host [("TAG", VNone)] "TAG" "img:" ".x"
                    eq_refl eq_refl eq_refl)). reflexivity.
Defined.

Lemma rec_subs_total_witness :
  exists r,
    @rec_subs bare_host
      (VDict [("command", VList [VStr "run"; VStr "${A:-x} ${B-} $C ${"]);
              ("environment", VDict [("C", VStr "$A")])])
      [] = Ok r.
Proof. apply (@rec_subs_total bare_host). reflexivity. Defined.

Lemma rec_subs_shape_witness :
  exists d',
    VDict [("${A}", VStr "1"); ("b", VList [VStr "1"; VStr ""])] = VDict d'
    /\ keys d' = keys [("${A}", VStr "$A"); ("b", VList [VStr "${A}"; VStr "$B"])].
Proof.
  apply (proj1 (@rec_subs_shape bare_host
                  (VDict [("${A}", VStr "$A"); ("b", VList [VStr "${A}"; VStr "$B"])])
                  [("A", VInt 1)] _ eq_refl)).
  reflexivity.
Defined.

End SubstLaws.

(** ** Normalisation: what it touches, and its inverse on mappings *)

Module NormalizeLaws.
Import NormalizeFacts.

Lemma split_max_zero (c : ascii) (s : string) : split_max c 0 s = [s].
Proof.
  induction s as [|a s IH]; [reflexivity|].
  cbn [split_max]. destruct (Ascii.eqb a c); [reflexivity|]. rewrite IH. reflexivity.
Qed.

Lemma split_max_first (c : ascii) (n : nat) (k v : string) :
  has_char c k = false ->
  split_max c (S n) (k ++ String c v) = k :: split_max c n v.
Proof.
  induction k as [|a k IH].
  - intros _. cbn [append split_max]. rewrite Ascii.eqb_refl. reflexivity.
  - cbn [has_char append split_max]. intros E. apply orb_false_iff in E.
    destruct E as [-> E]. rewrite (IH E). reflexivity.
Qed.

Lemma split_key_value_pair (k v : string) :
  has_char "=" k = false -> split_key_value (k ++ "=" ++ v) = (k, VStr v).
Proof.
  intros E. unfold split_key_value. cbn [append].
  rewrite split_max_first, split_max_zero by exact E. reflexivity.
Qed.

Lemma split_key_value_bare (k : string) :
  has_char "=" k = false -> split_key_value k = (k, VNone).
Proof. intros E. unfold split_key_value. rewrite split_max_none by exact E. reflexivity. Qed.

Lemma dict_set_new {A : Type} (k : string) (v : A) (d : list (string * A)) :
  ~ In k (keys d) -> dict_set k v d = d ++ [(k, v)].
Proof.
  induction d as [|[k' x] d IH]; intros N; [reflexivity|].
  cbn [dict_set app]. destruct (String.eqb k k') eqn:E.
  - apply String.eqb_eq in E. subst k'. exfalso. apply N. left. reflexivity.
  - rewrite IH; [reflexivity|]. intros I. apply N. right. exact I.
Qed.

Lemma dict_update_new {A : Type} (acc d : list (string * A)) :
  NoDup (keys acc ++ keys d) -> dict_update acc d = acc ++ d.
Proof.
  unfold dict_update. revert acc. induction d as [|[k v] d IH]; intros acc N.
  - cbn [fold_left]. rewrite app_nil_r. reflexivity.
  - cbn [fold_left fst snd]. rewrite dict_set_new.
    + rewrite IH; [rewrite <- app_assoc; reflexivity|].
      unfold keys. rewrite map_app, <- app_assoc. exact N.
    + apply NoDup_remove_2 in N. intros I. apply N, in_or_app. left. exact I.
Qed.

Lemma dict_set_same {A : Type} (k : string) (v : A) (d : list (string * A)) :
  dict_get k d = Some v -> dict_set k v d = d.
Proof.
  induction d as [|[k' x] d IH]; [discriminate|].
  cbn [dict_get dict_set]. destruct (String.eqb k k') eqn:E.
  - intros G. injection G as ->. reflexivity.
  - intros G. rewrite (IH G). reflexivity.
Qed.

Lemma keys_dict_set {A : Type} (k : string) (v : A) (d : list (string * A)) :
  dict_mem k d = true -> keys (dict_set k v d) = keys d.
Proof.
  unfold dict_mem. induction d as [|[k' x] d IH]; [discriminate|].
  cbn [dict_get dict_set]. destruct (String.eqb k k') eqn:E; [reflexivity|].
  intros G. cbn [keys map fst]. f_equal. apply IH, G.
Qed.

(** *** Steps that rewrite one key *)

Lemma rewrites_refl (ks : list string) (d : dict) : rewrites ks d d.
Proof. split; reflexivity. Qed.

Lemma rewrites_trans (ks : list string) (a b c : dict) :
  rewrites ks a b -> rewrites ks b c -> rewrites ks a c.
Proof.
  intros [K1 G1] [K2 G2]. split; [congruence|].
  intros key N. rewrite (G2 key N). apply G1, N.
Qed.

Lemma rewrites_set (ks : list string) (k : string) (v x : pyval) (d : dict) :
  str_in k ks = true -> dict_get k d = Some x -> rewrites ks d (dict_set k v d).
Proof.
  intros I G. split.
  - apply keys_dict_set. apply (dict_get_mem _ _ _ G).
  - intros key N. rewrite dict_get_set.
    destruct (String.eqb key k) eqn:E; [|reflexivity].
    apply String.eqb_eq in E. subst k. congruence.
Qed.

Section WithHost.
Context `{Host}.

Ltac one_key G :=
  intros E;
  repeat match type of E with
         | context [match ?x with _ => _ end] => destruct x; try discriminate
         end;
  injection E as <-;
  first [apply rewrites_refl | eapply rewrites_set; [reflexivity | exact G]].

Lemma norm_build_rewrites (d : dict) : rewrites ["build"] d (norm_build d).
Proof.
  unfold norm_build. destruct (dict_get "build" d) as [v|] eqn:G; [|apply rewrites_refl].
  destruct v; first [apply rewrites_refl | eapply rewrites_set; [reflexivity | exact G]].
Qed.

Lemma norm_build_context_rewrites (sub_dir : string) (d d' : dict) :
  norm_build_context sub_dir d = Ok d' -> rewrites ["build"] d d'.
Proof.
  unfold norm_build_context. destruct (String.eqb sub_dir "").
  - intros E. injection E as <-. apply rewrites_refl.
  - destruct (dict_get "build" d) as [v|] eqn:G; one_key G.
Qed.

Lemma norm_additional_contexts_rewrites (d d' : dict) :
  norm_additional_contexts d = Ok d' -> rewrites ["build"] d d'.
Proof.
  unfold norm_additional_contexts.
  destruct (dict_get "build" d) as [v|] eqn:G; [|one_key G].
  destruct v; try (intros E; apply bind_ok in E; destruct E as ([] & _ & E);
                   [discriminate | injection E as <-; apply rewrites_refl]).
  one_key G.
Qed.

Lemma norm_tokenize_rewrites (key : string) (d d' : dict) :
  norm_tokenize key d = Ok d' -> rewrites [key] d d'.
Proof.
  unfold norm_tokenize. destruct (dict_get key d) as [v|] eqn:G; [|one_key G].
  destruct v; try one_key G.
  intros E. apply bind_ok in E. destruct E as (ws & _ & E). injection E as <-.
  eapply rewrites_set; [|exact G]. cbn. rewrite String.eqb_refl. reflexivity.
Qed.

Lemma norm_as_sequence_rewrites (key : string) (d : dict) :
  rewrites [key] d (norm_as_sequence key d).
Proof.
  unfold norm_as_sequence. destruct (dict_get key d) as [v|] eqn:G; [|apply rewrites_refl].
  destruct v; try apply rewrites_refl.
  eapply rewrites_set; [|exact G]. cbn. rewrite String.eqb_refl. reflexivity.
Qed.

Lemma norm_security_opt_rewrites (d d' : dict) :
  norm_security_opt d = Ok d' -> rewrites ["security_opt"] d d'.
Proof.
  unfold norm_security_opt. destruct (dict_get "security_opt" d) as [v|] eqn:G; one_key G.
Qed.

Lemma norm_mapping_rewrites (key : string) (d d' : dict) :
  norm_mapping key d = Ok d' -> rewrites [key] d d'.
Proof.
  unfold norm_mapping. destruct (dict_get key d) as [v|] eqn:G; [|one_key G].
  intros E. apply bind_ok in E. destruct E as (m & _ & E). injection E as <-.
  eapply rewrites_set; [|exact G]. cbn. rewrite String.eqb_refl. reflexivity.
Qed.

Lemma norm_extends_rewrites (d : dict) : rewrites ["extends"] d (norm_extends d).
Proof.
  unfold norm_extends. destruct (dict_get "extends" d) as [v|] eqn:G; [|apply rewrites_refl].
  destruct v; first [apply rewrites_refl | eapply rewrites_set; [reflexivity | exact G]].
Qed.

Lemma norm_depends_on_rewrites (d d' : dict) :
  norm_depends_on d = Ok d' -> rewrites ["depends_on"] d d'.
Proof.
  unfold norm_depends_on. destruct (dict_get "depends_on" d) as [v|] eqn:G; [|one_key G].
  intros E. apply bind_ok in E. destruct E as (a & _ & E).
  apply bind_ok in E. destruct E as (b & _ & E). injection E as <-.
  eapply rewrites_set; [reflexivity | exact G].
Qed.

Lemma rewrites_weaken (ks ks' : list string) (d d' : dict) :
  (forall k, str_in k ks = true -> str_in k ks' = true) ->
  rewrites ks d d' -> rewrites ks' d d'.
Proof.
  intros W [K G]. split; [exact K|]. intros key N. apply G.
  destruct (str_in key ks) eqn:I; [|reflexivity]. rewrite (W _ I) in N. discriminate.
Qed.

Lemma normalized_one (k : string) :
  str_in k normalized_keys = true ->
  forall d d', rewrites [k] d d' -> rewrites normalized_keys d d'.
Proof.
  intros I d d'. apply rewrites_weaken. intros k' I'. cbn in I'.
  rewrite orb_false_r in I'. apply String.eqb_eq in I'. subst k'. exact I.
Qed.

(** X14 -- [normalize_service]: the normalised service has the keys of the
    service, in their order, and the value the service had at every key
    other than the ten the function looks for; it adds no key and drops
    none. *)
Theorem normalize_service_frame (service : dict) (sub_dir : string) (r : pyval) :
  normalize_service (VDict service) sub_dir = Ok r ->
  exists d,
    r = VDict d
    /\ keys d = keys service
    /\ forall key, str_in key normalized_keys = false ->
                   dict_get key d = dict_get key service.
Proof.
  unfold normalize_service. intros E.
  apply bind_ok in E. destruct E as (d1 & E1 & E).
  apply bind_ok in E. destruct E as (d2 & E2 & E).
  apply bind_ok in E. destruct E as (d3 & E3 & E).
  apply bind_ok in E. destruct E as (d4 & E4 & E).
  apply bind_ok in E. destruct E as (d5 & E5 & E).
  apply bind_ok in E. destruct E as (d6 & E6 & E).
  apply bind_ok in E. destruct E as (d7 & E7 & E).
  apply bind_ok in E. destruct E as (d8 & E8 & [= <-]).
  exists d8. split; [reflexivity|].
  change (rewrites normalized_keys service d8).
  eapply rewrites_trans;
    [apply (normalized_one "build" eq_refl), norm_build_rewrites|].
  eapply rewrites_trans;
    [apply (normalized_one "build" eq_refl), (norm_build_context_rewrites _ _ _ E1)|].
  eapply rewrites_trans;
    [apply (normalized_one "build" eq_refl), (norm_additional_contexts_rewrites _ _ E2)|].
  eapply rewrites_trans;
    [apply (normalized_one "command" eq_refl), (norm_tokenize_rewrites _ _ _ E3)|].
  eapply rewrites_trans;
    [apply (normalized_one "entrypoint" eq_refl), (norm_tokenize_rewrites _ _ _ E4)|].
  eapply rewrites_trans;
    [apply (normalized_one "env_file" eq_refl), norm_as_sequence_rewrites|].
  eapply rewrites_trans;
    [apply (normalized_one "security_opt" eq_refl), norm_as_sequence_rewrites|].
  eapply rewrites_trans;
    [apply (normalized_one "volumes" eq_refl), norm_as_sequence_rewrites|].
  eapply rewrites_trans;
    [apply (normalized_one "security_opt" eq_refl), (norm_security_opt_rewrites _ _ E5)|].
  eapply rewrites_trans;
    [apply (normalized_one "environment" eq_refl), (norm_mapping_rewrites _ _ _ E6)|].
  eapply rewrites_trans;
    [apply (normalized_one "labels" eq_refl), (norm_mapping_rewrites _ _ _ E7)|].
  eapply rewrites_trans;
    [apply (normalized_one "extends" eq_refl), norm_extends_rewrites|].
  apply (normalized_one "depends_on" eq_refl), (norm_depends_on_rewrites _ _ E8).
Qed.

(** X15 -- [norm_as_list] and [norm_as_dict] are inverse on a mapping
    whose values are strings or [None] and whose keys are not empty and
    hold no [=]: the list form of an environment read back gives the
    environment. *)
Theorem norm_as_dict_of_list (d : dict) :
  env_like d = true ->
  norm_as_dict (VList (norm_as_list (VDict d))) = Ok (VDict d).
Proof.
  unfold env_like. intros E. apply andb_true_iff in E. destruct E as [N F].
  apply nodupb_NoDup in N. rewrite forallb_forall in F.
  cbn [norm_as_list norm_as_dict].
  set (f := fun kv : string * pyval =>
              match snd kv with
              | VNone => VStr (fst kv)
              | v => VStr (fst kv ++ "=" ++ py_str v)
              end).
  assert (T : filter truthy (map f d) = map f d).
  { clear N. induction d as [|[k v] d IH]; [reflexivity|].
    cbn [map filter]. rewrite IH by (intros x Hx; apply F; right; exact Hx).
    specialize (F (k, v) (or_introl eq_refl)). cbn [fst snd] in F.
    apply andb_true_iff in F. destruct F as [F V].
    apply andb_true_iff in F. destruct F as [_ K].
    destruct v; try discriminate; unfold f; cbn [fst snd truthy].
    - rewrite K. reflexivity.
    - destruct k; [discriminate|reflexivity]. }
  rewrite T.
  assert (M : mapM (fun i => match i with
                             | VStr i => Ok (split_key_value i)
                             | _ => Raise AttributeError
                             end) (map f d) = Ok d).
  { clear N T. induction d as [|[k v] d IH]; [reflexivity|].
    cbn [map mapM]. rewrite IH by (intros x Hx; apply F; right; exact Hx).
    specialize (F (k, v) (or_introl eq_refl)). cbn [fst snd] in F.
    apply andb_true_iff in F. destruct F as [F V].
    apply andb_true_iff in F. destruct F as [Q _]. apply negb_true_iff in Q.
    destruct v; try discriminate; unfold f; cbn [fst snd py_str].
    - rewrite split_key_value_bare by exact Q. reflexivity.
    - rewrite split_key_value_pair by exact Q. reflexivity. }
  rewrite M. cbn [bind]. rewrite dict_update_new by exact N. reflexivity.
Qed.

End WithHost.

Lemma normalize_service_frame_witness :
  exists d,
    VDict [("image", VStr "app"); ("command", VList [VStr "sleep"; VStr "1"]);
           ("ports", VList [VStr "80"]);
           ("depends_on", VDict [("db", VDict [("condition", VStr "service_started")])])]
    = VDict d
    /\ keys d = ["image"; "command"; "ports"; "depends_on"]
    /\ forall key, str_in key normalized_keys = false ->
                   dict_get key d
                   = dict_get key [("image", VStr "app"); ("command", VStr "sleep 1");
                                   ("ports", VList [VStr "80"]);
                                   ("depends_on", VStr "db")].
Proof.
  apply (@normalize_service_frame bare_host
           [("image", VStr "app"); ("command", VStr "sleep 1");
            ("ports", VList [VStr "80"]); ("depends_on", VStr "db")] "").
  reflexivity.
Defined.

Lemma norm_as_dict_of_list_witness :
  @norm_as_list bare_host (VDict [("A", VStr "1=2"); ("B", VNone); ("C", VStr "")])
  = [VStr "A=1=2"; VStr "B"; VStr "C="]
  /\ norm_as_dict (VList [VStr "A=1=2"; VStr "B"; VStr "C="])
     = Ok (VDict [("A", VStr "1=2"); ("B", VNone); ("C", VStr "")]).
Proof.
  split; [reflexivity|].
  apply (@norm_as_dict_of_list bare_host [("A", VStr "1=2"); ("B", VNone); ("C", VStr "")]).
  reflexivity.
Defined.

End NormalizeLaws.

(** ** Normalising twice *)

Module StepsFacts.
Import NormalizeFacts NormalizeLaws.

Lemma keyed_rewrites (k : string) (f : pyval -> result pyval) (d d' : dict) :
  keyed k f d = Ok d' ->
  forall key, String.eqb key k = false -> dict_get key d' = dict_get key d.
Proof.
  unfold keyed. destruct (dict_get k d) as [v|] eqn:G.
  - intros E key N. apply bind_ok in E. destruct E as (v' & _ & E). injection E as <-.
    rewrite dict_get_set, N. reflexivity.
  - intros E. injection E as <-. reflexivity.
Qed.

Lemma keyed_establishes (k : string) (f : pyval -> result pyval) (P : pyval -> Prop)
  (d d' : dict) :
  (forall v v', f v = Ok v' -> P v') -> keyed k f d = Ok d' -> at_key k P d'.
Proof.
  intros F. unfold keyed, at_key. destruct (dict_get k d) as [v|] eqn:G.
  - intros E w. apply bind_ok in E. destruct E as (v' & V & E). injection E as <-.
    rewrite dict_get_set, String.eqb_refl. intros W. injection W as <-. apply (F _ _ V).
  - intros E. injection E as <-. intros w W. congruence.
Qed.

Lemma keyed_preserves (k : string) (f : pyval -> result pyval) (P : pyval -> Prop)
  (d d' : dict) :
  (forall v v', P v -> f v = Ok v' -> P v') ->
  at_key k P d -> keyed k f d = Ok d' -> at_key k P d'.
Proof.
  intros F A. unfold keyed, at_key in *. destruct (dict_get k d) as [v|] eqn:G.
  - intros E w. apply bind_ok in E. destruct E as (v' & V & E). injection E as <-.
    rewrite dict_get_set, String.eqb_refl. intros W. injection W as <-.
    apply (F v _ (A _ eq_refl) V).
  - intros E. injection E as <-. intros w W. congruence.
Qed.

Lemma keyed_stable (k : string) (f : pyval -> result pyval) (d : dict) :
  at_key k (fixed f) d -> keyed k f d = Ok d.
Proof.
  unfold at_key, keyed, fixed. intros A. destruct (dict_get k d) as [v|] eqn:G; [|reflexivity].
  rewrite (A _ eq_refl). cbn [bind]. rewrite (dict_set_same _ _ _ G). reflexivity.
Qed.

Lemma at_key_other (k key : string) (f : pyval -> result pyval) (P : pyval -> Prop)
  (d d' : dict) :
  String.eqb key k = false -> keyed k f d = Ok d' -> at_key key P d -> at_key key P d'.
Proof.
  intros N E A v. rewrite (keyed_rewrites _ _ _ _ E key N). apply A.
Qed.

Section WithHost.
Context `{Host}.

(** *** Each step is a keyed step *)

Ltac back E := refine (at_key_other _ _ _ _ _ _ _ E _); [reflexivity|].

Ltac keep L E := refine (keyed_preserves _ _ _ _ _ L _ E).

Ltac made L E := exact (keyed_establishes _ _ _ _ _ L E).

Ltac same G := rewrite (dict_set_same _ _ _ G); reflexivity.

Lemma norm_build_keyed (d : dict) : Ok (norm_build d) = keyed "build" build_of d.
Proof.
  unfold norm_build, keyed. destruct (dict_get "build" d) as [v|] eqn:G; [|reflexivity].
  destruct v; cbn [build_of bind]; try same G; reflexivity.
Qed.

Lemma norm_build_context_keyed (sub_dir : string) (d : dict) :
  norm_build_context sub_dir d = keyed "build" (build_context_of sub_dir) d.
Proof.
  unfold norm_build_context, keyed, build_context_of.
  destruct (dict_get "build" d) as [v|] eqn:G;
    destruct (String.eqb sub_dir ""); cbn [bind]; try same G; try reflexivity.
  destruct v; try reflexivity.
  destruct (match dict_get "context" items with Some c => c | None => VStr "" end);
    reflexivity.
Qed.

Lemma norm_additional_contexts_keyed (d : dict) :
  norm_additional_contexts d = keyed "build" additional_contexts_of d.
Proof.
  unfold norm_additional_contexts, keyed, additional_contexts_of.
  destruct (dict_get "build" d) as [v|] eqn:G; [|reflexivity].
  destruct v; try reflexivity;
    try (destruct (py_in "additional_contexts" _) as [[]|]; cbn [bind];
         try same G; reflexivity).
  destruct (dict_get "additional_contexts" items) as [[]|]; cbn [bind];
    try same G; reflexivity.
Qed.

Lemma norm_tokenize_keyed (key : string) (d : dict) :
  norm_tokenize key d = keyed key tokens_of d.
Proof.
  unfold norm_tokenize, keyed, tokens_of.
  destruct (dict_get key d) as [v|] eqn:G; [|reflexivity].
  destruct v; cbn [bind]; try same G.
  destruct (shlex_split s); reflexivity.
Qed.

Lemma norm_as_sequence_keyed (key : string) (d : dict) :
  Ok (norm_as_sequence key d) = keyed key sequence_of d.
Proof.
  unfold norm_as_sequence, keyed. destruct (dict_get key d) as [v|] eqn:G; [|reflexivity].
  destruct v; cbn [sequence_of bind]; try same G; reflexivity.
Qed.

Lemma norm_security_opt_keyed (d : dict) :
  norm_security_opt d = keyed "security_opt" security_opt_of d.
Proof.
  unfold norm_security_opt, keyed, security_opt_of.
  destruct (dict_get "security_opt" d) as [v|] eqn:G; [|reflexivity].
  destruct v; try reflexivity.
  - destruct (existsb _ items); cbn [bind]; try same G; reflexivity.
  - destruct (existsb unconfined elems); cbn [bind]; try same G; reflexivity.
Qed.

Lemma norm_mapping_keyed (key : string) (d : dict) :
  norm_mapping key d = keyed key norm_as_dict d.
Proof. reflexivity. Qed.

Lemma norm_extends_keyed (d : dict) : Ok (norm_extends d) = keyed "extends" extends_of d.
Proof.
  unfold norm_extends, keyed. destruct (dict_get "extends" d) as [v|] eqn:G; [|reflexivity].
  destruct v; cbn [extends_of bind]; try same G; reflexivity.
Qed.

Lemma norm_depends_on_keyed (d : dict) :
  norm_depends_on d = keyed "depends_on" depends_on_of d.
Proof.
  unfold norm_depends_on, keyed, depends_on_of.
  destruct (dict_get "depends_on" d) as [v|]; [|reflexivity].
  match goal with
  | |- bind ?c _ = bind (bind ?c _) _ => destruct c as [a|]; [|reflexivity]
  end.
  cbn [bind]. destruct (mapM _ a); reflexivity.
Qed.

(** *** What each step leaves is left as it is by the step *)

Lemma build_of_fixed (v v' : pyval) : build_of v = Ok v' -> fixed build_of v'.
Proof. destruct v; intros E; injection E as <-; reflexivity. Qed.

Lemma not_str_fixed (v : pyval) :
  isinstance v t_str = false -> fixed build_of v /\ fixed sequence_of v.
Proof. destruct v; try discriminate; split; reflexivity. Qed.

Lemma build_context_of_keeps (sub_dir : string) (v v' : pyval) :
  fixed build_of v -> build_context_of sub_dir v = Ok v' -> fixed build_of v'.
Proof.
  unfold build_context_of. destruct (String.eqb sub_dir "").
  - intros F E. injection E as <-. exact F.
  - intros _. destruct v; try discriminate.
    destruct (match dict_get "context" items with Some c => c | None => VStr "" end);
      try discriminate.
    intros E. injection E as <-. reflexivity.
Qed.

Lemma additional_contexts_of_keeps (v v' : pyval) :
  fixed build_of v -> additional_contexts_of v = Ok v' -> fixed build_of v'.
Proof.
  unfold additional_contexts_of. intros F.
  destruct v; try (intros E; apply bind_ok in E; destruct E as ([] & _ & E);
                   [discriminate | injection E as <-; exact F]).
  destruct (dict_get "additional_contexts" items) as [[]|]; intros E; injection E as <-;
    reflexivity.
Qed.

Lemma additional_contexts_of_fixed (v v' : pyval) :
  additional_contexts_of v = Ok v' -> fixed additional_contexts_of v'.
Proof.
  unfold fixed, additional_contexts_of.
  destruct v;
    try (intros E; apply bind_ok in E; destruct E as ([] & P & E);
         [discriminate | injection E as <-; rewrite P; reflexivity]).
  destruct (dict_get "additional_contexts" items) as [[]|] eqn:G; intros E;
    injection E as <-; rewrite ?G; try reflexivity.
  rewrite dict_get_set. reflexivity.
Qed.

Lemma tokens_of_fixed (v v' : pyval) : tokens_of v = Ok v' -> fixed tokens_of v'.
Proof.
  unfold tokens_of. destruct v; try (intros E; injection E as <-; reflexivity).
  intros E. apply bind_ok in E. destruct E as (ws & _ & E). injection E as <-. reflexivity.
Qed.

Lemma sequence_of_fixed (v v' : pyval) : sequence_of v = Ok v' -> fixed sequence_of v'.
Proof. destruct v; intros E; injection E as <-; reflexivity. Qed.

Lemma replace_colon_confined (item : pyval) :
  unconfined (match item with
              | VStr s => if unconfined item then VStr (replace_colon s) else item
              | _ => item
              end) = false.
Proof.
  destruct item as [| | | |s| | | |]; try reflexivity.
  destruct (unconfined (VStr s)) eqn:U; [|exact U].
  cbn [unconfined str_in existsb] in U. rewrite orb_false_r in U.
  apply orb_true_iff in U. destruct U as [U|U]; apply String.eqb_eq in U; subst s;
    reflexivity.
Qed.

Lemma security_opt_of_keeps (v v' : pyval) :
  fixed sequence_of v -> security_opt_of v = Ok v' -> fixed sequence_of v'.
Proof.
  intros _. unfold security_opt_of. destruct v; try discriminate.
  - intros E. injection E as <-. reflexivity.
  - destruct (existsb _ items); [discriminate|]. intros E. injection E as <-. reflexivity.
  - destruct (existsb unconfined elems); [discriminate|]. intros E. injection E as <-.
    reflexivity.
Qed.

Lemma security_opt_of_fixed (v v' : pyval) :
  security_opt_of v = Ok v' -> fixed security_opt_of v'.
Proof.
  unfold fixed, security_opt_of. destruct v; try discriminate.
  - intros E. injection E as <-. do 2 f_equal.
    rewrite map_map. apply map_ext. intros item.
    pose proof (replace_colon_confined item) as U.
    destruct (match item with
              | VStr s => if unconfined item then VStr (replace_colon s) else item
              | _ => item
              end) as [| | | |s'| | | |]; try reflexivity.
    rewrite U. reflexivity.
  - destruct (existsb _ items) eqn:X; [discriminate|]. intros E. injection E as <-.
    rewrite X. reflexivity.
  - destruct (existsb unconfined elems) eqn:X; [discriminate|]. intros E. injection E as <-.
    rewrite X. reflexivity.
Qed.

Lemma norm_as_dict_fixed (v v' : pyval) : norm_as_dict v = Ok v' -> fixed norm_as_dict v'.
Proof.
  unfold norm_as_dict. destruct v; try discriminate;
    try (intros E; injection E as <-; reflexivity);
    intros E; apply bind_ok in E; destruct E as (dst & _ & E); injection E as <-;
    reflexivity.
Qed.

Lemma extends_of_fixed (v v' : pyval) : extends_of v = Ok v' -> fixed extends_of v'.
Proof. destruct v; intros E; injection E as <-; reflexivity. Qed.

Lemma setdefault_condition_fixed (v v' : pyval) :
  setdefault_condition v = Ok v' -> setdefault_condition v' = Ok v'.
Proof.
  unfold setdefault_condition. destruct v; try discriminate.
  destruct (dict_mem "condition" items) eqn:M; intros E; injection E as <-.
  - rewrite M. reflexivity.
  - unfold dict_mem. rewrite dict_get_set. reflexivity.
Qed.

Lemma depends_on_of_fixed (v v' : pyval) : depends_on_of v = Ok v' -> fixed depends_on_of v'.
Proof.
  unfold fixed, depends_on_of at 1. intros E.
  apply bind_ok in E. destruct E as (deps & _ & E).
  apply bind_ok in E. destruct E as (deps' & M & E). injection E as <-.
  unfold depends_on_of. cbn [isinstance type pytype_eqb orb andb is_list negb bind].
  assert (F : mapM (fun kv => v <- setdefault_condition (snd kv) ;; Ok (fst kv, v)) deps'
              = Ok deps').
  { clear v. revert deps' M. induction deps as [|[k x] deps IH]; intros deps' M.
    - injection M as <-. reflexivity.
    - cbn [mapM] in M. apply bind_ok in M. destruct M as ([k' x'] & X & M).
      apply bind_ok in X. destruct X as (y & Y & X). injection X as <- <-.
      apply bind_ok in M. destruct M as (rest & R & M). injection M as <-.
      cbn [mapM fst snd]. rewrite (setdefault_condition_fixed _ _ Y). cbn [bind].
      rewrite (IH _ R). reflexivity. }
  rewrite F. reflexivity.
Qed.

(** A mapping that [normalize_service] has normalised is left as it is by
    a second pass. *)
Lemma normalize_dict_twice (service : dict) (sub_dir : string) (r : pyval) :
  normalize_service (VDict service) sub_dir = Ok r ->
  normalize_service r "" = Ok r.
Proof.
  unfold normalize_service at 1. intros E.
  apply bind_ok in E. destruct E as (d2 & E2 & E).
  apply bind_ok in E. destruct E as (d3 & E3 & E).
  apply bind_ok in E. destruct E as (d4 & E4 & E).
  apply bind_ok in E. destruct E as (d5 & E5 & E).
  apply bind_ok in E. destruct E as (d9 & E9 & E).
  apply bind_ok in E. destruct E as (d10 & E10 & E).
  apply bind_ok in E. destruct E as (d11 & E11 & E).
  apply bind_ok in E. destruct E as (d13 & E13 & [= <-]).
  remember (norm_build service) as d1 eqn:E1.
  remember (norm_as_sequence "env_file" d5) as d6 eqn:E6.
  remember (norm_as_sequence "security_opt" d6) as d7 eqn:E7.
  remember (norm_as_sequence "volumes" d7) as d8 eqn:E8.
  remember (norm_extends d11) as d12 eqn:E12.
  apply (f_equal (@Ok dict)) in E1, E6, E7, E8, E12.
  rewrite norm_build_keyed in E1. rewrite norm_build_context_keyed in E2.
  rewrite norm_additional_contexts_keyed in E3.
  rewrite norm_tokenize_keyed in E4, E5.
  rewrite norm_as_sequence_keyed in E6, E7, E8.
  rewrite norm_security_opt_keyed in E9.
  rewrite norm_mapping_keyed in E10, E11.
  rewrite norm_extends_keyed in E12. rewrite norm_depends_on_keyed in E13.
  symmetry in E1, E6, E7, E8, E12.
  (* what the steps establish, carried to the end *)
  assert (B1 : at_key "build" (fixed build_of) d13).
  { back E13. back E12. back E11. back E10. back E9. back E8. back E7. back E6.
    back E5. back E4. keep additional_contexts_of_keeps E3.
    keep (build_context_of_keeps sub_dir) E2. made build_of_fixed E1. }
  assert (B3 : at_key "build" (fixed additional_contexts_of) d13).
  { back E13. back E12. back E11. back E10. back E9. back E8. back E7. back E6.
    back E5. back E4. made additional_contexts_of_fixed E3. }
  assert (C : at_key "command" (fixed tokens_of) d13).
  { back E13. back E12. back E11. back E10. back E9. back E8. back E7. back E6.
    back E5. made tokens_of_fixed E4. }
  assert (P : at_key "entrypoint" (fixed tokens_of) d13).
  { back E13. back E12. back E11. back E10. back E9. back E8. back E7. back E6.
    made tokens_of_fixed E5. }
  assert (F : at_key "env_file" (fixed sequence_of) d13).
  { back E13. back E12. back E11. back E10. back E9. back E8. back E7.
    made sequence_of_fixed E6. }
  assert (S7 : at_key "security_opt" (fixed sequence_of) d13).
  { back E13. back E12. back E11. back E10. keep security_opt_of_keeps E9.
    back E8. made sequence_of_fixed E7. }
  assert (S9 : at_key "security_opt" (fixed security_opt_of) d13).
  { back E13. back E12. back E11. back E10. made security_opt_of_fixed E9. }
  assert (V : at_key "volumes" (fixed sequence_of) d13).
  { back E13. back E12. back E11. back E10. back E9. made sequence_of_fixed E8. }
  assert (N : at_key "environment" (fixed norm_as_dict) d13).
  { back E13. back E12. back E11. made norm_as_dict_fixed E10. }
  assert (L : at_key "labels" (fixed norm_as_dict) d13).
  { back E13. back E12. made norm_as_dict_fixed E11. }
  assert (X : at_key "extends" (fixed extends_of) d13).
  { back E13. made extends_of_fixed E12. }
  assert (D : at_key "depends_on" (fixed depends_on_of) d13).
  { made depends_on_of_fixed E13. }
  (* the second pass *)
  apply keyed_stable in B1, B3, C, P, F, S7, S9, V, N, L, X, D.
  rewrite <- norm_build_keyed in B1. injection B1 as B1.
  rewrite <- norm_additional_contexts_keyed in B3.
  rewrite <- norm_tokenize_keyed in C, P.
  rewrite <- norm_as_sequence_keyed in F, S7, V. injection F as F. injection S7 as S7.
  injection V as V.
  rewrite <- norm_security_opt_keyed in S9.
  rewrite <- norm_mapping_keyed in N, L.
  rewrite <- norm_extends_keyed in X. injection X as X.
  rewrite <- norm_depends_on_keyed in D.
  unfold normalize_service. rewrite B1. cbn [norm_build_context String.eqb bind].
  rewrite B3. cbn [bind]. rewrite C. cbn [bind]. rewrite P. cbn [bind].
  rewrite F, S7, V, S9. cbn [bind]. rewrite N. cbn [bind]. rewrite L. cbn [bind].
  rewrite X, D. reflexivity.
Qed.

Lemma normalize_service_twice (service : pyval) (sub_dir : string) (r : pyval) :
  normalize_service service sub_dir = Ok r -> normalize_service r "" = Ok r.
Proof.
  destruct service as [| | | |s|l|d|l|]; try discriminate.
  - cbn [normalize_service]. destruct (existsb _ normalized_keys) eqn:X; [discriminate|].
    intros E. injection E as <-. cbn [normalize_service]. rewrite X. reflexivity.
  - cbn [normalize_service]. destruct (existsb _ l) eqn:X; [discriminate|].
    intros E. injection E as <-. cbn [normalize_service]. rewrite X. reflexivity.
  - apply normalize_dict_twice.
  - cbn [normalize_service]. destruct (existsb _ l) eqn:X; [discriminate|].
    intros E. injection E as <-. cbn [normalize_service]. rewrite X. reflexivity.
Qed.

Lemma normalize_services_twice (services services' : dict) :
  mapM (fun kv => v <- normalize_service (snd kv) "" ;; Ok (fst kv, v)) services
  = Ok services' ->
  mapM (fun kv => v <- normalize_service (snd kv) "" ;; Ok (fst kv, v)) services'
  = Ok services'.
Proof.
  revert services'. induction services as [|[k x] services IH]; intros services' E.
  - injection E as <-. reflexivity.
  - cbn [mapM] in E. apply bind_ok in E. destruct E as ([k' y] & Y & E).
    apply bind_ok in Y. destruct Y as (z & Z & Y). injection Y as <- <-.
    apply bind_ok in E. destruct E as (rest & R & E). injection E as <-.
    cbn [mapM fst snd]. rewrite (normalize_service_twice _ _ _ Z). cbn [bind].
    rewrite (IH _ R). reflexivity.
Qed.

(** X16 -- [normalize_service] and [normalize] are idempotent: a service
    that has been normalised, under any sub-directory, is left as it is
    when it is normalised again in place, and so is a document. *)
Theorem normalize_idempotent :
  (forall (service : pyval) (sub_dir : string) (r : pyval),
      normalize_service service sub_dir = Ok r -> normalize_service r "" = Ok r)
  /\ (forall compose r : pyval, normalize compose = Ok r -> normalize r = Ok r).
Proof.
  split; [exact normalize_service_twice|].
  intros compose r. unfold normalize at 1.
  destruct compose as [| | | | | |c| |]; try discriminate.
  destruct (dict_get "services" c) as [services|] eqn:G.
  - destruct services as [| | | | | |services| |]; try discriminate.
    intros E. apply bind_ok in E. destruct E as (services' & M & E). injection E as <-.
    unfold normalize. rewrite dict_get_set. cbn [String.eqb Ascii.eqb Bool.eqb].
    rewrite (normalize_services_twice _ _ M). cbn [bind].
    rewrite dict_set_same; [reflexivity|].
    rewrite dict_get_set. reflexivity.
  - intros E. injection E as <-. unfold normalize. rewrite G. reflexivity.
Qed.

End WithHost.

Lemma normalize_idempotent_witness :
  let service := [("build", VStr "./app"); ("command", VStr "sleep 1");
                  ("security_opt", VStr "seccomp:unconfined");
                  ("environment", VList [VStr "A=1"; VStr "B"]);
                  ("extends", VStr "base"); ("depends_on", VList [VStr "db"])] in
  let r := VDict [("build", VDict [("context", VStr "sub/app")]);
                  ("command", VList [VStr "sleep"; VStr "1"]);
                  ("security_opt", VList [VStr "seccomp=unconfined"]);
                  ("environment", VDict [("A", VStr "1"); ("B", VNone)]);
                  ("extends", VDict [("service", VStr "base")]);
                  ("depends_on",
                   VDict [("db", VDict [("condition", VStr "service_started")])])] in
  let compose := VDict [("version", VStr "3");
                        ("services", VDict [("web", VDict service); ("db", VDict [])])] in
  (@normalize_service bare_host (VDict service) "sub" = Ok r
   /\ @normalize_service bare_host r "" = Ok r)
  /\ exists c, @normalize bare_host compose = Ok c /\ @normalize bare_host c = Ok c.
Proof.
  intros service r compose. split.
  - split; [reflexivity|].
    apply (proj1 (@normalize_idempotent bare_host) (VDict service) "sub"). reflexivity.
  - eexists. split; [reflexivity|].
    apply (proj2 (@normalize_idempotent bare_host) compose). reflexivity.
Defined.

End StepsFacts.

(** ** The dependency graph builder: what an expansion keeps *)

Module DepsLaws.
Import NormalizeFacts NormalizeLaws.

Lemma grows_refl (services : dict) : grows services services.
Proof. split; [reflexivity|]. intros s deps G. exists deps. split; [exact G|apply incl_refl]. Qed.

Lemma grows_trans (a b c : dict) : grows a b -> grows b c -> grows a c.
Proof.
  intros [K1 G1] [K2 G2]. split; [congruence|].
  intros s deps G. destruct (G1 _ _ G) as (d1 & D1 & I1).
  destruct (G2 _ _ D1) as (d2 & D2 & I2). exists d2. split; [exact D2|].
  eapply incl_tran; eassumption.
Qed.

Lemma set_add_incl (x : pyval) (s : list pyval) : incl s (set_add x s).
Proof.
  unfold set_add. destruct (existsb (elem_eqb x) s); [apply incl_refl|].
  apply incl_appl, incl_refl.
Qed.

Lemma set_update_incl (s l : list pyval) : incl s (set_update s l).
Proof.
  unfold set_update. revert s. induction l as [|x l IH]; intros s; [apply incl_refl|].
  cbn [fold_left]. eapply incl_tran; [apply set_add_incl|apply IH].
Qed.

Lemma put_deps_get (services services' : dict) (name : string) (deps : list pyval) :
  put_deps services name deps = Ok services' ->
  keys services' = keys services
  /\ get_deps services' name = Ok deps
  /\ forall s, String.eqb s name = false -> get_deps services' s = get_deps services s.
Proof.
  unfold put_deps, getitem. destruct (dict_get name services) as [srv|] eqn:G; [|discriminate].
  cbn [bind]. destruct srv; try discriminate. intros E. injection E as <-. repeat split.
  - apply keys_dict_set. apply (dict_get_mem _ _ _ G).
  - unfold get_deps, getitem. rewrite dict_get_set, String.eqb_refl. cbn [bind py_getitem].
    unfold getitem. rewrite dict_get_set. reflexivity.
  - intros s N. unfold get_deps, getitem. rewrite dict_get_set, N. reflexivity.
Qed.

Lemma put_deps_grows (services services' : dict) (name : string) (deps new : list pyval) :
  get_deps services name = Ok deps ->
  put_deps services name (set_update deps new) = Ok services' ->
  grows services services'.
Proof.
  intros G P. destruct (put_deps_get _ _ _ _ P) as (K & S & O). split; [exact K|].
  intros s ds D. destruct (String.eqb s name) eqn:E.
  - apply String.eqb_eq in E. subst s. rewrite G in D. injection D as <-.
    exists (set_update deps new). split; [exact S|apply set_update_incl].
  - exists ds. rewrite (O _ E). split; [exact D|apply incl_refl].
Qed.

Lemma rec_deps_grows_get (limit : nat) (services : dict) (service_name : string)
  (start_point : option string) (services' : dict) (deps' : list pyval) :
  rec_deps limit services service_name start_point = Ok (services', deps') ->
  grows services services' /\ get_deps services' service_name = Ok deps'.
Proof.
  revert services service_name start_point services' deps'.
  induction limit as [|limit IH]; intros services service_name start_point services' deps';
    [discriminate|].
  cbn [rec_deps]. intros E.
  apply bind_ok in E. destruct E as (deps & _ & E).
  apply bind_ok in E. destruct E as (services1 & F & E).
  apply bind_ok in E. destruct E as (deps1 & D & E). injection E as <- <-.
  split; [|exact D]. clear D deps1.
  revert services F. induction deps as [|dep deps IHl]; intros services F.
  - injection F as <-. apply grows_refl.
  - cbn [foldM] in F. apply bind_ok in F. destruct F as (services2 & B & F).
    apply (grows_trans _ services2); [|apply (IHl _ F)]. clear F IHl.
    apply bind_ok in B. destruct B as (name & _ & B).
    destruct (String.eqb name service_name); [injection B as <-; apply grows_refl|].
    destruct (dict_get name services) as [dep_srv|]; [|injection B as <-; apply grows_refl].
    destruct (negb (truthy dep_srv)); [injection B as <-; apply grows_refl|].
    apply bind_ok in B. destruct B as (dep_deps & _ & B).
    apply bind_ok in B. destruct B as (names & _ & B).
    destruct (str_in _ names); [injection B as <-; apply grows_refl|].
    apply bind_ok in B. destruct B as ([services_a new_deps] & R & B).
    apply bind_ok in B. destruct B as (deps_a & Ga & B).
    destruct (IH _ _ _ _ _ R) as [Gr _].
    apply (grows_trans _ services_a); [exact Gr|].
    apply (put_deps_grows _ _ _ _ _ Ga B).
Qed.

Section WithHost.
Context `{Host}.

(** X17 -- [ServiceDependencyCondition.from_value] reads back the value
    of every condition, and takes the three condition names of
    docker-compose for [healthy], [running] and [stopped]. *)
Theorem from_value_round_trip :
  (forall c, from_value (VStr (condition_value c)) = Ok c)
  /\ from_value (VStr "service_healthy") = Ok HEALTHY
  /\ from_value (VStr "service_started") = Ok RUNNING
  /\ from_value (VStr "service_completed_successfully") = Ok STOPPED.
Proof. split; [intros []; reflexivity|repeat split]. Qed.

(** X18 -- [rec_deps] only adds edges: it keeps the services and their
    order, the edge set of every service holds the edges it had before the
    call, and the set it returns is the one it leaves at the service. *)
Theorem rec_deps_grows (limit : nat) (services : dict) (service_name : string)
  (start_point : option string) (services' : dict) (deps' : list pyval) :
  rec_deps limit services service_name start_point = Ok (services', deps') ->
  keys services' = keys services
  /\ get_deps services' service_name = Ok deps'
  /\ forall s deps, get_deps services s = Ok deps ->
                    exists deps1, get_deps services' s = Ok deps1 /\ incl deps deps1.
Proof.
  intros E. destruct (rec_deps_grows_get _ _ _ _ _ _ E) as [[K G] D].
  split; [exact K|]. split; [exact D|exact G].
Qed.

End WithHost.

Lemma rec_deps_grows_witness :
  let services := [("web", VDict [("_deps", VSet [edge "api"])]);
                   ("api", VDict [("_deps", VSet [edge "db"])]);
                   ("db", VDict [("_deps", VSet [])])] in
  let services' := [("web", VDict [("_deps", VSet [edge "api"; edge "db"])]);
                    ("api", VDict [("_deps", VSet [edge "db"])]);
                    ("db", VDict [("_deps", VSet [])])] in
  rec_deps 5 services "web" None = Ok (services', [edge "api"; edge "db"])
  /\ keys services' = keys services
  /\ get_deps services' "web" = Ok [edge "api"; edge "db"].
Proof.
  intros services services'. split; [reflexivity|].
  destruct (rec_deps_grows 5 services "web" None services' [edge "api"; edge "db"] eq_refl)
    as (K & D & _).
  split; [exact K|exact D].
Defined.

End DepsLaws.

(** ** The dependency graph builder: declared dependencies *)

Module FlatDepsFacts.
Import NormalizeFacts NormalizeLaws DepsLaws.

Lemma declares_set (services : dict) (k key : string) (v : pyval) (d : dict)
  (m dep : string) :
  dict_get k services = Some (VDict d) ->
  String.eqb "depends_on" key = false ->
  declares services m dep ->
  declares (dict_set k (VDict (dict_set key v d)) services) m dep.
Proof.
  intros G N (srv & deps_ls & Gm & D & M). unfold declares.
  rewrite dict_get_set. destruct (String.eqb m k) eqn:E.
  - apply String.eqb_eq in E. subst m. rewrite G in Gm. injection Gm as <-.
    exists (dict_set key v d), deps_ls. rewrite dict_get_set, N. auto.
  - exists srv, deps_ls. auto.
Qed.

Lemma has_edge_set (services : dict) (k key : string) (v : pyval) (d : dict)
  (m dep : string) :
  dict_get k services = Some (VDict d) ->
  String.eqb "_deps" key = false ->
  has_edge services m dep ->
  has_edge (dict_set k (VDict (dict_set key v d)) services) m dep.
Proof.
  intros G N (deps & e & Gd & I & S). exists deps, e. split; [|auto].
  unfold get_deps, getitem in *. rewrite dict_get_set. destruct (String.eqb m k) eqn:E.
  - apply String.eqb_eq in E. subst m. rewrite G in Gd. cbn [bind py_getitem] in *.
    unfold getitem in *. rewrite dict_get_set, N. exact Gd.
  - exact Gd.
Qed.

Lemma has_edge_other (services : dict) (k : string) (x : pyval) (m dep : string) :
  String.eqb m k = false ->
  has_edge services m dep -> has_edge (dict_set k x services) m dep.
Proof.
  intros N (deps & e & Gd & I & S). exists deps, e. split; [|auto].
  unfold get_deps, getitem in *. rewrite dict_get_set, N. exact Gd.
Qed.

Lemma has_edge_grows (services services' : dict) (m dep : string) :
  grows services services' -> has_edge services m dep -> has_edge services' m dep.
Proof.
  intros [_ G] (deps & e & Gd & I & S). destruct (G _ _ Gd) as (deps' & Gd' & Inc).
  exists deps', e. split; [exact Gd'|]. split; [apply Inc, I|exact S].
Qed.

Lemma add_alias_keeps (services services' : dict) (dep_name dep_alias m dep : string) :
  add_alias services dep_name dep_alias = Ok services' ->
  (declares services m dep -> declares services' m dep)
  /\ (has_edge services m dep -> has_edge services' m dep).
Proof.
  unfold add_alias, getitem.
  destruct (dict_get dep_name services) as [srv|] eqn:G; [|discriminate].
  cbn [bind]. destruct srv; try discriminate. intros E.
  apply bind_ok in E. destruct E as (aliases & _ & E). injection E as <-. split.
  - apply declares_set; [exact G|reflexivity].
  - apply has_edge_set; [exact G|reflexivity].
Qed.

Lemma alias_fold_keeps (links_ls : list pyval) (services services' : dict) (m dep : string) :
  foldM (fun services c =>
           has <- contains_colon c ;;
           if has then
             parts <- split_link c ;;
             match parts with
             | [dep_name; dep_alias] => add_alias services dep_name dep_alias
             | _ => Raise (ValueError "too many values to unpack (expected 2)")
             end
           else Ok services)
        links_ls services = Ok services' ->
  (declares services m dep -> declares services' m dep)
  /\ (has_edge services m dep -> has_edge services' m dep).
Proof.
  revert services. induction links_ls as [|c l IH]; intros services E.
  - injection E as <-. auto.
  - cbn [foldM] in E. apply bind_ok in E. destruct E as (s1 & B & E).
    destruct (IH _ E) as [D2 H2].
    assert (K : (declares services m dep -> declares s1 m dep)
                /\ (has_edge services m dep -> has_edge s1 m dep)).
    { apply bind_ok in B. destruct B as (has & _ & B). destruct has.
      - apply bind_ok in B. destruct B as (parts & _ & B).
        destruct parts as [|a [|b [|]]]; try discriminate.
        apply (add_alias_keeps _ _ _ _ _ _ B).
      - injection B as <-. auto. }
    destruct K as [D1 H1]. auto.
Qed.

Lemma mapM_In {A B : Type} (f : A -> result B) (l : list A) (r : list B) (x : A) :
  mapM f l = Ok r -> In x l -> exists y, f x = Ok y /\ In y r.
Proof.
  revert r. induction l as [|a l IH]; intros r E I; [destruct I|].
  cbn [mapM] in E. apply bind_ok in E. destruct E as (y & Y & E).
  apply bind_ok in E. destruct E as (ys & Ys & E). injection E as <-.
  destruct I as [<-|I].
  - exists y. split; [exact Y|left; reflexivity].
  - destruct (IH _ Ys I) as (z & Z & Iz). exists z. split; [exact Z|right; exact Iz].
Qed.

Lemma set_add_named (e : ServiceDependency) (s : list pyval) :
  exists e', In (VDep e') (set_add (VDep e) s) /\ sd_name e' = sd_name e.
Proof.
  unfold set_add. destruct (existsb (elem_eqb (VDep e)) s) eqn:X.
  - apply existsb_exists in X. destruct X as (y & I & Q).
    destruct y; try discriminate. cbn [elem_eqb] in Q.
    apply andb_true_iff in Q. destruct Q as [Q _]. apply String.eqb_eq in Q.
    exists d. split; [exact I|symmetry; exact Q].
  - exists e. split; [apply in_or_app; right; left; reflexivity|reflexivity].
Qed.

Lemma set_update_named (e : ServiceDependency) (s l : list pyval) :
  In (VDep e) l ->
  exists e', In (VDep e') (set_update s l) /\ sd_name e' = sd_name e.
Proof.
  unfold set_update. revert s. induction l as [|x l IH]; intros s I; [destruct I|].
  cbn [fold_left]. destruct I as [->|I]; [|apply (IH _ I)].
  destruct (set_add_named e s) as (e' & I' & N). exists e'. split; [|exact N].
  apply (set_update_incl _ l), I'.
Qed.

Section WithHost.
Context `{Host}.

Lemma edges_named (deps_ls : dict) (edges : list pyval) (dep : string) :
  mapM (fun kv => c <- py_getitem (snd kv) "condition" ;;
                  new_ServiceDependency (fst kv) c) deps_ls = Ok edges ->
  dict_mem dep deps_ls = true ->
  exists e, In (VDep e) edges /\ sd_name e = dep.
Proof.
  intros M D. unfold dict_mem in D.
  destruct (dict_get dep deps_ls) as [v|] eqn:G; [|discriminate].
  apply SubstLaws.dict_get_In_key in G.
  destruct (mapM_In _ _ _ _ M G) as (y & Y & I). cbn [fst snd] in Y.
  apply bind_ok in Y. destruct Y as (c & _ & Y). unfold new_ServiceDependency in Y.
  apply bind_ok in Y. destruct Y as (cond & _ & Y). injection Y as <-.
  exists (mkServiceDependency dep cond). split; [exact I|reflexivity].
Qed.

Lemma seed_deps_keeps (services services' : dict) (n m dep : string) :
  seed_deps false services n = Ok services' ->
  (declares services m dep -> declares services' m dep)
  /\ (String.eqb m n = false -> has_edge services m dep -> has_edge services' m dep)
  /\ (declares services n dep -> has_edge services' n dep).
Proof.
  unfold seed_deps, getitem.
  destruct (dict_get n services) as [srv|] eqn:G; [|discriminate].
  cbn [bind]. destruct srv as [| | | | | |srv0| |]; try discriminate.
  intros E. apply bind_ok in E. destruct E as (edges & De & E).
  apply bind_ok in E. destruct E as (links_ls & _ & E).
  apply bind_ok in E. destruct E as (link_deps & _ & E).
  apply bind_ok in E. destruct E as (s2 & P & E).
  destruct (alias_fold_keeps _ _ _ m dep E) as [Da Ha].
  destruct (alias_fold_keeps _ _ _ n dep E) as [_ Hn].
  set (s1 := dict_set n (VDict (dict_set "_deps" (VSet []) srv0)) services) in *.
  assert (G1 : dict_get n s1 = Some (VDict (dict_set "_deps" (VSet []) srv0))).
  { unfold s1. rewrite dict_get_set, String.eqb_refl. reflexivity. }
  destruct (put_deps_get _ _ _ _ P) as (_ & Gp & Op).
  assert (P' := P). unfold put_deps, getitem in P'. rewrite G1 in P'. cbn [bind] in P'.
  injection P' as P'.
  repeat split.
  - intros D. apply Da. rewrite <- P'.
    apply declares_set; [exact G1|reflexivity|].
    unfold s1. apply declares_set; [exact G|reflexivity|exact D].
  - intros N (deps & e & Gd & I & S). apply Ha. exists deps, e. split; [|auto].
    rewrite (Op _ N). unfold s1, get_deps, getitem in *. rewrite dict_get_set, N. exact Gd.
  - intros (srv & deps_ls & Gs & D & M). rewrite G in Gs. injection Gs as <-.
    apply Hn. unfold depends_on_edges in De. rewrite dict_get_set in De.
    cbn [String.eqb Ascii.eqb Bool.eqb] in De. rewrite D in De.
    destruct (edges_named _ _ _ De M) as (e & I & S).
    destruct (set_update_named e [] edges I) as (e' & I' & S').
    exists (set_update (set_update [] edges) link_deps), e'.
    split; [exact Gp|]. split; [apply set_update_incl, I'|congruence].
Qed.

Lemma seeds_keep (names : list string) (services services' : dict) (name dep : string) :
  foldM (seed_deps false) names services = Ok services' ->
  (declares services name dep -> declares services' name dep)
  /\ (~ In name names -> has_edge services name dep -> has_edge services' name dep)
  /\ (NoDup names -> In name names -> declares services name dep ->
      has_edge services' name dep).
Proof.
  revert services. induction names as [|n names IH]; intros services E.
  - injection E as <-. repeat split; auto. intros _ [].
  - cbn [foldM] in E. apply bind_ok in E. destruct E as (s1 & S & E).
    destruct (IH _ E) as (D2 & O2 & N2).
    destruct (seed_deps_keeps _ _ _ name dep S) as (D1 & O1 & _).
    repeat split.
    + auto.
    + intros NI Hd. apply O2; [intros I; apply NI; right; exact I|].
      apply O1; [|exact Hd]. apply String.eqb_neq. intros ->. apply NI. left. reflexivity.
    + intros ND I D. inversion ND as [|? ? Nn ND']; subst. destruct I as [->|I].
      * apply (O2 Nn). destruct (seed_deps_keeps _ _ _ name dep S) as (_ & _ & X).
        apply X, D.
      * apply (N2 ND' I). apply D1, D.
Qed.

Lemma expansions_grow (limit : nat) (names : list string) (services services' : dict) :
  foldM (fun services name => r <- rec_deps limit services name None ;; Ok (fst r))
        names services = Ok services' ->
  grows services services'.
Proof.
  revert services. induction names as [|n names IH]; intros services E.
  - injection E as <-. apply grows_refl.
  - cbn [foldM] in E. apply bind_ok in E. destruct E as (s1 & R & E).
    apply bind_ok in R. destruct R as ([s d] & R & X). injection X as <-.
    apply (grows_trans _ s); [|apply (IH _ E)].
    apply (rec_deps_grows_get _ _ _ _ _ _ R).
Qed.

(** X19 -- [flat_deps]: every service listed under the [depends_on] of a
    service has an edge in the [_deps] the function leaves at that
    service; the seeding of the other services and the expansions drop no
    declared dependency. *)
Theorem flat_deps_keeps_declared (limit : nat) (services services' : dict)
  (name dep : string) :
  NoDup (keys services) ->
  flat_deps limit services false = Ok services' ->
  declares services name dep ->
  has_edge services' name dep.
Proof.
  intros N E D. unfold flat_deps in E.
  apply bind_ok in E. destruct E as (s1 & S & E).
  apply (has_edge_grows s1); [apply (expansions_grow _ _ _ _ E)|].
  destruct (seeds_keep _ _ _ name dep S) as (_ & _ & X). apply (X N); [|exact D].
  destruct D as (srv & deps_ls & G & _). apply dict_mem_In.
  apply (dict_get_mem _ _ _ G).
Qed.

End WithHost.

Lemma flat_deps_keeps_declared_witness :
  let services := [("web", VDict [("depends_on",
                      VDict [("api", VDict [("condition", VStr "service_healthy")])])]);
                   ("api", on_started "db");
                   ("db", VDict [])] in
  exists services',
    @flat_deps bare_host 5 services false = Ok services'
    /\ has_edge services' "web" "api".
Proof.
  intros services. eexists. split; [reflexivity|].
  apply (@flat_deps_keeps_declared bare_host 5 services _ "web" "api").
  - apply nodupb_NoDup. reflexivity.
  - reflexivity.
  - do 2 eexists. repeat split; reflexivity.
Defined.

End FlatDepsFacts.

(** ** The extension resolver: what it leaves alone *)

Module ExtendsLaws.
Import NormalizeFacts NormalizeLaws.

Section WithHost.
Context `{Host}.

Lemma resolve_step_rewrites (environ services services' : dict) (name : string) :
  (service <- getitem services name ;;
   ext <- py_get service "extends" (VDict []) ;;
   let ext := if isinstance ext t_str then VDict [("service", ext)] else ext in
   from_service_name <- py_get ext "service" VNone ;;
   if negb (truthy from_service_name) then Ok services
   else
     filename <- py_get ext "file" VNone ;;
     from_service <-
       (if truthy filename
        then from_file filename from_service_name environ
        else from_same_file services from_service_name) ;;
     new_service <- rec_merge (VDict []) [from_service; service] ;;
     Ok (dict_set name new_service services)) = Ok services' ->
  rewrites [name] services services'.
Proof.
  unfold getitem. destruct (dict_get name services) as [service|] eqn:G; [|discriminate].
  cbn [bind]. intros E.
  apply bind_ok in E. destruct E as (ext & _ & E). cbv zeta in E.
  apply bind_ok in E. destruct E as (from_service_name & _ & E).
  destruct (negb (truthy from_service_name)); [injection E as <-; apply rewrites_refl|].
  apply bind_ok in E. destruct E as (filename & _ & E).
  apply bind_ok in E. destruct E as (from_service & _ & E).
  apply bind_ok in E. destruct E as (new_service & _ & E). injection E as <-.
  eapply rewrites_set; [|exact G]. cbn. rewrite String.eqb_refl. reflexivity.
Qed.

(** X20 -- [resolve_extends] keeps the services and their order; when no
    service it is asked to resolve extends a base of the same file, it
    leaves every service it is not asked to resolve as it is.  (The copy of
    a same-file base is shallow, and the merge can write into what is
    nested in the base: that case is left out.) *)
Theorem resolve_extends_frame (services : dict) (service_names : list string)
  (environ services' : dict) :
  resolve_extends services service_names environ = Ok services' ->
  keys services' = keys services
  /\ (NoDup service_names ->
      (forall name service,
          In name service_names -> dict_get name services = Some service ->
          same_file_extends service = false) ->
      forall name, str_in name service_names = false ->
                   dict_get name services' = dict_get name services).
Proof.
  unfold resolve_extends. revert services.
  induction service_names as [|n names IH]; intros services E.
  - injection E as <-. split; [reflexivity|]. intros _ _ name _. reflexivity.
  - cbn [foldM] in E. apply bind_ok in E. destruct E as (s1 & S & E).
    apply resolve_step_rewrites in S. destruct S as [K1 G1].
    destruct (IH _ E) as [K2 G2]. split; [congruence|].
    intros ND F name N. cbn [str_in existsb] in N. apply orb_false_iff in N.
    destruct N as [N1 N2]. inversion ND as [|? ? Nn ND']; subst.
    transitivity (dict_get name s1).
    + apply (G2 ND'); [|exact N2].
      intros m service I G. apply (F m service); [right; exact I|].
      rewrite <- G. symmetry. apply G1. cbn [str_in existsb].
      destruct (String.eqb m n) eqn:Q; [|reflexivity].
      apply String.eqb_eq in Q. subst m. contradiction.
    + apply G1. cbn [str_in existsb]. rewrite N1. reflexivity.
Qed.

(** X21 -- [resolve_extends] changes nothing when no service it is asked
    to resolve has an [extends]. *)
Theorem resolve_extends_none (services : dict) (service_names : list string)
  (environ : dict) :
  (forall name, In name service_names ->
                exists service, dict_get name services = Some (VDict service)
                                /\ dict_get "extends" service = None) ->
  resolve_extends services service_names environ = Ok services.
Proof.
  unfold resolve_extends. induction service_names as [|n names IH]; intros F; [reflexivity|].
  cbn [foldM]. destruct (F n (or_introl eq_refl)) as (service & G & X).
  unfold getitem. rewrite G. cbn [bind py_get]. rewrite X.
  cbn [isinstance type pytype_eqb orb andb py_get dict_get bind truthy negb].
  apply IH. intros name I. apply F. right. exact I.
Qed.

End WithHost.

Lemma resolve_extends_frame_witness :
  let host := {| py_repr := fun _ => "<object>";
                 yaml_safe_load := fun filename =>
                   if String.eqb filename "base.yml"
                   then Ok (VDict [("services",
                                    VDict [("base", VDict [("image", VStr "app");
                                                           ("command", VStr "run")])])])
                   else Raise (RuntimeError "FileNotFoundError");
                 shlex_split := fun s => Ok [s];
                 int_of_str := fun _ => None;
                 int_of_float := fun _ => Ok 0%Z |} in
  let services := [("db", VDict [("image", VStr "pg"); ("_deps", VSet [])]);
                   ("web", VDict [("extends", VDict [("service", VStr "base");
                                                     ("file", VStr "base.yml")]);
                                  ("ports", VList [VStr "80"]);
                                  ("_deps", VSet [])])] in
  @resolve_extends host services ["web"] []
  = Ok [("db", VDict [("image", VStr "pg"); ("_deps", VSet [])]);
        ("web", VDict [("image", VStr "app"); ("command", VList [VStr "run"]);
                       ("extends", VDict [("service", VStr "base");
                                          ("file", VStr "base.yml")]);
                       ("ports", VList [VStr "80"]);
                       ("_deps", VSet [])])]
  /\ dict_get "db" [("db", VDict [("image", VStr "pg"); ("_deps", VSet [])]);
                    ("web", VDict [("image", VStr "app"); ("command", VList [VStr "run"]);
                                   ("extends", VDict [("service", VStr "base");
                                                      ("file", VStr "base.yml")]);
                                   ("ports", VList [VStr "80"]);
                                   ("_deps", VSet [])])]
     = dict_get "db" services.
Proof.
  intros host services. split; [reflexivity|].
  apply (proj2 (@resolve_extends_frame host services ["web"] [] _ eq_refl)).
  - apply nodupb_NoDup. reflexivity.
  - intros name service [<-|[]] G. injection G as <-. reflexivity.
  - reflexivity.
Defined.

Lemma resolve_extends_none_witness :
  let services := [("db", VDict [("image", VStr "pg")]);
                   ("web", VDict [("image", VStr "app"); ("depends_on", VStr "db")])] in
  @resolve_extends bare_host services ["web"; "db"] [("TAG", VStr "1")] = Ok services.
Proof.
  intros services. apply (@resolve_extends_none bare_host).
  intros name [<-|[<-|[]]]; eexists; split; reflexivity.
Defined.

End ExtendsLaws.

(** ** The container list: ties and names *)

Module ContainersLaws.
Import NormalizeFacts NormalizeLaws ContainersFacts.

Lemma insert_by_key_filter {A : Type} (n k : nat) (x : A) (l : list (nat * A)) :
  filter (fun kx => (fst kx =? n)%nat) (insert_by_key k x l)
  = if (k =? n)%nat then (k, x) :: filter (fun kx => (fst kx =? n)%nat) l
    else filter (fun kx => (fst kx =? n)%nat) l.
Proof.
  induction l as [|[k' y] l IH]; cbn [insert_by_key].
  - cbn [filter fst]. destruct (k =? n)%nat; reflexivity.
  - destruct (k <=? k')%nat eqn:L.
    + cbn [filter fst]. destruct (k =? n)%nat; reflexivity.
    + cbn [filter fst]. rewrite IH.
      destruct (k =? n)%nat eqn:E; [|reflexivity].
      apply Nat.eqb_eq in E. subst n. apply Nat.leb_gt in L.
      assert (X : (k' =? k)%nat = false) by (apply Nat.eqb_neq; lia).
      rewrite X. reflexivity.
Qed.

(** The sort is stable: the items of one key keep their order. *)
Lemma sort_by_key_stable {A : Type} (n : nat) (l : list (nat * A)) :
  filter (fun kx => (fst kx =? n)%nat) (sort_by_key l)
  = filter (fun kx => (fst kx =? n)%nat) l.
Proof.
  induction l as [|[k x] l IH]; [reflexivity|].
  cbn [sort_by_key fold_right fst snd]. fold (sort_by_key l).
  rewrite insert_by_key_filter, IH. cbn [filter fst].
  destruct (k =? n)%nat; reflexivity.
Qed.

Lemma filter_keyed (n : nat) (keyed : list (nat * dict)) :
  Forall (fun kc => deps_size (snd kc) = fst kc) keyed ->
  filter (fun c => (deps_size c =? n)%nat) (map snd keyed)
  = map snd (filter (fun kc => (fst kc =? n)%nat) keyed).
Proof.
  induction 1 as [|kc l Hk Hl IH]; [reflexivity|].
  cbn [map filter]. rewrite Hk, IH. destruct (fst kc =? n)%nat; reflexivity.
Qed.

Lemma filter_pod (n : nat) (pod : pyval) (l : list dict) :
  filter (fun c => (deps_size c =? n)%nat) (map (dict_set "pod" pod) l)
  = map (dict_set "pod" pod) (filter (fun c => (deps_size c =? n)%nat) l).
Proof.
  induction l as [|c l IH]; [reflexivity|].
  cbn [map filter]. rewrite deps_size_pod, IH.
  destruct (deps_size c =? n)%nat; reflexivity.
Qed.





(** X22 -- the container list keeps, among the containers with the same
    number of dependencies, the order in which [given_containers] first
    names them: the sort on the size of [_deps] is stable. *)
Theorem order_containers_stable (in_pod_bool : bool) (project_name : string)
  (given pods containers : list dict) :
  order_containers in_pod_bool project_name given = Ok (pods, containers) ->
  exists named,
    by_name given = Ok named
    /\ forall n,
         filter (fun c => (deps_size c =? n)%nat) containers
         = filter (fun c => (deps_size c =? n)%nat)
                  (snd (transform in_pod_bool project_name (map snd named))).
Proof.
  unfold order_containers. intros E.
  apply bind_ok in E. destruct E as (named & En & E).
  apply bind_ok in E. destruct E as (keyed & Ek & E).
  unfold transform in E. injection E as <- <-.
  apply keyed_sizes in Ek. destruct Ek as [Ek1 Ek2].
  exists named. split; [exact En|]. intros n. unfold transform. cbn [snd].
  rewrite !filter_pod. f_equal.
  rewrite filter_keyed.
  - rewrite sort_by_key_stable, <- filter_keyed by exact Ek2. rewrite Ek1. reflexivity.
  - eapply Permutation_Forall; [symmetry; apply sort_by_key_perm|exact Ek2].
Qed.


Lemma order_containers_stable_witness :
  let c (name : string) (deps : list pyval) : dict :=
    [("name", VStr name); ("_deps", VSet deps)] in
  let p (name : string) (deps : list pyval) : dict :=
    [("name", VStr name); ("_deps", VSet deps); ("pod", VNone)] in
  let given := [c "web" [edge "db"]; c "db" []; c "api" [edge "db"]; c "cache" []] in
  order_containers false "p" given
  = Ok ([], [p "db" []; p "cache" []; p "web" [edge "db"]; p "api" [edge "db"]])
  /\ exists named,
       by_name given = Ok named
       /\ forall n,
            filter (fun c => (deps_size c =? n)%nat)
                   [p "db" []; p "cache" []; p "web" [edge "db"]; p "api" [edge "db"]]
            = filter (fun c => (deps_size c =? n)%nat)
                     (snd (transform false "p" (map snd named))).
Proof.
  intros c p given. split; [reflexivity|].
  apply (order_containers_stable false "p" given []). reflexivity.
Defined.


End ContainersLaws.

(** ** Ports and short mounts *)

Module ArgsFacts.
Import NormalizeLaws.

Section WithHost.
Context `{Host}.

Lemma ports_of_strings (l : list string) :
  mapM (fun port =>
          match port with
          | VDict d => port_dict_to_str d
          | VInt _ | VBool _ => Ok (py_str port)
          | VStr s => Ok s
          | _ => Raise TypeError
          end) (map VStr l) = Ok l.
Proof.
  induction l as [|s l IH]; [reflexivity|].
  cbn [map mapM bind]. rewrite IH. reflexivity.
Qed.

(** X24 -- [norm_ports] leaves a list of strings as it is, so that what it
    returns, a list of strings, is a port list it does not change
    again. *)
Theorem norm_ports_strings (ports : list string) :
  norm_ports (VList (map VStr ports)) = Ok ports.
Proof.
  unfold norm_ports. destruct ports as [|p l]; [reflexivity|].
  cbn [map truthy negb isinstance type pytype_eqb orb andb py_iter bind].
  apply (ports_of_strings (p :: l)).
Qed.

End WithHost.

End ArgsFacts.

Module MountsFacts.
Import NormalizeLaws.

Lemma dict_get_update_none {A : Type} (key : string) (a b : list (string * A)) :
  dict_get key b = None -> dict_get key (dict_update a b) = dict_get key a.
Proof.
  unfold dict_update. revert a. induction b as [|[k v] b IH]; intros a; [reflexivity|].
  cbn [dict_get fold_left fst snd]. destruct (String.eqb key k) eqn:E; [discriminate|].
  intros G. rewrite (IH _ G), NormalizeFacts.dict_get_set, E. reflexivity.
Qed.

Lemma mount_options_target (mount_opts : list string) (d d' : dict) (p p' : list string) :
  mount_options mount_opts d p = Ok (d', p') ->
  dict_get "target" d = None -> dict_get "target" d' = None.
Proof.
  revert d p. induction mount_opts as [|opt rest IH]; intros d p.
  - cbn [mount_options]. intros E. injection E as <- _. auto.
  - cbn [mount_options].
    destruct (String.eqb opt "ro");
      [intros E T; apply (IH _ _ E); rewrite NormalizeFacts.dict_get_set; exact T|].
    destruct (String.eqb opt "rw");
      [intros E T; apply (IH _ _ E); rewrite NormalizeFacts.dict_get_set; exact T|].
    destruct (str_in opt ["consistent"; "delegated"; "cached"]);
      [intros E T; apply (IH _ _ E); rewrite NormalizeFacts.dict_get_set; exact T|].
    destruct (propagation_re_match opt); [apply IH|discriminate].
Qed.


Lemma unknown_option_not_parse (opt mount_str : string) :
  ValueError ("unknown mount option " ++ opt)
  <> ValueError ("could not parse mount " ++ mount_str).
Proof. cbn [append]. discriminate. Qed.

Section WithPlatform.
Context `{Platform}.

Ltac run_options M :=
  match goal with
  | |- context [mount_options ?o [] []] =>
      destruct (mount_options o [] []) as [[? ?]|?] eqn:M
  | E : context [mount_options ?o [] []] |- _ =>
      destruct (mount_options o [] []) as [[? ?]|?] eqn:M
  end.


Lemma target_of (mount_type mount_src : pyval) (mount_dst : string) (d : dict)
  (opts p p' : list string) :
  mount_options opts [] p = Ok (d, p') ->
  getitem (dict_update [("type", mount_type); ("source", mount_src);
                        ("target", VStr mount_dst)]
                       (dict_set "bind" (VDict [("propagation", VStr (join "," p'))]) d))
          "target"
  = Ok (VStr mount_dst).
Proof.
  intros M. unfold getitem. rewrite dict_get_update_none; [reflexivity|].
  rewrite NormalizeFacts.dict_get_set. cbn [String.eqb Ascii.eqb Bool.eqb].
  apply (mount_options_target _ _ _ _ _ M). reflexivity.
Qed.

(** [mount_dst] is the target of the record [parse_short_mount] returns. *)
Lemma parse_short_mount_dst (mount_str basedir : string) (r : pyval) :
  parse_short_mount mount_str basedir = Ok r ->
  exists t, mount_dst mount_str = Some t /\ py_getitem r "target" = Ok (VStr t).
Proof.
  unfold parse_short_mount, mount_dst. intros E.
  destruct (split ":" mount_str) as [|a [|b [|c [|d l]]]]; try discriminate.
  - cbn [bind] in E. run_options M; cbn [bind] in E; [|discriminate]. injection E as <-.
    eexists. split; [reflexivity|]. apply (target_of _ _ _ _ _ _ _ M).
  - destruct (negb (startswith "/" b)); cbn [bind] in E;
      (run_options M; cbn [bind] in E; [|discriminate]); injection E as <-;
      (eexists; split; [reflexivity|]); apply (target_of _ _ _ _ _ _ _ M).
  - cbn [bind] in E. run_options M; cbn [bind] in E; [|discriminate]. injection E as <-.
    eexists. split; [reflexivity|]. apply (target_of _ _ _ _ _ _ _ M).
Qed.

(** X26 -- [parse_short_mount] and the merge of [volumes] read the target
    of a short mount alike when the text after the first colon starts with
    a slash or is followed by a second colon; in [path:options], with one
    colon and no slash after it, the parser takes the path before the colon
    for the target, where the merge takes the options. *)
Theorem parse_short_mount_target (mount_str basedir t : string) (r : pyval) :
  parse_short_mount mount_str basedir = Ok r ->
  contains_colon (VStr mount_str) = Ok true ->
  mount_target (VStr mount_str) = Ok t ->
  (startswith "/" t = true \/ count_char ":" mount_str = 2 ->
   py_getitem r "target" = Ok (VStr t))
  /\ (startswith "/" t = false -> count_char ":" mount_str = 1 ->
      py_getitem r "target" = Ok (VStr (hd EmptyString (split ":" mount_str)))).
Proof.
  intros E Cc Mt.
  assert (T : merge_key mount_str = Some t).
  { unfold merge_key. cbn [contains_colon] in Cc. injection Cc as ->.
    cbn [mount_target] in Mt.
    destruct (nth_error (split_max ":" 2 mount_str) 1); [|discriminate].
    injection Mt as ->. reflexivity. }
  assert (C : count_char ":" mount_str <= 2).
  { pose proof (split_length ":" mount_str) as L. unfold parse_short_mount in E.
    destruct (split ":" mount_str) as [|a [|b [|c [|d l]]]]; cbn [List.length] in L;
      try lia. discriminate. }
  unfold merge_key in T.
  destruct (has_char ":" mount_str); [|discriminate].
  rewrite (split_max_enough ":" 2 (String.length mount_str)) in T
    by (try exact C; apply count_char_le).
  fold (split ":" mount_str) in T.
  pose proof (split_length ":" mount_str) as L. unfold parse_short_mount in E.
  destruct (split ":" mount_str) as [|a [|b [|c [|d l]]]]; cbn [List.length] in L;
    try discriminate; cbn [nth_error] in T; injection T as <-; cbn [hd].
  - destruct (startswith "/" b) eqn:S; cbn [negb bind] in E;
      (run_options M; cbn [bind] in E; [|discriminate]); injection E as <-;
      (split; [intros [X|X]; [|lia] | intros X Y]); try discriminate;
      apply (target_of _ _ _ _ _ _ _ M).
  - cbn [bind] in E. run_options M; cbn [bind] in E; [|discriminate]. injection E as <-.
    split; [intros _ | intros _ Y; lia]. apply (target_of _ _ _ _ _ _ _ M).
Qed.

End WithPlatform.


Lemma parse_short_mount_target_witness :
  let platform := {| code_points := fun s => [s]; resolve_path := fun basedir p => p |} in
  (@parse_short_mount platform "data:/var/lib" "/srv"
   = Ok (VDict [("type", VStr "volume"); ("source", VStr "data");
                ("target", VStr "/var/lib");
                ("bind", VDict [("propagation", VStr "")])])
   /\ mount_target (VStr "data:/var/lib") = Ok "/var/lib")
  /\ (@parse_short_mount platform "/var/lib:ro" "/srv"
      = Ok (VDict [("type", VStr "volume"); ("source", VNone);
                   ("target", VStr "/var/lib"); ("read_only", VBool true);
                   ("bind", VDict [("propagation", VStr "")])])
      /\ mount_target (VStr "/var/lib:ro") = Ok "ro"
      /\ py_getitem (VDict [("type", VStr "volume"); ("source", VNone);
                            ("target", VStr "/var/lib"); ("read_only", VBool true);
                            ("bind", VDict [("propagation", VStr "")])]) "target"
         = Ok (VStr "/var/lib")).
Proof.
  intros platform. split; [split; reflexivity|]. split; [reflexivity|].
  split; [reflexivity|].
  apply (proj2 (@parse_short_mount_target platform "/var/lib:ro" "/srv" "ro" _
                  eq_refl eq_refl eq_refl)); reflexivity.
Defined.

End MountsFacts.

(** ** Profiles and excluded services *)

Module FiltersFacts.
Import NormalizeLaws.

Lemma excluded_fold (services : dict) (args_services : list string)
  (excluded0 excluded : list string) :
  foldM (fun excluded service =>
           names <- dep_names services service ;;
           Ok (filter (fun n => negb (str_in n names) && negb (String.eqb n service))
                      excluded))
        args_services excluded0 = Ok excluded ->
  forall n,
    In n excluded
    <-> In n excluded0
        /\ forall s, In s args_services ->
                     exists names, dep_names services s = Ok names
                                   /\ n <> s /\ ~ In n names.
Proof.
  revert excluded0. induction args_services as [|a rest IH]; intros excluded0 E n.
  - injection E as <-. split; [intros I; split; [exact I|intros s []]|intros [I _]; exact I].
  - cbn [foldM] in E. apply bind_ok in E. destruct E as (ex1 & E1 & E).
    apply bind_ok in E1. destruct E1 as (names & D & E1). injection E1 as <-.
    rewrite (IH _ E n), filter_In, andb_true_iff, !negb_true_iff. split.
    + intros [(I & S & N) R]. split; [exact I|].
      intros s [<-|Hs]; [|apply R, Hs].
      exists names. split; [exact D|]. split.
      * apply String.eqb_neq, N.
      * intros Hn. apply str_in_In in Hn. congruence.
    + intros [I R]. split; [|intros s Hs; apply R; right; exact Hs].
      destruct (R a (or_introl eq_refl)) as (names' & D' & Na & Nn).
      rewrite D in D'. injection D' as <-. repeat split; [exact I| |].
      * destruct (str_in n names) eqn:S; [|reflexivity].
        apply str_in_In in S. contradiction.
      * apply String.eqb_neq, Na.
Qed.

(** X27 -- [get_excluded]: with no service requested nothing is excluded;
    otherwise a service is excluded exactly when it is none of the
    requested services and no dependency, in [_deps], of one of them. *)
Theorem get_excluded_spec (services : dict) (args_services excluded : list string) :
  get_excluded services args_services = Ok excluded ->
  (args_services = [] -> excluded = [])
  /\ (args_services <> [] ->
      forall n,
        In n excluded
        <-> In n (keys services)
            /\ forall s, In s args_services ->
                         exists names, dep_names services s = Ok names
                                       /\ n <> s /\ ~ In n names).
Proof.
  unfold get_excluded. intros E. split.
  - intros ->. injection E as <-. reflexivity.
  - intros N. destruct args_services as [|a rest]; [contradiction|].
    apply (excluded_fold _ _ _ _ E).
Qed.

Lemma get_excluded_spec_witness :
  let services := [("web", VDict [("_deps", VSet [edge "db"])]);
                   ("db", VDict [("_deps", VSet [])]);
                   ("cache", VDict [("_deps", VSet [])])] in
  get_excluded services ["web"] = Ok ["cache"]
  /\ (In "db" ["cache"]
      <-> In "db" (keys services)
          /\ forall s, In s ["web"] ->
                       exists names, dep_names services s = Ok names
                                     /\ "db" <> s /\ ~ In "db" names).
Proof.
  intros services. split; [reflexivity|].
  apply (proj2 (get_excluded_spec services ["web"] ["cache"] eq_refl)). discriminate.
Defined.

Section WithPlatform.
Context `{Platform}.

Lemma profiles_fold (requested : list string) (l acc r : dict) :
  foldM (fun services kv =>
           sel <- profile_selected requested (snd kv) ;;
           Ok (if sel then dict_set (fst kv) (snd kv) services else services))
        l acc = Ok r ->
  NoDup (keys acc ++ keys l) ->
  r = acc ++ filter (selected requested) l.
Proof.
  revert acc. induction l as [|[k v] l IH]; intros acc E N.
  - injection E as <-. cbn [filter]. rewrite app_nil_r. reflexivity.
  - cbn [foldM] in E. apply bind_ok in E. destruct E as (acc' & S & E).
    apply bind_ok in S. destruct S as (sel & S & A). injection A as <-.
    cbn [fst snd] in *. cbn [filter]. unfold selected at 1. cbn [snd]. rewrite S.
    destruct sel.
    + rewrite dict_set_new in E.
      * rewrite (IH _ E); [rewrite <- app_assoc; reflexivity|].
        unfold keys. rewrite map_app, <- app_assoc. exact N.
      * apply NoDup_remove_2 in N. intros I. apply N, in_or_app. left. exact I.
    + apply (IH _ E). apply NoDup_remove_1 in N. exact N.
Qed.

Lemma profiles_fold_kept (requested : list string) (l acc : dict) :
  (forall kv, In kv l -> profile_selected requested (snd kv) = Ok true) ->
  NoDup (keys acc ++ keys l) ->
  foldM (fun services kv =>
           sel <- profile_selected requested (snd kv) ;;
           Ok (if sel then dict_set (fst kv) (snd kv) services else services))
        l acc = Ok (acc ++ l).
Proof.
  revert acc. induction l as [|[k v] l IH]; intros acc F N.
  - cbn [foldM]. rewrite app_nil_r. reflexivity.
  - cbn [foldM]. rewrite (F (k, v) (or_introl eq_refl)). cbn [bind fst snd].
    rewrite dict_set_new.
    + rewrite IH.
      * rewrite <- app_assoc. reflexivity.
      * intros kv I. apply F. right. exact I.
      * unfold keys. rewrite map_app, <- app_assoc. exact N.
    + apply NoDup_remove_2 in N. intros I. apply N, in_or_app. left. exact I.
Qed.

Lemma NoDup_keys_filter (p : string * pyval -> bool) (d : dict) :
  NoDup (keys d) -> NoDup (keys (filter p d)).
Proof.
  induction d as [|[k v] d IH]; intros N; [constructor|].
  cbn [keys map fst] in N. inversion N as [|? ? Nk Nd]; subst.
  cbn [filter]. destruct (p (k, v)); [|apply IH, Nd].
  cbn [keys map fst]. constructor; [|apply IH, Nd].
  intros I. apply Nk. unfold keys in *. apply in_map_iff in I.
  destruct I as (kv & <- & I). apply filter_In in I. apply in_map, I.
Qed.

(** X28 -- [_resolve_profiles] keeps, in their order, the services its
    test passes on: a service without [profiles], or with an empty one, is
    always kept; a service with profiles is kept when one of them is
    requested. *)
Theorem resolve_profiles_filter (defined_services : dict) (requested_profiles : list string)
  (services : dict) :
  NoDup (keys defined_services) ->
  resolve_profiles defined_services requested_profiles = Ok services ->
  services = filter (selected requested_profiles) defined_services
  /\ (forall name config,
        In (name, VDict config) defined_services ->
        dict_get "profiles" config = None \/ dict_get "profiles" config = Some (VList []) ->
        In (name, VDict config) services)
  /\ (forall name config profiles p,
        In (name, VDict config) defined_services ->
        dict_get "profiles" config = Some (VList (map VStr profiles)) ->
        In p profiles -> In p requested_profiles ->
        In (name, VDict config) services).
Proof.
  intros N E. unfold resolve_profiles in E.
  apply profiles_fold in E; [|exact N]. cbn [app] in E. subst services.
  split; [reflexivity|]. split.
  - intros name config I P. apply filter_In. split; [exact I|].
    unfold selected, profile_selected. cbn [snd py_get bind].
    destruct P as [-> | ->]; reflexivity.
  - intros name config profiles p I P Ip Ir. apply filter_In. split; [exact I|].
    unfold selected, profile_selected. cbn [snd py_get bind]. rewrite P.
    cbn [set_elements].
    assert (U : existsb unhashable (map VStr profiles) = false).
    { clear. induction profiles as [|x l IH]; [reflexivity|exact IH]. }
    rewrite U. cbn [bind].
    assert (X : existsb (fun x => match x with
                                  | VStr s => str_in s requested_profiles
                                  | _ => false
                                  end) (map VStr profiles) = true).
    { apply existsb_exists. exists (VStr p). split; [apply in_map, Ip|].
      apply str_in_In, Ir. }
    rewrite X. destruct (map VStr profiles); reflexivity.
Qed.

(** X29 -- [_resolve_profiles] is idempotent: the services it keeps are
    all kept, in their order, when they are filtered again by the same
    profiles. *)
Theorem resolve_profiles_idempotent (defined_services : dict)
  (requested_profiles : list string) (services : dict) :
  NoDup (keys defined_services) ->
  resolve_profiles defined_services requested_profiles = Ok services ->
  resolve_profiles services requested_profiles = Ok services.
Proof.
  intros N E. unfold resolve_profiles in E.
  pose proof (profiles_fold _ _ _ _ E N) as R. cbn [app] in R. subst services.
  unfold resolve_profiles.
  apply (profiles_fold_kept requested_profiles
           (filter (selected requested_profiles) defined_services) []).
  - intros kv I. apply filter_In in I. destruct I as [_ S].
    unfold selected in S. destruct (profile_selected requested_profiles (snd kv)) as [b|];
      [subst b; reflexivity|discriminate].
  - apply NoDup_keys_filter, N.
Qed.

End WithPlatform.

Lemma resolve_profiles_filter_witness :
  let platform := {| code_points := fun s => map (fun a => String a "") (list_ascii_of_string s);
                     resolve_path := fun basedir p => p |} in
  let defined := [("web", VDict [("image", VStr "a")]);
                  ("debug", VDict [("profiles", VList (map VStr ["dev"; "test"]))]);
                  ("mail", VDict [("profiles", VList (map VStr ["prod"]))])] in
  @resolve_profiles platform defined ["test"]
  = Ok [("web", VDict [("image", VStr "a")]);
        ("debug", VDict [("profiles", VList (map VStr ["dev"; "test"]))])]
  /\ In ("debug", VDict [("profiles", VList (map VStr ["dev"; "test"]))])
        [("web", VDict [("image", VStr "a")]);
         ("debug", VDict [("profiles", VList (map VStr ["dev"; "test"]))])].
Proof.
  intros platform defined. split; [reflexivity|].
  apply (proj2 (proj2 (@resolve_profiles_filter platform defined ["test"] _
                         ltac:(apply nodupb_NoDup; reflexivity) eq_refl))
           "debug" [("profiles", VList (map VStr ["dev"; "test"]))] ["dev"; "test"] "test").
  - right. left. reflexivity.
  - reflexivity.
  - right. left. reflexivity.
  - left. reflexivity.
Defined.

Lemma resolve_profiles_idempotent_witness :
  let platform := {| code_points := fun s => map (fun a => String a "") (list_ascii_of_string s);
                     resolve_path := fun basedir p => p |} in
  let defined := [("web", VDict [("image", VStr "a")]);
                  ("debug", VDict [("profiles", VStr "dev")]);
                  ("mail", VDict [("profiles", VList [VStr "prod"])])] in
  let kept := [("web", VDict [("image", VStr "a")]);
               ("debug", VDict [("profiles", VStr "dev")])] in
  @resolve_profiles platform defined ["e"] = Ok kept
  /\ @resolve_profiles platform kept ["e"] = Ok kept.
Proof.
  intros platform defined kept. split; [reflexivity|].
  apply (@resolve_profiles_idempotent platform defined ["e"]).
  - apply nodupb_NoDup. reflexivity.
  - reflexivity.
Defined.

End FiltersFacts.
